(** * media-scanner: the scan-and-reconcile pipeline of [src/scanner.ts]

    A shallow embedding of the scanner (event pipeline, [scanFile],
    [generateThumb], [generateInfo], [generateCinf], [generateMediainfo]
    and the [cleanDeleted] sweep) together with the part of the JavaScript
    runtime the scanner leans on: IEEE-754 numbers (the kernel's binary64
    floats), string/number conversions, [Array.prototype.join],
    [String.prototype.split], the date formatting of [moment] and the one
    regular expression of the field-order probe.

    Strings are sequences of 8-bit code units: the scanner only inspects
    ASCII syntax (digits, [/], whitespace, the idet banner). *)

From Stdlib Require Import ZArith List String Ascii Bool Lia Floats.
From Stdlib Require Import DecimalString Sorted.
From Stdlib Require OrdersEx.
Import ListNotations.

Open Scope string_scope.
Open Scope Z_scope.

(** ** The JavaScript runtime *)

Module JS.

(** *** Numbers: binary64 *)

Definition number := float.

(** The Number value for the integer [z] (round to nearest, ties to even). *)
Definition of_Z (z : Z) : number :=
  SF2Prim (binary_normalize prec emax z 0 false).

(** The Number value for [±p/q]. *)
Definition of_ratio (neg : bool) (p q : positive) : number :=
  SF2Prim (SFdiv prec emax (S754_finite neg p 0) (S754_finite false q 0)).

(** The Number value for [±m * 10^e], [0 <= m]. *)
Definition of_decimal (neg : bool) (m e : Z) : number :=
  match m with
  | Zpos p =>
      match e with
      | Zneg k => of_ratio neg p (Pos.pow 10 k)
      | _ => of_Z ((if neg then -1 else 1) * (m * 10 ^ e))
      end
  | _ => if neg then neg_zero else zero
  end.

(** [x === y] on two numbers. *)
Definition num_eq (x y : number) : bool := PrimFloat.eqb x y.

(** Truthiness of a number: everything but [NaN], [+0] and [-0]. *)
Definition num_truthy (x : number) : bool := negb (is_nan x || is_zero x).

(** [Math.floor]. A finite value with a non-negative exponent is an
    integer already; otherwise the floor is below [2^53] in magnitude and
    is exactly representable. *)
Definition Math_floor (x : number) : number :=
  match Prim2SF x with
  | S754_finite s m e =>
      if 0 <=? e then x
      else of_Z (Z.shiftr (if s then Zneg m else Zpos m) (- e))
  | _ => x
  end.

(** *** Characters *)

Definition code (c : ascii) : Z := Z.of_nat (nat_of_ascii c).

Definition is_digit (c : ascii) : bool := (48 <=? code c) && (code c <=? 57).

Definition digit_val (c : ascii) : Z := code c - 48.

(** [WhiteSpace] and [LineTerminator] code points below 256: TAB, LF, VT,
    FF, CR, SP and NBSP. This is also the class [\s] of regular
    expressions. *)
Definition is_space (c : ascii) : bool :=
  let n := code c in
  ((9 <=? n) && (n <=? 13)) || (n =? 32) || (n =? 160).

Fixpoint chars (s : string) : list ascii :=
  match s with
  | EmptyString => []
  | String c s' => c :: chars s'
  end.

Fixpoint unchars (l : list ascii) : string :=
  match l with
  | [] => EmptyString
  | c :: l' => String c (unchars l')
  end.

Fixpoint drop_while (p : ascii -> bool) (l : list ascii) : list ascii :=
  match l with
  | c :: l' => if p c then drop_while p l' else l
  | [] => []
  end.

Definition trim_start (l : list ascii) : list ascii := drop_while is_space l.

Definition trim (l : list ascii) : list ascii :=
  rev (drop_while is_space (rev (drop_while is_space l))).

(** Longest prefix of decimal digits: its value, its length, the rest. *)
Fixpoint span_digits (acc : Z) (n : Z) (l : list ascii) : Z * Z * list ascii :=
  match l with
  | c :: l' =>
      if is_digit c then span_digits (10 * acc + digit_val c) (n + 1) l'
      else (acc, n, l)
  | [] => (acc, n, [])
  end.

(** *** String to number *)

(** Longest prefix matching [StrUnsignedDecimalLiteral] without the
    [Infinity] alternative: mantissa, decimal exponent and the rest. An
    exponent part is consumed only when it is complete. *)
Definition unsigned_decimal (l : list ascii) : option (Z * Z * list ascii) :=
  let '(ip, ni, r1) := span_digits 0 0 l in
  let '(m, nf, r2, ok) :=
    match r1 with
    | "."%char :: r =>
        let '(m, nf, r2) := span_digits ip 0 r in
        (m, nf, (if (0 <? ni + nf) then r2 else r1), 0 <? ni + nf)
    | _ => (ip, 0, r1, 0 <? ni)
    end in
  if negb ok then None
  else
    let with_exp (neg : bool) (r : list ascii) :=
      let '(ev, ne, r3) := span_digits 0 0 r in
      if 0 <? ne then Some (m, (if neg then - ev else ev) - nf, r3)
      else Some (m, - nf, r2) in
    match r2 with
    | ("e" | "E")%char :: "+"%char :: r => with_exp false r
    | ("e" | "E")%char :: "-"%char :: r => with_exp true r
    | ("e" | "E")%char :: r => with_exp false r
    | _ => Some (m, - nf, r2)
    end.

Definition infinity_lit : list ascii := chars "Infinity".

Fixpoint strip_prefix (p l : list ascii) : option (list ascii) :=
  match p, l with
  | [], _ => Some l
  | a :: p', b :: l' => if Ascii.eqb a b then strip_prefix p' l' else None
  | _ :: _, [] => None
  end.

(** Longest prefix matching [StrDecimalLiteral]: the value and the rest. *)
Definition decimal_prefix (l : list ascii) : option (number * list ascii) :=
  let '(neg, body) :=
    match l with
    | "-"%char :: r => (true, r)
    | "+"%char :: r => (false, r)
    | _ => (false, l)
    end in
  match strip_prefix infinity_lit body with
  | Some r => Some ((if neg then neg_infinity else infinity), r)
  | None =>
      match unsigned_decimal body with
      | Some (m, e, r) => Some (of_decimal neg m e, r)
      | None => None
      end
  end.

(** [parseFloat(s)]. *)
Definition parseFloat (s : string) : number :=
  match decimal_prefix (trim_start (chars s)) with
  | Some (x, _) => x
  | None => nan
  end.

Definition radix_digit (c : ascii) : option Z :=
  let n := code c in
  if is_digit c then Some (n - 48)
  else if (97 <=? n) && (n <=? 122) then Some (n - 87)
  else if (65 <=? n) && (n <=? 90) then Some (n - 55)
  else None.

(** Longest prefix of digits in radix [r]: value, length, rest. *)
Fixpoint span_radix (r : Z) (acc n : Z) (l : list ascii) : Z * Z * list ascii :=
  match l with
  | c :: l' =>
      match radix_digit c with
      | Some d => if d <? r then span_radix r (r * acc + d) (n + 1) l' else (acc, n, l)
      | None => (acc, n, l)
      end
  | [] => (acc, n, [])
  end.

(** [Number(s)], which is also the coercion of a string operand of [*]
    and [/]. *)
Definition string_to_number (s : string) : number :=
  let l := trim (chars s) in
  let non_decimal (r : Z) (body : list ascii) :=
    let '(v, n, rest) := span_radix r 0 0 body in
    match rest with
    | [] => if 0 <? n then of_Z v else nan
    | _ => nan
    end in
  match l with
  | [] => zero
  | "0"%char :: ("x" | "X")%char :: body => non_decimal 16 body
  | "0"%char :: ("o" | "O")%char :: body => non_decimal 8 body
  | "0"%char :: ("b" | "B")%char :: body => non_decimal 2 body
  | _ =>
      match decimal_prefix l with
      | Some (x, []) => x
      | _ => nan
      end
  end.

(** [parseInt(s)] with no radix argument. *)
Definition parseInt (s : string) : number :=
  let l := trim_start (chars s) in
  let '(neg, body) :=
    match l with
    | "-"%char :: r => (true, r)
    | "+"%char :: r => (false, r)
    | _ => (false, l)
    end in
  let '(r, digits) :=
    match body with
    | "0"%char :: ("x" | "X")%char :: d => (16, d)
    | _ => (10, body)
    end in
  let '(v, n, _) := span_radix r 0 0 digits in
  if 0 <? n then
    (if neg then (if v =? 0 then neg_zero else of_Z (- v)) else of_Z v)
  else nan.

(** *** Number to string *)

Definition Z_to_string (z : Z) : string := NilEmpty.string_of_int (Z.to_int z).

Definition strlen (s : string) : Z := Z.of_nat (String.length s).

Fixpoint zeros (n : nat) : string :=
  match n with
  | O => ""
  | S n' => String "0" (zeros n')
  end.

(** Comparison of the decimal [s * 10^a] with the binary [m * 2^b]. *)
Definition cmp_dec_bin (s a m b : Z) : comparison :=
  (s * 10 ^ Z.max a 0 * 2 ^ Z.max (- b) 0 ?= m * 2 ^ Z.max b 0 * 10 ^ Z.max (- a) 0).

(** The [n] with [10^(n-1) <= m * 2^e < 10^n], searched upwards. *)
Fixpoint decimal_exponent (fuel : nat) (n : Z) (m e : Z) : Z :=
  match fuel with
  | O => n
  | S fuel' =>
      match cmp_dec_bin 1 n m e with
      | Gt => n
      | _ => decimal_exponent fuel' (n + 1) m e
      end
  end.

(** Does the decimal [s * 10^a] round to the binary64 value [m * 2^e]
    ([m], [e] canonical)? The rounding interval is bounded by the midpoints
    to the neighbouring values and is closed when [m] is even. *)
Definition rounds_to (s a m e : Z) : bool :=
  let lo := if (m =? 2 ^ 52) && (-1074 <? e) then 4 * m - 1 else 4 * m - 2 in
  let hi := 4 * m + 2 in
  match cmp_dec_bin s a lo (e - 2), cmp_dec_bin s a hi (e - 2) with
  | Gt, Lt => true
  | Eq, Lt | Gt, Eq => Z.even m
  | _, _ => false
  end.

(** The shortest digit string [s] (of [k] digits, [k] counted upwards
    from [k]) and the exponent [n] with [s * 10^(n-k)] rounding to
    [m * 2^e]; of two candidates the one closer to the value. *)
Fixpoint shortest_digits (fuel : nat) (k n0 m e : Z) : Z * Z :=
  let a := n0 - k in
  let s0 := (m * 2 ^ Z.max e 0 * 10 ^ Z.max (- a) 0) / (2 ^ Z.max (- e) 0 * 10 ^ Z.max a 0) in
  let pick (s : Z) := if s =? 10 ^ k then (1, n0 + 1) else (s, n0) in
  match fuel with
  | O => pick s0
  | S fuel' =>
      match rounds_to s0 a m e, rounds_to (s0 + 1) a m e with
      | true, false => pick s0
      | false, true => pick (s0 + 1)
      | true, true =>
          match cmp_dec_bin (2 * s0 + 1) a (2 * m) e with
          | Gt => pick s0
          | Lt => pick (s0 + 1)
          | Eq => pick (if Z.even s0 then s0 else s0 + 1)
          end
      | false, false => shortest_digits fuel' (k + 1) n0 m e
      end
  end.

(** [Number::toString] of the positive finite value [m * 2^e]. *)
Definition positive_to_string (m e : Z) : string :=
  let n0 := decimal_exponent 700 (-330) m e in
  let '(s, n) := shortest_digits 17 1 n0 m e in
  let d := Z_to_string s in
  let k := strlen d in
  if (k <=? n) && (n <=? 21) then d ++ zeros (Z.to_nat (n - k))
  else if (0 <? n) && (n <=? 21) then
    substring 0 (Z.to_nat n) d ++ "." ++ substring (Z.to_nat n) (Z.to_nat (k - n)) d
  else if (-6 <? n) && (n <=? 0) then "0." ++ zeros (Z.to_nat (- n)) ++ d
  else
    let ex := (if n - 1 <? 0 then "-" else "+") ++ Z_to_string (Z.abs (n - 1)) in
    if k =? 1 then d ++ "e" ++ ex
    else substring 0 1 d ++ "." ++ substring 1 (Z.to_nat (k - 1)) d ++ "e" ++ ex.

(** [String(x)] for a number [x]. *)
Definition number_to_string (x : number) : string :=
  match Prim2SF x with
  | S754_nan => "NaN"
  | S754_zero _ => "0"
  | S754_infinity s => if s then "-Infinity" else "Infinity"
  | S754_finite s m e =>
      (if s then "-" else "") ++ positive_to_string (Zpos m) e
  end.

(** *** Values

    The values the scanner computes with: strings, numbers and
    [undefined]. *)

Inductive value :=
| VUndefined
| VNum (x : number)
| VStr (s : string).

(** [ToNumber]. *)
Definition to_number (v : value) : number :=
  match v with
  | VUndefined => nan
  | VNum x => x
  | VStr s => string_to_number s
  end.

(** [ToString]. *)
Definition to_string (v : value) : string :=
  match v with
  | VUndefined => "undefined"
  | VNum x => number_to_string x
  | VStr s => s
  end.

(** [v === 0]: only a number compares equal to a number. *)
Definition strict_eq_zero (v : value) : bool :=
  match v with
  | VNum x => num_eq x zero
  | _ => false
  end.

(** [a[i]] on an array. *)
Definition index (a : list value) (i : nat) : value := nth i a VUndefined.

(** [Array.prototype.join]: [undefined] elements contribute the empty
    string. *)
Definition join_item (v : value) : string :=
  match v with
  | VUndefined => ""
  | _ => to_string v
  end.

Fixpoint join (sep : string) (a : list value) : string :=
  match a with
  | [] => ""
  | [v] => join_item v
  | v :: a' => join_item v ++ sep ++ join sep a'
  end.

(** [String.prototype.split] with a one-character separator. *)
Fixpoint split_on (sep : ascii) (cur : string) (l : list ascii) : list string :=
  match l with
  | [] => [cur]
  | c :: l' =>
      if Ascii.eqb c sep then cur :: split_on sep "" l'
      else split_on sep (cur ++ String c "") l'
  end.

Definition split (sep : ascii) (s : string) : list string :=
  split_on sep "" (chars s).

(** [s.startsWith(p)]. *)
Definition startsWith (s p : string) : bool := String.prefix p s.

End JS.

(** ** Date formatting ([moment]) *)

Module Moment.

(** Proleptic Gregorian date [(year, month, day)] of a day count since
    1970-01-01. *)
Definition civil_from_days (days : Z) : Z * Z * Z :=
  let z := days + 719468 in
  let era := z / 146097 in
  let doe := z - era * 146097 in
  let yoe := (doe - doe / 1460 + doe / 36524 - doe / 146096) / 365 in
  let doy := doe - (365 * yoe + yoe / 4 - yoe / 100) in
  let mp := (5 * doy + 2) / 153 in
  let d := doy - (153 * mp + 2) / 5 + 1 in
  let m := if mp <? 10 then mp + 3 else mp - 9 in
  ((if m <=? 2 then yoe + era * 400 + 1 else yoe + era * 400), m, d).

(** [zeroFill(n, width)]. *)
Definition zeroFill (n : Z) (width : nat) : string :=
  let a := JS.Z_to_string (Z.abs n) in
  (if n <? 0 then "-" else "") ++ JS.zeros (width - String.length a) ++ a.

Inductive token := YYYY | MM | DD | HH | mm | ss | Lit (s : string).

(** Rendering of one token for the local time [local] (milliseconds). *)
Definition render (local : Z) (t : token) : string :=
  let '(y, m, d) := civil_from_days (local / 86400000) in
  let ms := local mod 86400000 in
  match t with
  | YYYY => zeroFill y 4
  | MM => zeroFill m 2
  | DD => zeroFill d 2
  | HH => zeroFill (ms / 3600000) 2
  | mm => zeroFill (ms / 60000 mod 60) 2
  | ss => zeroFill (ms / 1000 mod 60) 2
  | Lit s => s
  end.

(** [moment(t).format(fmt)] in local mode, for an instant [t] in
    milliseconds since the epoch; [utcOffset t] is the local zone's offset
    from UTC at [t], in minutes. *)
Definition format (utcOffset : Z -> Z) (fmt : list token) (t : Z) : string :=
  String.concat "" (map (render (t + utcOffset t * 60000)) fmt).

(** ['YYYYMMDDHHmmss'] *)
Definition fmt_cinf : list token := [YYYY; MM; DD; HH; mm; ss].

(** ['YYYYMMDDTHHmmss'] *)
Definition fmt_tinf : list token := [YYYY; MM; DD; Lit "T"; HH; mm; ss].

End Moment.

(** ** The scanner *)

Module Scanner.

Import JS.

Definition dquote : string := String "034"%char "".
Definition crlf : string := String "013"%char (String "010"%char "").

(** *** Data model *)

(** [fs.Stats], as far as the scanner reads it: sizes in bytes, [mtime] as
    [mtime.getTime()] in milliseconds. *)
Record Stats := {
  isFile : bool;
  isDirectory : bool;
  size : Z;
  mtime : Z
}.

(** One stream of the probe's JSON. The probe prints the attributes the
    record generator reads as strings; [None] is an absent attribute. The
    remaining attributes are only copied and are looked up by name. *)
Record Stream := {
  codec_type : option string;
  codec_time_base : option string;
  time_base : option string;
  avg_frame_rate : option string;
  r_frame_rate : option string;
  stream_attr : string -> value
}.

Record Format := {
  duration : option string;
  format_attr : string -> value
}.

Record ProbeJson := {
  streams : list Stream;
  format : Format
}.

(** [Timebase]: annotated [[number, number]] in the source, but an array
    of whatever [split] returned when it comes from a [time_base]
    attribute. *)
Definition Timebase := list value.

Record MediainfoStream := {
  ms_codec : list (string * value);
  ms_fields : list (string * value)
}.

Record Mediainfo := {
  mi_name : string;
  mi_path : string;
  mi_size : Z;
  mi_time : Z;
  field_order : string;
  mi_streams : list MediainfoStream;
  mi_format : list (string * value)
}.

Record Attachment := {
  content_type : string;
  data : string
}.

(** [PouchDBMediaDocument]. *)
Record MediaDocument := {
  _id : string;
  _rev : string;
  mediaPath : string;
  mediaSize : Z;
  mediaTime : Z;
  thumbSize : option Z;
  thumbTime : option Z;
  cinf : option string;
  tinf : option string;
  mediainfo : option Mediainfo;
  _attachments : option Attachment
}.

Record Metadata := {
  fieldOrder : bool;
  fieldOrderScanDuration : Z
}.

(** The configuration entries that steer the scanner: [config.paths.media],
    [config.scanner.paths] and [config.metadata] ([None] for [null]). *)
Record Config := {
  paths_media : string;
  scanner_paths : string;
  metadata : option Metadata
}.

(** What the scanner imports and is not part of [scanner.ts]: [getId] of
    [./util], [path.normalize], the local time zone and clock behind
    [moment], and the revision tokens the store hands out. [now] is what
    the clock reads when [moment()] is called with no time; the handling
    of one event calls it at most once, and the pipeline hands every
    event the reading of its own moment ([at_time]). *)
Record Runtime := {
  getId : string -> string -> string;
  normalize : string -> string;
  utcOffset : Z -> Z;
  now : Z;
  next_rev : string -> string
}.

(** The runtime when the clock reads [t]. *)
Definition at_time (t : Z) (rt : Runtime) : Runtime :=
  {| getId := getId rt; normalize := normalize rt; utcOffset := utcOffset rt;
     now := t; next_rev := next_rev rt |}.

(** *** [generateCinf] *)

(** [x || d] for an optional string attribute. *)
Definition or_else (x : option string) (d : string) : string :=
  match x with
  | Some s => if String.eqb s "" then d else s
  | None => d
  end.

Definition is_str (x : option string) (s : string) : bool :=
  match x with
  | Some t => String.eqb t s
  | None => false
  end.

Definition split_tb (s : string) : Timebase := map VStr (split "/" s).

Record Timebases := {
  audioTb : option Timebase;
  videoTb : option Timebase;
  stillTb : option Timebase
}.

Definition no_timebases : Timebases :=
  {| audioTb := None; videoTb := None; stillTb := None |}.

(** The timebase of a motion-video stream. *)
Definition motion_timebase (stream : Stream) : Timebase :=
  let fr := split "/" (or_else (avg_frame_rate stream) (or_else (r_frame_rate stream) "")) in
  if (List.length fr =? 2)%nat then
    [VNum (string_to_number (nth 1 fr "")); VNum (string_to_number (nth 0 fr ""))]
  else split_tb (or_else (time_base stream) "1/25").

(** The body of the [for] loop over [json.streams]. *)
Definition visit (acc : Timebases) (stream : Stream) : Timebases :=
  if is_str (codec_type stream) "audio" then
    match audioTb acc with
    | None =>
        {| audioTb := Some (split_tb (or_else (time_base stream) "1/25"));
           videoTb := videoTb acc; stillTb := stillTb acc |}
    | Some _ => acc
    end
  else if is_str (codec_type stream) "video" then
    if is_str (codec_time_base stream) "0/1" then
      match stillTb acc with
      | None =>
          {| audioTb := audioTb acc; videoTb := videoTb acc;
             stillTb := Some [VNum zero; VNum one] |}
      | Some _ => acc
      end
    else
      match videoTb acc with
      | None =>
          {| audioTb := audioTb acc; videoTb := Some (motion_timebase stream);
             stillTb := stillTb acc |}
      | Some _ => acc
      end
  else acc.

Definition type_MOVIE : string := " MOVIE ".
Definition type_STILL : string := " STILL ".
Definition type_AUDIO : string := " AUDIO ".

(** The type token and the timebase chosen after the loop. *)
Definition choose (acc : Timebases) : string * Timebase :=
  match videoTb acc with
  | Some tb => (type_MOVIE, tb)
  | None =>
      match stillTb acc, audioTb acc with
      | Some tb, None => (type_STILL, tb)
      | _, Some tb => (type_AUDIO, tb)
      | _, None => (type_AUDIO, [VNum zero; VNum one])
      end
  end.

Definition infer (ss : list Stream) : string * Timebase :=
  choose (fold_left visit ss no_timebases).

(** [parseFloat(json.format.duration) || 1 / 24] *)
Definition probe_duration (json : ProbeJson) : number :=
  let d := match duration (format json) with
           | Some s => parseFloat s
           | None => nan
           end in
  if num_truthy d then d else (one / of_Z 24)%float.

(** [tb[0] === 0 ? 0 : Math.floor((dur * tb[1]) / tb[0])] *)
Definition frame_duration (dur : number) (tb : Timebase) : number :=
  if strict_eq_zero (index tb 0) then zero
  else Math_floor ((dur * to_number (index tb 1)) / to_number (index tb 0))%float.

(** [moment(t)] of an optional timestamp: [moment(undefined)] is the
    clock's reading at the call. *)
Definition moment_of (rt : Runtime) (t : option Z) : Z :=
  match t with
  | Some t => t
  | None => now rt
  end.

Definition generateCinf (cfg : Config) (rt : Runtime) (doc : MediaDocument)
    (json : ProbeJson) : string :=
  let dur := probe_duration json in
  let '(type, tb) := infer (streams json) in
  join " "
    [ VStr (dquote ++ getId rt (paths_media cfg) (mediaPath doc) ++ dquote);
      VStr type;
      VNum (of_Z (mediaSize doc));
      VStr (Moment.format (utcOffset rt) Moment.fmt_cinf (moment_of rt (thumbTime doc)));
      VNum (frame_duration dur tb);
      VStr (to_string (index tb 0) ++ "/" ++ to_string (index tb 1)) ]
  ++ crlf.

(** *** The field-order probe

    [/Multi frame detection: TFF:\s+(\d+)\s+BFF:\s+(\d+)\s+Progressive:\s+(\d+)/].
    Whitespace and digits are disjoint classes and every [\s+] and [\d+]
    is followed by a character of the other class or by a literal, so the
    greedy quantifiers never give anything back: at a given start the
    match, if any, takes the maximal runs. *)

(** [\s+]: the rest after a maximal, non-empty run of whitespace. *)
Definition spaces1 (l : list ascii) : option (list ascii) :=
  match l with
  | c :: r => if is_space c then Some (drop_while is_space r) else None
  | [] => None
  end.

Fixpoint take_while (p : ascii -> bool) (l : list ascii) : list ascii :=
  match l with
  | c :: l' => if p c then c :: take_while p l' else []
  | [] => []
  end.

(** [(\d+)]: the maximal, non-empty run of digits and the rest. *)
Definition digits1 (l : list ascii) : option (list ascii * list ascii) :=
  match take_while is_digit l with
  | [] => None
  | d => Some (d, drop_while is_digit l)
  end.

Definition lit_tff : list ascii := chars "Multi frame detection: TFF:".
Definition lit_bff : list ascii := chars "BFF:".
Definition lit_prog : list ascii := chars "Progressive:".

(** A match anchored at the head of [l]: the three captures. *)
Definition match_here (l : list ascii) : option (string * string * string) :=
  match strip_prefix lit_tff l with
  | None => None
  | Some r =>
  match spaces1 r with
  | None => None
  | Some r =>
  match digits1 r with
  | None => None
  | Some (d1, r) =>
  match spaces1 r with
  | None => None
  | Some r =>
  match strip_prefix lit_bff r with
  | None => None
  | Some r =>
  match spaces1 r with
  | None => None
  | Some r =>
  match digits1 r with
  | None => None
  | Some (d2, r) =>
  match spaces1 r with
  | None => None
  | Some r =>
  match strip_prefix lit_prog r with
  | None => None
  | Some r =>
  match spaces1 r with
  | None => None
  | Some r =>
  match digits1 r with
  | None => None
  | Some (d3, _) => Some (unchars d1, unchars d2, unchars d3)
  end end end end end end end end end end end.

(** [resultRegex.exec(stderr)]: the leftmost match. *)
Fixpoint regex_exec (l : list ascii) : option (string * string * string) :=
  match match_here l with
  | Some m => Some m
  | None =>
      match l with
      | [] => None
      | _ :: r => regex_exec r
      end
  end.

(** The classification of the idet counts. *)
Definition classify_field_order (stderr : string) : string :=
  match regex_exec (chars stderr) with
  | None => "unknown"
  | Some (r1, r2, _) =>
      let tff := parseInt r1 in
      let bff := parseInt r2 in
      if (tff <=? of_Z 10)%float && (bff <=? of_Z 10)%float then "progressive"
      else if (bff <? tff)%float then "tff" else "bff"
  end.

(** *** Effects

    Asynchronous functions are programs over a state that may throw
    (a rejected promise); the state is kept when they do. An exception
    thrown by a callback that the event loop runs is in no promise:
    nothing rejects, no handler sees it and the process ends
    ([Uncaught]). *)

Inductive Exn :=
| Error (msg : string)
| Uncaught (msg : string).

Definition Prog (S A : Type) : Type := S -> (Exn + A) * S.

Definition ret {S A} (a : A) : Prog S A := fun s => (inr a, s).

Definition bind {S A B} (m : Prog S A) (k : A -> Prog S B) : Prog S B :=
  fun s =>
    match m s with
    | (inr a, s') => k a s'
    | (inl e, s') => (inl e, s')
    end.

Definition throw {S A} (e : Exn) : Prog S A := fun s => (inl e, s).

(** [try { m } catch (e) { h(e) }], which is also [m.catch(h)]: the
    handler gets what [m] rejects with, not what ends the process. *)
Definition try_catch {S A} (m : Prog S A) (h : Exn -> Prog S A) : Prog S A :=
  fun s =>
    match m s with
    | (inr a, s') => (inr a, s')
    | (inl (Error msg), s') => h (Error msg) s'
    | (inl (Uncaught msg), s') => (inl (Uncaught msg), s')
    end.

Definition modify {S} (f : S -> S) : Prog S unit := fun s => (inr tt, f s).

Notation "x <- m ;; k" := (bind m (fun x => k))
  (at level 61, m at next level, right associativity).
Notation "m ;; k" := (bind m (fun _ => k))
  (at level 61, right associativity).

(** What a run leaves behind: calls to the store, to the external tools
    and to the logger, in program order. The two concurrent sides of a
    scan are listed one after the other, the side that completes first
    coming first. *)
Inductive Effect :=
| DbGet (id : string)
| DbPut (doc : MediaDocument)
| DbRemove (doc : MediaDocument)
| DbAllDocs (startkey : option string) (rows : list MediaDocument)
| DbBulkDocs (deleted : list (string * string))
| RunFfprobe (path : string)
| RunThumbnail (path : string)
| RunIdet (path : string)
| StatFile (path : string)
| LogInfo (msg : string)
| LogError (e : Exn) (msg : string).

(** What the external tools answer while one file is processed. The
    probe exits with an error, prints a JSON object, or exits normally
    with an output on which the callback of [cp.exec] throws
    ([JSON.parse] refuses it, or it has no properties to read). *)
Inductive ProbeOutcome :=
| ProbeFailed
| ProbeOutput (json : ProbeJson)
| ProbeUnparsable.

Inductive IdetOutcome :=
| IdetFailed
| IdetOutput (stderr : string).

(** The thumbnail run fails before the temporary file could be statted,
    when reading it back, when unlinking it, or not at all. *)
Inductive ThumbOutcome :=
| ThumbNoFile
| ThumbUnreadable (st : Stats)
| ThumbNotUnlinked (st : Stats) (png : string)
| ThumbDone (st : Stats) (png : string).

(** [thumb_first]: the thumbnail's stat completes before the probe does.
    The two promises of [Promise.all] share the document, and the only
    field one writes and the other reads is [thumbTime]. *)
Record Externals := {
  ffprobe : ProbeOutcome;
  idet : IdetOutcome;
  thumbnail : ThumbOutcome;
  thumb_first : bool
}.

(** The document under construction and the effects issued so far. *)
Record Scan := {
  doc : MediaDocument;
  issued : list Effect
}.

Definition issue (e : Effect) : Prog Scan unit :=
  modify (fun s => {| doc := doc s; issued := issued s ++ [e] |}).

Definition update (f : MediaDocument -> MediaDocument) : Prog Scan unit :=
  modify (fun s => {| doc := f (doc s); issued := issued s |}).

Definition the_doc : Prog Scan MediaDocument := fun s => (inr (doc s), s).

Definition set_thumb (sz t : Z) (ti : string) (d : MediaDocument) : MediaDocument :=
  {| _id := _id d; _rev := _rev d; mediaPath := mediaPath d;
     mediaSize := mediaSize d; mediaTime := mediaTime d;
     thumbSize := Some sz; thumbTime := Some t;
     cinf := cinf d; tinf := Some ti; mediainfo := mediainfo d;
     _attachments := _attachments d |}.

Definition set_attachments (a : Attachment) (d : MediaDocument) : MediaDocument :=
  {| _id := _id d; _rev := _rev d; mediaPath := mediaPath d;
     mediaSize := mediaSize d; mediaTime := mediaTime d;
     thumbSize := thumbSize d; thumbTime := thumbTime d;
     cinf := cinf d; tinf := tinf d; mediainfo := mediainfo d;
     _attachments := Some a |}.

Definition set_cinf (c : string) (d : MediaDocument) : MediaDocument :=
  {| _id := _id d; _rev := _rev d; mediaPath := mediaPath d;
     mediaSize := mediaSize d; mediaTime := mediaTime d;
     thumbSize := thumbSize d; thumbTime := thumbTime d;
     cinf := Some c; tinf := tinf d; mediainfo := mediainfo d;
     _attachments := _attachments d |}.

Definition set_mediainfo (m : Mediainfo) (d : MediaDocument) : MediaDocument :=
  {| _id := _id d; _rev := _rev d; mediaPath := mediaPath d;
     mediaSize := mediaSize d; mediaTime := mediaTime d;
     thumbSize := thumbSize d; thumbTime := thumbTime d;
     cinf := cinf d; tinf := tinf d; mediainfo := Some m;
     _attachments := _attachments d |}.

Definition set_media (p : string) (sz t : Z) (d : MediaDocument) : MediaDocument :=
  {| _id := _id d; _rev := _rev d; mediaPath := p;
     mediaSize := sz; mediaTime := t;
     thumbSize := thumbSize d; thumbTime := thumbTime d;
     cinf := cinf d; tinf := tinf d; mediainfo := mediainfo d;
     _attachments := _attachments d |}.

Definition set_rev (r : string) (d : MediaDocument) : MediaDocument :=
  {| _id := _id d; _rev := r; mediaPath := mediaPath d;
     mediaSize := mediaSize d; mediaTime := mediaTime d;
     thumbSize := thumbSize d; thumbTime := thumbTime d;
     cinf := cinf d; tinf := tinf d; mediainfo := mediainfo d;
     _attachments := _attachments d |}.

(** The TINF record. *)
Definition generateTinf (cfg : Config) (rt : Runtime) (path : string) (sz t : Z) : string :=
  join " "
    [ VStr (dquote ++ getId rt (paths_media cfg) path ++ dquote);
      VStr (Moment.format (utcOffset rt) Moment.fmt_tinf t);
      VNum (of_Z sz) ]
  ++ crlf.

Definition png_attachment (png : string) : Attachment :=
  {| content_type := "image/png"; data := png |}.

(** [generateThumb] *)
Definition generateThumb (cfg : Config) (rt : Runtime) (ext : Externals) : Prog Scan unit :=
  d <- the_doc ;;
  issue (RunThumbnail (mediaPath d)) ;;
  let assign (st : Stats) :=
    update (fun d => set_thumb (size st) (mtime st)
                       (generateTinf cfg rt (mediaPath d) (size st) (mtime st)) d) in
  match thumbnail ext with
  | ThumbNoFile => throw (Error "thumbnail")
  | ThumbUnreadable st => assign st ;; throw (Error "readFile")
  | ThumbNotUnlinked st png =>
      assign st ;; update (set_attachments (png_attachment png)) ;; throw (Error "unlink")
  | ThumbDone st png =>
      assign st ;; update (set_attachments (png_attachment png))
  end.

Definition opt_value (x : option string) : value :=
  match x with
  | Some s => VStr s
  | None => VUndefined
  end.

(** The per-stream remap of [generateMediainfo]. *)
Definition remap_stream (s : Stream) : MediainfoStream :=
  let a := stream_attr s in
  {| ms_codec :=
       [ ("long_name", a "codec_long_name"); ("type", opt_value (codec_type s));
         ("time_base", opt_value (codec_time_base s));
         ("tag_string", a "codec_tag_string"); ("is_avc", a "is_avc") ];
     ms_fields :=
       [ ("width", a "width"); ("height", a "height");
         ("sample_aspect_ratio", a "sample_aspect_ratio");
         ("display_aspect_ratio", a "display_aspect_ratio");
         ("pix_fmt", a "pix_fmt"); ("bits_per_raw_sample", a "bits_per_raw_sample");
         ("sample_fmt", a "sample_fmt"); ("sample_rate", a "sample_rate");
         ("channels", a "channels"); ("channel_layout", a "channel_layout");
         ("bits_per_sample", a "bits_per_sample");
         ("time_base", opt_value (time_base s)); ("start_time", a "start_time");
         ("duration_ts", a "duration_ts"); ("duration", a "duration");
         ("bit_rate", a "bit_rate"); ("max_bit_rate", a "max_bit_rate");
         ("nb_frames", a "nb_frames") ] |}.

Definition remap_format (f : Format) : list (string * value) :=
  let a := format_attr f in
  [ ("name", a "format_name"); ("long_name", a "format_long_name");
    ("size", a "time"); ("start_time", a "start_time");
    ("duration", opt_value (duration f)); ("bit_rate", a "bit_rate");
    ("max_bit_rate", a "max_bit_rate") ].

(** The promise behind [fieldOrder] in [generateMediainfo]. *)
Definition detectFieldOrder (md : Metadata) (ext : Externals) : Prog Scan string :=
  if negb (fieldOrder md) then ret "unknown"
  else
    d <- the_doc ;;
    issue (RunIdet (mediaPath d)) ;;
    match idet ext with
    | IdetFailed => throw (Error "idet")
    | IdetOutput stderr => ret (classify_field_order stderr)
    end.

(** [generateMediainfo] *)
Definition generateMediainfo (md : Metadata) (ext : Externals) (json : ProbeJson)
  : Prog Scan Mediainfo :=
  order <- detectFieldOrder md ext ;;
  d <- the_doc ;;
  ret {| mi_name := _id d; mi_path := mediaPath d; mi_size := mediaSize d;
         mi_time := mediaTime d; field_order := order;
         mi_streams := map remap_stream (streams json);
         mi_format := remap_format (format json) |}.

(** [generateInfo] *)
Definition generateInfo (cfg : Config) (rt : Runtime) (ext : Externals) : Prog Scan unit :=
  d <- the_doc ;;
  issue (RunFfprobe (mediaPath d)) ;;
  match ffprobe ext with
  | ProbeFailed => throw (Error "ffprobe")
  | ProbeUnparsable => throw (Uncaught "JSON.parse")
  | ProbeOutput json =>
      match streams json with
      | [] => throw (Error "not media")
      | _ :: _ =>
          d <- the_doc ;;
          update (set_cinf (generateCinf cfg rt d json)) ;;
          match metadata cfg with
          | None => ret tt
          | Some md =>
              m <- generateMediainfo md ext json ;;
              update (set_mediainfo m)
          end
      end
  end.

(** *** The catalog store

    Modelled from the spec: the document store behind [db] ([src/db.ts]
    and the database it wraps are not among the sources). §6 gives its
    interface: [get], [put] and [remove] under optimistic concurrency,
    a paged listing ordered by id, and a batched delete. *)

Definition id_ltb (a b : string) : bool :=
  match OrdersEx.String_as_OT.compare a b with
  | Lt => true
  | _ => false
  end.

Record World := {
  catalog : list MediaDocument;
  trace : list Effect
}.

Definition emit (e : Effect) : Prog World unit :=
  modify (fun w => {| catalog := catalog w; trace := trace w ++ [e] |}).

Definition lookup (id : string) (cat : list MediaDocument) : option MediaDocument :=
  find (fun d => String.eqb (_id d) id) cat.

(** Modelled from the spec: [get(id) -> (doc, revision) | NotFound]. *)
Definition db_get (id : string) : Prog World MediaDocument :=
  emit (DbGet id) ;;
  fun w =>
    match lookup id (catalog w) with
    | Some d => (inr d, w)
    | None => (inl (Error "missing"), w)
    end.

Fixpoint insert_doc (d : MediaDocument) (cat : list MediaDocument) : list MediaDocument :=
  match cat with
  | [] => [d]
  | x :: cat' => if id_ltb (_id d) (_id x) then d :: cat else x :: insert_doc d cat'
  end.

Definition replace_doc (d : MediaDocument) (cat : list MediaDocument) : list MediaDocument :=
  map (fun x => if String.eqb (_id x) (_id d) then d else x) cat.

Definition remove_doc (id : string) (cat : list MediaDocument) : list MediaDocument :=
  filter (fun x => negb (String.eqb (_id x) id)) cat.

(** The revision a new document is offered with. *)
Definition rev_new : string := "0".

(** Modelled from the spec: [put(doc, revision) -> newRevision | Conflict];
    the write succeeds only when the revision is the stored one, or the
    sentinel for an id not on file. *)
Definition db_put (rt : Runtime) (d : MediaDocument) : Prog World unit :=
  emit (DbPut d) ;;
  fun w =>
    let stored := set_rev (next_rev rt (_rev d)) d in
    match lookup (_id d) (catalog w) with
    | Some old =>
        if String.eqb (_rev old) (_rev d)
        then (inr tt, {| catalog := replace_doc stored (catalog w); trace := trace w |})
        else (inl (Error "conflict"), w)
    | None =>
        if String.eqb (_rev d) rev_new
        then (inr tt, {| catalog := insert_doc stored (catalog w); trace := trace w |})
        else (inl (Error "conflict"), w)
    end.

(** Modelled from the spec: [remove(doc, revision) -> ok | Conflict]. *)
Definition db_remove (d : MediaDocument) : Prog World unit :=
  emit (DbRemove d) ;;
  fun w =>
    match lookup (_id d) (catalog w) with
    | Some old =>
        if String.eqb (_rev old) (_rev d)
        then (inr tt, {| catalog := remove_doc (_id d) (catalog w); trace := trace w |})
        else (inl (Error "conflict"), w)
    | None => (inl (Error "missing"), w)
    end.

Definition at_or_after (startkey : option string) (d : MediaDocument) : bool :=
  match startkey with
  | Some k => negb (id_ltb (_id d) k)
  | None => true
  end.

(** Modelled from the spec: [listPage(startKey, limit)]; the listing is
    ordered by id and starts at [startkey] itself when that id is on
    file. *)
Definition db_allDocs (startkey : option string) (lim : nat)
  : Prog World (list MediaDocument) :=
  fun w =>
    let rows := firstn lim (filter (at_or_after startkey) (catalog w)) in
    (inr rows, {| catalog := catalog w; trace := trace w ++ [DbAllDocs startkey rows] |}).

Definition listed (deleted : list (string * string)) (d : MediaDocument) : bool :=
  existsb (fun x => String.eqb (fst x) (_id d) && String.eqb (snd x) (_rev d)) deleted.

(** Modelled from the spec: [bulkDelete(entries) -> ok]; an entry is
    removed when id and revision are the stored ones. *)
Definition db_bulkDocs (deleted : list (string * string)) : Prog World unit :=
  emit (DbBulkDocs deleted) ;;
  modify (fun w => {| catalog := filter (fun d => negb (listed deleted d)) (catalog w);
                      trace := trace w |}).

(** *** [scanFile] *)

(** The placeholder for an id that could not be fetched. *)
Definition placeholder (mediaId : string) : MediaDocument :=
  {| _id := mediaId; _rev := rev_new; mediaPath := ""; mediaSize := 0; mediaTime := 0;
     thumbSize := None; thumbTime := None; cinf := None; tinf := None;
     mediainfo := None; _attachments := None |}.

(** [Promise.all([generateInfo(doc).catch(..), generateThumb(doc).catch(..)])]:
    each side logs its own failure; the order in which the two sides
    reach [thumbTime] is the run's [thumb_first]. An exception that ends
    the process ends both sides: what the other side had still to do is
    not done. *)
Definition probes (cfg : Config) (rt : Runtime) (ext : Externals) : Prog Scan unit :=
  let info :=
    try_catch (generateInfo cfg rt ext) (fun e => issue (LogError e "Info Failed")) in
  let thumb :=
    try_catch (generateThumb cfg rt ext) (fun e => issue (LogError e "Thumbnail Failed")) in
  if thumb_first ext then thumb ;; info else info ;; thumb.

(** Runs a program over the document [d] and hands back the document it
    leaves, with its effects appended to the world's. *)
Definition with_doc (d : MediaDocument) (p : Prog Scan unit) : Prog World MediaDocument :=
  fun w =>
    let '(r, s) := p {| doc := d; issued := [] |} in
    let w' := {| catalog := catalog w; trace := trace w ++ issued s |} in
    match r with
    | inr _ => (inr (doc s), w')
    | inl e => (inl e, w')
    end.

Definition scanFile (cfg : Config) (rt : Runtime) (ext : Externals)
    (path : string) (mediaId : string) (mediaStat : Stats) : Prog World unit :=
  if String.eqb mediaId "" || isDirectory mediaStat then ret tt
  else
    d <- try_catch (db_get mediaId) (fun _ => ret (placeholder mediaId)) ;;
    if negb (String.eqb (mediaPath d) "") && negb (String.eqb (mediaPath d) path)
    then emit (LogInfo "Skipped")
    else if (mediaSize d =? size mediaStat) && (mediaTime d =? mtime mediaStat)
    then ret tt
    else
      d' <- with_doc (set_media path (size mediaStat) (mtime mediaStat) d)
              (probes cfg rt ext) ;;
      db_put rt d' ;;
      emit (LogInfo "Scanned").

(** *** The event pipeline *)

(** A watcher event: [stat] is [None] for [unlink]. The event carries
    what the external tools answer while it is being handled, and what
    the clock reads then. *)
Record Event := {
  ev_path : string;
  ev_stat : option Stats;
  ev_ext : Externals;
  ev_now : Z
}.

(** The body of the [try] block of the pipeline's callback. *)
Definition handle (cfg : Config) (rt : Runtime) (ev : Event) : Prog World unit :=
  let mediaId := getId rt (paths_media cfg) (ev_path ev) in
  match ev_stat ev with
  | None => d <- db_get mediaId ;; db_remove d
  | Some mediaStat => scanFile cfg rt (ev_ext ev) (ev_path ev) mediaId mediaStat
  end.

(** The callback handed to [concatMap]. *)
Definition onEvent (cfg : Config) (rt : Runtime) (ev : Event) : Prog World unit :=
  try_catch (handle cfg rt ev) (fun e => emit (LogError e "")).

(** [concatMap(project)]: the inner promises run one after the other in
    arrival order; an inner promise that rejects errors the stream and
    nothing after it is projected. *)
Fixpoint concatMap {S E} (project : E -> Prog S unit) (source : list E) : Prog S unit :=
  match source with
  | [] => ret tt
  | e :: rest => project e ;; concatMap project rest
  end.

(** The callback as the stream runs it on an event, at the event's own
    time. *)
Definition callback (cfg : Config) (rt : Runtime) (ev : Event) : Prog World unit :=
  onEvent cfg (at_time (ev_now ev) rt) ev.

Definition pipeline (cfg : Config) (rt : Runtime) (events : list Event) : Prog World unit :=
  concatMap (callback cfg rt) events.

(** *** [cleanDeleted] *)

(** A file system as seen by [fs.stat]: [None] when the call throws. *)
Definition FileSystem := string -> option Stats.

Definition limit : nat := 256.

Definition in_folder (cfg : Config) (rt : Runtime) (d : MediaDocument) : bool :=
  startsWith (normalize rt (mediaPath d)) (normalize rt (scanner_paths cfg)).

Definition regular (fs : FileSystem) (d : MediaDocument) : bool :=
  match fs (mediaPath d) with
  | Some st => isFile st
  | None => false
  end.

(** The row returns before [deleted.push]: its path starts with the
    folder, the stat does not throw and reports a regular file. (The outer
    [catch] of the callback is never entered here: [path.normalize] only
    throws for a path that is not a string.) *)
Definition kept (cfg : Config) (rt : Runtime) (fs : FileSystem) (d : MediaDocument) : bool :=
  in_folder cfg rt d && regular fs d.

Definition tombstone (d : MediaDocument) : string * string := (_id d, _rev d).

(** The [deleted] array of one page. Every callback of [rows.map] runs up
    to its first [await] at once: rows outside the folder push their
    tombstone right away, the others issue their [stat] and push when it
    has failed. *)
Definition condemned (cfg : Config) (rt : Runtime) (fs : FileSystem)
    (rows : list MediaDocument) : list MediaDocument :=
  filter (fun d => negb (in_folder cfg rt d)) rows
  ++ filter (fun d => negb (regular fs d)) (filter (in_folder cfg rt) rows).

Definition stat_calls (cfg : Config) (rt : Runtime) (rows : list MediaDocument)
  : list Effect :=
  map (fun d => StatFile (mediaPath d)) (filter (in_folder cfg rt) rows).

(** One page: the callbacks, then [db.bulkDocs(deleted)]. *)
Definition sweep_page (cfg : Config) (rt : Runtime) (fs : FileSystem)
    (rows : list MediaDocument) : Prog World unit :=
  modify (fun w => {| catalog := catalog w;
                      trace := trace w ++ stat_calls cfg rt rows |}) ;;
  db_bulkDocs (map tombstone (condemned cfg rt fs rows)).

(** The [while (true)] loop; the result tells whether it left through
    [break] ([true]) or ran out of [fuel]. *)
Fixpoint sweep (fuel : nat) (cfg : Config) (rt : Runtime) (fs : FileSystem)
    (lim : nat) (startkey : option string) : Prog World bool :=
  match fuel with
  | O => ret false
  | S fuel' =>
      rows <- db_allDocs startkey lim ;;
      sweep_page cfg rt fs rows ;;
      if (List.length rows <? lim)%nat then ret true
      else sweep fuel' cfg rt fs lim (Some (_id (last rows (placeholder ""))))
  end.

Definition cleanDeleted (cfg : Config) (rt : Runtime) (fs : FileSystem) : Prog World bool :=
  emit (LogInfo "Checking for dead media") ;;
  done <- (fun w => sweep (S (List.length (catalog w))) cfg rt fs limit None w) ;;
  emit (LogInfo "Finished check for dead media") ;;
  ret done.

End Scanner.

(** ** The specification's wording

    Definitions that follow the sentences of the specification, to be
    compared with the scanner's. *)

Module Spec.

Import JS Scanner.

(** The record §8 quotes for the fixed inputs: one space on either side
    of the type. *)
Definition quoted_cinf : string :=
  dquote ++ "CLIP" ++ dquote ++ " MOVIE 1000 19700101000000 50 1/25" ++ crlf.

(** §4.5, type and timebase inference. *)

Definition is_audio (s : Stream) : bool := is_str (codec_type s) "audio".

Definition is_video (s : Stream) : bool := is_str (codec_type s) "video".

(** A video stream whose codec time-base is the still sentinel. *)
Definition is_still (s : Stream) : bool :=
  is_video s && is_str (codec_time_base s) "0/1".

Definition is_motion (s : Stream) : bool :=
  is_video s && negb (is_str (codec_time_base s) "0/1").

Definition slash_free (s : string) : bool :=
  forallb (fun c => negb (Ascii.eqb c "/"%char)) (chars s).

(** "a time-base expressed as a rational [num/den]": the text up to its
    first slash and the text behind it, when that holds no further
    slash. A text without a slash, or with two, is no rational. *)
Fixpoint at_slash (l : list ascii) : option (list ascii * list ascii) :=
  match l with
  | [] => None
  | c :: r =>
      if Ascii.eqb c "/"%char then Some ([], r)
      else
        match at_slash r with
        | Some (a, b) => Some (c :: a, b)
        | None => None
        end
  end.

Definition rational (s : string) : option (string * string) :=
  match at_slash (chars s) with
  | Some (num, den) =>
      if slash_free (unchars den) then Some (unchars num, unchars den) else None
  | None => None
  end.

(** An attribute the probe reports: present and not empty. *)
Definition given (x : option string) : option string :=
  match x with
  | Some s => if String.eqb s "" then None else Some s
  | None => None
  end.

(** The three media types and their tokens: "space-padded 7-character
    type token". *)
Inductive media_type := MOVIE | STILL | AUDIO.

Definition token (k : media_type) : string :=
  match k with
  | MOVIE => " MOVIE "
  | STILL => " STILL "
  | AUDIO => " AUDIO "
  end.

(** The timebases of §4.5: the still timebase [[0,1]], a time-base
    attribute [num/den] as the probe wrote it, and a frame rate [num/den]
    inverted ("timebase = denominator/numerator of frame rate"). *)
Inductive timebase :=
| Still
| Written (num den : string)
| Inverted (num den : string).

(** The array that stands for a timebase: the two parts of a written
    time-base are kept as texts, those of an inverted frame rate are
    numbers, denominator first. *)
Definition as_array (tb : timebase) : Timebase :=
  match tb with
  | Still => [VNum (of_Z 0); VNum (of_Z 1)]
  | Written num den => [VStr num; VStr den]
  | Inverted num den => [VNum (string_to_number den); VNum (string_to_number num)]
  end.

(** "the stream's own time-base (fallback 1/25)"; nothing is said of a
    time-base that is no rational. *)
Definition stream_timebase (s : Stream) : option timebase :=
  match given (time_base s) with
  | None => Some (Written "1" "25")
  | Some t =>
      match rational t with
      | Some (num, den) => Some (Written num den)
      | None => None
      end
  end.

(** "preferring avg_frame_rate / r_frame_rate (inverted) and falling back
    to the stream's own time-base" *)
Definition frame_rate (s : Stream) : option string :=
  match given (avg_frame_rate s) with
  | Some r => Some r
  | None => given (r_frame_rate s)
  end.

Definition motion (s : Stream) : option timebase :=
  match frame_rate s with
  | Some r =>
      match rational r with
      | Some (num, den) => Some (Inverted num den)
      | None => stream_timebase s
      end
  | None => stream_timebase s
  end.

(** "if a motion-video timebase was found, MOVIE; else if a still timebase
    was found and no audio stream exists, STILL; else AUDIO (using the
    audio timebase, or [0,1] if none found)" *)
Definition classification (ss : list Stream) : option (media_type * timebase) :=
  match find is_motion ss with
  | Some v => option_map (pair MOVIE) (motion v)
  | None =>
      if existsb is_still ss && negb (existsb is_audio ss) then Some (STILL, Still)
      else
        match find is_audio ss with
        | Some a => option_map (pair AUDIO) (stream_timebase a)
        | None => Some (AUDIO, Still)
        end
  end.

(** The time-base of every stream is a rational, where there is one. *)
Definition rational_timebases (ss : list Stream) : Prop :=
  forall s, In s ss -> stream_timebase s <> None.

(** §4.5, duration in frames. *)



(** §4.4, the field-order pattern. *)



(** §4.2, the per-event algorithm. *)

(** "Fetch existing entry by id, defaulting to an empty placeholder if
    absent or fetch fails." *)
Definition fetched (id : string) (w : World) : MediaDocument :=
  match lookup id (catalog w) with
  | Some d => d
  | None => placeholder id
  end.

(** "the stored [mediaPath] is non-empty and differs from the event's
    path" *)
Definition collides (d : MediaDocument) (path : string) : bool :=
  negb (String.eqb (mediaPath d) "") && negb (String.eqb (mediaPath d) path).

(** "[mediaSize] and [mediaTime] both equal the stored values" *)
Definition unchanged (st : Stats) (d : MediaDocument) : bool :=
  (mediaSize d =? size st) && (mediaTime d =? mtime st).

(** A probe invocation: the info probe, the thumbnail probe or the
    field-order probe. *)
Definition is_probe (e : Effect) : bool :=
  match e with
  | RunFfprobe _ | RunThumbnail _ | RunIdet _ => true
  | _ => false
  end.

(** A catalog write. *)
Definition is_write (e : Effect) : bool :=
  match e with
  | DbPut _ | DbRemove _ | DbBulkDocs _ => true
  | _ => false
  end.

(** Effects with neither a probe invocation nor a catalog write. *)
Definition quiet (es : list Effect) : bool :=
  forallb (fun e => negb (is_probe e || is_write e)) es.

(** "Fails with ProbeError when the external tool exits non-zero, or with
    NotMediaError when the output contains no streams." *)
Definition info_fails (ext : Externals) : Prop :=
  ffprobe ext = ProbeFailed
  \/ exists json, ffprobe ext = ProbeOutput json /\ streams json = [].

Definition thumb_fails (ext : Externals) : Prop :=
  forall st png, thumbnail ext <> ThumbDone st png.

(** The world once further effects have been issued on an unchanged
    catalog. *)
Definition after (w : World) (es : list Effect) : World :=
  {| catalog := catalog w; trace := (trace w ++ es)%list |}.

(** Agreement of two documents on the stat fields and the store's keys,
    on the fields of the info side, and on those of the thumbnail side. *)
Definition same_media (d d' : MediaDocument) : Prop :=
  _id d' = _id d /\ _rev d' = _rev d /\ mediaPath d' = mediaPath d
  /\ mediaSize d' = mediaSize d /\ mediaTime d' = mediaTime d.

Definition same_info (d d' : MediaDocument) : Prop :=
  cinf d' = cinf d /\ mediainfo d' = mediainfo d.

Definition same_thumb (d d' : MediaDocument) : Prop :=
  thumbSize d' = thumbSize d /\ thumbTime d' = thumbTime d
  /\ tinf d' = tinf d /\ _attachments d' = _attachments d.

(** "updated thumbnail fields (thumbSize, thumbTime, tinf, attachment)" *)
Definition thumb_updated (cfg : Config) (rt : Runtime) (st : Stats) (png : string)
    (d' : MediaDocument) : Prop :=
  thumbSize d' = Some (size st) /\ thumbTime d' = Some (mtime st)
  /\ tinf d' = Some (generateTinf cfg rt (mediaPath d') (size st) (mtime st))
  /\ _attachments d' = Some (png_attachment png).

(** §4.3, the sweep. *)

Definition id_lt (a b : MediaDocument) : Prop := id_ltb (_id a) (_id b) = true.

(** "ordered by id": the catalog holds every id once, in ascending
    order. *)
Definition ordered (cat : list MediaDocument) : Prop := StronglySorted id_lt cat.

(** The pages a run has listed. *)
Definition pages_of (tr : list Effect) : list (list MediaDocument) :=
  flat_map (fun e => match e with
                     | DbAllDocs _ rows => [rows]
                     | _ => []
                     end) tr.

Definition has_id (id : string) (rows : list MediaDocument) : bool :=
  existsb (fun d => String.eqb (_id d) id) rows.

(** How often an id was fetched by a listing, and a path statted. *)
Definition fetches (id : string) (tr : list Effect) : nat :=
  List.length (filter (has_id id) (pages_of tr)).

Definition stats (path : string) (tr : list Effect) : nat :=
  List.length (filter (fun e => match e with
                                | StatFile p => String.eqb p path
                                | _ => false
                                end) tr).

(** The catalog once the tombstones of a page have been applied. *)
Definition purged (cfg : Config) (rt : Runtime) (fs : FileSystem)
    (rows cat : list MediaDocument) : list MediaDocument :=
  filter (fun d => negb (listed (map tombstone (condemned cfg rt fs rows)) d)) cat.

(** The world after one turn of the sweep's loop on the page [rows]. *)
Definition turned (cfg : Config) (rt : Runtime) (fs : FileSystem)
    (startkey : option string) (rows : list MediaDocument) (w : World) : World :=
  {| catalog := purged cfg rt fs rows (catalog w);
     trace := (trace w ++ DbAllDocs startkey rows :: stat_calls cfg rt rows
               ++ [DbBulkDocs (map tombstone (condemned cfg rt fs rows))])%list |}.

(** The page a listing returns. *)
Definition page_at (startkey : option string) (lim : nat) (cat : list MediaDocument)
  : list MediaDocument :=
  firstn lim (filter (at_or_after startkey) cat).

(** A decision procedure for [ordered]: each id is below its successor. *)
Fixpoint ascending (cat : list MediaDocument) : bool :=
  match cat with
  | a :: (b :: _) as rest => id_ltb (_id a) (_id b) && ascending rest
  | _ => true
  end.

(** The info side rejects in its field-order pass: the probe has
    answered with streams, metadata asks for the field order, and the
    idet run exits with an error. *)
Definition idet_fails (cfg : Config) (ext : Externals) (json : ProbeJson) : Prop :=
  ffprobe ext = ProbeOutput json /\ streams json <> []
  /\ (exists md, metadata cfg = Some md /\ fieldOrder md = true)
  /\ idet ext = IdetFailed.

End Spec.

(** ** The scan in closed form

    What the two sides of a scan leave in the document and in the trace,
    as functions of the tools' answers. The properties of the scanner
    below are read off these once the programs are shown to compute
    them. *)

Module Closed.

Import JS Scanner.

(** What the loop of [generateCinf] stores for an audio stream and for a
    still. *)
Definition own_timebase (s : Stream) : Timebase :=
  split_tb (or_else (time_base s) "1/25").

Definition still_timebase : Timebase := [VNum zero; VNum one].

(** The document [generateThumb] leaves, whether it resolves or rejects. *)
Definition after_thumb (cfg : Config) (rt : Runtime) (ext : Externals)
    (d : MediaDocument) : MediaDocument :=
  let stat (st : Stats) :=
    set_thumb (size st) (mtime st)
      (generateTinf cfg rt (mediaPath d) (size st) (mtime st)) d in
  match thumbnail ext with
  | ThumbNoFile => d
  | ThumbUnreadable st => stat st
  | ThumbNotUnlinked st png => set_attachments (png_attachment png) (stat st)
  | ThumbDone st png => set_attachments (png_attachment png) (stat st)
  end.

(** The rejection of [generateThumb], if any. *)
Definition thumb_error (ext : Externals) : option Exn :=
  match thumbnail ext with
  | ThumbNoFile => Some (Error "thumbnail")
  | ThumbUnreadable _ => Some (Error "readFile")
  | ThumbNotUnlinked _ _ => Some (Error "unlink")
  | ThumbDone _ _ => None
  end.

(** The field order [generateMediainfo] resolves, if the pass does not
    fail. *)
Definition resolved_order (md : Metadata) (ext : Externals) : option string :=
  if fieldOrder md then
    match idet ext with
    | IdetFailed => None
    | IdetOutput stderr => Some (classify_field_order stderr)
    end
  else Some "unknown".

Definition mediainfo_of (d : MediaDocument) (order : string) (json : ProbeJson)
  : Mediainfo :=
  {| mi_name := _id d; mi_path := mediaPath d; mi_size := mediaSize d;
     mi_time := mediaTime d; field_order := order;
     mi_streams := map remap_stream (streams json);
     mi_format := remap_format (format json) |}.

(** The document [generateInfo] leaves, whether it resolves, rejects or
    ends the process. *)
Definition after_info (cfg : Config) (rt : Runtime) (ext : Externals)
    (d : MediaDocument) : MediaDocument :=
  match ffprobe ext with
  | ProbeFailed | ProbeUnparsable => d
  | ProbeOutput json =>
      match streams json with
      | [] => d
      | _ :: _ =>
          let d1 := set_cinf (generateCinf cfg rt d json) d in
          match metadata cfg with
          | None => d1
          | Some md =>
              match resolved_order md ext with
              | Some order => set_mediainfo (mediainfo_of d1 order json) d1
              | None => d1
              end
          end
      end
  end.

(** The rejection of [generateInfo], if any (an output the callback
    throws on rejects nothing). *)
Definition info_error (cfg : Config) (ext : Externals) : option Exn :=
  match ffprobe ext with
  | ProbeFailed => Some (Error "ffprobe")
  | ProbeUnparsable => None
  | ProbeOutput json =>
      match streams json with
      | [] => Some (Error "not media")
      | _ :: _ =>
          match metadata cfg with
          | None => None
          | Some md =>
              match resolved_order md ext with
              | Some _ => None
              | None => Some (Error "idet")
              end
          end
      end
  end.

(** Does [generateInfo] get to the idet pass? *)
Definition runs_idet (cfg : Config) (ext : Externals) : bool :=
  match ffprobe ext with
  | ProbeFailed | ProbeUnparsable => false
  | ProbeOutput json =>
      match streams json with
      | [] => false
      | _ :: _ =>
          match metadata cfg with
          | Some md => fieldOrder md
          | None => false
          end
      end
  end.

Definition logged (o : option Exn) (msg : string) : list Effect :=
  match o with
  | Some e => [LogError e msg]
  | None => []
  end.

Definition thumb_effects (ext : Externals) (path : string) : list Effect :=
  RunThumbnail path :: logged (thumb_error ext) "Thumbnail Failed".

Definition info_effects (cfg : Config) (ext : Externals) (path : string) : list Effect :=
  RunFfprobe path
  :: (if runs_idet cfg ext then [RunIdet path] else [])
  ++ logged (info_error cfg ext) "Info Failed".

(** The document and the effects of the joined probes. *)
Definition after_probes (cfg : Config) (rt : Runtime) (ext : Externals)
    (d : MediaDocument) : MediaDocument :=
  if thumb_first ext then after_info cfg rt ext (after_thumb cfg rt ext d)
  else after_thumb cfg rt ext (after_info cfg rt ext d).

Definition probe_effects (cfg : Config) (ext : Externals) (path : string) : list Effect :=
  if thumb_first ext then thumb_effects ext path ++ info_effects cfg ext path
  else info_effects cfg ext path ++ thumb_effects ext path.

(** The document a scan puts for an event on the world [w]. *)
Definition scanned (cfg : Config) (rt : Runtime) (ext : Externals) (path id : string)
    (st : Stats) (w : World) : MediaDocument :=
  after_probes cfg rt ext (set_media path (size st) (mtime st) (Spec.fetched id w)).

(** The effects a run of the sweep may issue on a catalog: log lines,
    listings, batched deletes, and stats of catalogued paths that lie in
    the folder. *)
Definition sweep_effect (cfg : Config) (rt : Runtime) (cat : list MediaDocument)
    (e : Effect) : Prop :=
  match e with
  | LogInfo _ | DbAllDocs _ _ | DbBulkDocs _ => True
  | StatFile p => exists d, In d cat /\ in_folder cfg rt d = true /\ mediaPath d = p
  | _ => False
  end.

(** A stream the loop of [generateCinf] passes over: neither audio nor
    video. *)
Definition other_stream (s : Stream) : bool :=
  negb (Spec.is_audio s) && negb (Spec.is_video s).

(** The stat of the temporary file, when the thumbnail run got that far. *)
Definition thumb_stat (ext : Externals) : option Stats :=
  match thumbnail ext with
  | ThumbNoFile => None
  | ThumbUnreadable st | ThumbNotUnlinked st _ | ThumbDone st _ => Some st
  end.

(** The probe output without the streams the loop passes over. *)
Definition audio_video_only (json : ProbeJson) : ProbeJson :=
  {| streams := filter (fun s => negb (other_stream s)) (streams json);
     format := format json |}.

(** An effect that changes nothing in the catalog: no write, no removal,
    and no batched delete other than the empty one. *)
Definition idle (e : Effect) : bool :=
  match e with
  | DbPut _ | DbRemove _ => false
  | DbBulkDocs deleted => match deleted with [] => true | _ :: _ => false end
  | _ => true
  end.

End Closed.

(** ** Sample inputs *)

Module Samples.

Import JS Scanner.

Definition no_attr : string -> value := fun _ => VUndefined.

Definition upper (c : ascii) : ascii :=
  if (97 <=? code c) && (code c <=? 122) then ascii_of_nat (nat_of_ascii c - 32) else c.

(** The characters before the last [.] of a file name, or all of them. *)
Fixpoint strip_ext (l : list ascii) : list ascii :=
  match l with
  | [] => []
  | c :: r =>
      if Ascii.eqb c "."%char && negb (existsb (Ascii.eqb "."%char) r) then []
      else c :: strip_ext r
  end.

(** An identifier derivation in the manner of §4.1: the path relative to
    the media root, without its extension, in upper case. *)
Definition sample_getId (root path : string) : string :=
  let rel :=
    match strip_prefix (chars root ++ ["/"%char]) (chars path) with
    | Some r => r
    | None => chars path
    end in
  unchars (map upper (strip_ext rel)).

Definition utc : Runtime :=
  {| getId := sample_getId; normalize := fun p => p; utcOffset := fun _ => 0;
     now := 0; next_rev := fun r => r ++ "+" |}.

Definition media_cfg : Config :=
  {| paths_media := "/media"; scanner_paths := "/media"; metadata := None |}.

Definition video_25 : Stream :=
  {| codec_type := Some "video"; codec_time_base := Some "1/50";
     time_base := Some "1/12800"; avg_frame_rate := Some "25/1";
     r_frame_rate := Some "25/1"; stream_attr := no_attr |}.

Definition audio_48k : Stream :=
  {| codec_type := Some "audio"; codec_time_base := Some "1/48000";
     time_base := Some "1/48000"; avg_frame_rate := Some "0/0";
     r_frame_rate := Some "0/0"; stream_attr := no_attr |}.

Definition still_image : Stream :=
  {| codec_type := Some "video"; codec_time_base := Some "0/1";
     time_base := Some "1/25"; avg_frame_rate := Some "25/1";
     r_frame_rate := Some "25/1"; stream_attr := no_attr |}.

Definition probe_of (d : option string) (ss : list Stream) : ProbeJson :=
  {| streams := ss; format := {| duration := d; format_attr := no_attr |} |}.

(** Two seconds of video at 25 frames per second, with sound. *)
Definition clip_json : ProbeJson := probe_of (Some "2.000000") [video_25; audio_48k].


Definition clip_doc : MediaDocument :=
  {| _id := "CLIP"; _rev := "0+"; mediaPath := "/media/clip.mov";
     mediaSize := 1000; mediaTime := 86400000;
     thumbSize := Some 512; thumbTime := Some 0;
     cinf := None; tinf := None; mediainfo := None; _attachments := None |}.

(** The summary line of an idet pass: 50 top-field-first frames, 2
    bottom-field-first. *)
Definition idet_tff : string :=
  "[Parsed_idet_0 @ 0x55d0c8] Multi frame detection: TFF:    50 BFF:     2 Progressive:   148 Undetermined:     0".


Definition detect_on : Metadata := {| fieldOrder := true; fieldOrderScanDuration := 200 |}.


(** A catalog holding the clip, and watcher events on it. *)
Definition clip_world : World := {| catalog := [clip_doc]; trace := [] |}.

Definition file_stat (sz t : Z) : Stats :=
  {| isFile := true; isDirectory := false; size := sz; mtime := t |}.

Definition thumb_stat : Stats := file_stat 2048 172800000.

(** The probe fails, the thumbnail is produced. *)
Definition info_down : Externals :=
  {| ffprobe := ProbeFailed; idet := IdetFailed;
     thumbnail := ThumbDone thumb_stat "PNG"; thumb_first := false |}.

(** The probe answers, the thumbnail tool fails. *)
Definition thumb_down : Externals :=
  {| ffprobe := ProbeOutput clip_json; idet := IdetFailed;
     thumbnail := ThumbNoFile; thumb_first := true |}.

(** The clip as it is on file, the clip rewritten, and another file that
    derives the same id. *)
Definition clip_same : Event :=
  {| ev_path := "/media/clip.mov"; ev_stat := Some (file_stat 1000 86400000);
     ev_ext := info_down;
     ev_now := 1700000060000 |}.

Definition clip_grown : Event :=
  {| ev_path := "/media/clip.mov"; ev_stat := Some (file_stat 4000 90000000);
     ev_ext := info_down;
     ev_now := 1700000120000 |}.

Definition clip_grown_no_thumb : Event :=
  {| ev_path := "/media/clip.mov"; ev_stat := Some (file_stat 4000 90000000);
     ev_ext := thumb_down;
     ev_now := 1700000180000 |}.

Definition clip_rival : Event :=
  {| ev_path := "/media/clip.mxf"; ev_stat := Some (file_stat 7000 90000000);
     ev_ext := info_down;
     ev_now := 1700000240000 |}.

(** A removal of a file that was never catalogued: the lookup throws. *)
Definition ghost_removed : Event :=
  {| ev_path := "/media/ghost.mov"; ev_stat := None; ev_ext := info_down;
     ev_now := 1700000300000 |}.

(** A stale entry of another folder, next to the clip. *)
Definition archive_doc : MediaDocument :=
  {| _id := "OLD"; _rev := "0+"; mediaPath := "/archive/old.mov";
     mediaSize := 10; mediaTime := 5;
     thumbSize := None; thumbTime := None;
     cinf := None; tinf := None; mediainfo := None; _attachments := None |}.

Definition mixed_world : World := {| catalog := [clip_doc; archive_doc]; trace := [] |}.

(** Every path is a regular file. *)
Definition all_present : FileSystem := fun _ => Some (file_stat 1 1).

(** A catalog of 257 entries [E000] .. [E256] under the media folder. *)
Definition numbered (n : nat) : MediaDocument :=
  let tag := Moment.zeroFill (Z.of_nat n) 3 in
  {| _id := "E" ++ tag; _rev := "0+"; mediaPath := "/media/e" ++ tag ++ ".mov";
     mediaSize := 10; mediaTime := 5;
     thumbSize := None; thumbTime := None;
     cinf := None; tinf := None; mediainfo := None; _attachments := None |}.

Definition big_world : World := {| catalog := map numbered (seq 0 257); trace := [] |}.

(** All files are there but the one of the 256th entry. *)
Definition one_missing : FileSystem :=
  fun p => if String.eqb p "/media/e255.mov" then None else Some (file_stat 1 1).

(** The first page of the sweep over the large catalog, and its last row. *)
Definition first_page : list MediaDocument :=
  Spec.page_at None limit (catalog big_world).

Definition last_row : MediaDocument := last first_page (placeholder "").

(** Metadata with field-order detection switched on, and a run whose idet
    pass fails after the probe has answered. *)
Definition detect_cfg : Config :=
  {| paths_media := "/media"; scanner_paths := "/media"; metadata := Some detect_on |}.

Definition idet_down : Externals :=
  {| ffprobe := ProbeOutput clip_json; idet := IdetFailed;
     thumbnail := ThumbDone thumb_stat "PNG"; thumb_first := false |}.

Definition clip_grown_idet_down : Event :=
  {| ev_path := "/media/clip.mov"; ev_stat := Some (file_stat 4000 90000000);
     ev_ext := idet_down;
     ev_now := 1700000360000 |}.

(** An audio-only probe whose stream reports the time-base [0/1]. *)
Definition audio_zero : Stream :=
  {| codec_type := Some "audio"; codec_time_base := None;
     time_base := Some "0/1"; avg_frame_rate := None;
     r_frame_rate := None; stream_attr := no_attr |}.

(** The clip is removed from disk. *)
Definition clip_removed : Event :=
  {| ev_path := "/media/clip.mov"; ev_stat := None; ev_ext := info_down;
     ev_now := 1700000420000 |}.

(** A new, empty file whose modification time is the epoch. *)
Definition empty_added : Event :=
  {| ev_path := "/media/empty.mov"; ev_stat := Some (file_stat 0 0);
     ev_ext := info_down;
     ev_now := 1700000480000 |}.

(** The clip rewritten while neither tool gets anywhere, while the
    thumbnail cannot be read back, and while only its temporary file
    cannot be removed. *)
Definition with_thumb (o : ThumbOutcome) : Externals :=
  {| ffprobe := ProbeFailed; idet := IdetFailed; thumbnail := o; thumb_first := true |}.

Definition grown_with (ext : Externals) : Event :=
  {| ev_path := "/media/clip.mov"; ev_stat := Some (file_stat 4000 90000000);
     ev_ext := ext;
     ev_now := 1700000540000 |}.

Definition clip_grown_unprobed : Event := grown_with (with_thumb ThumbNoFile).

Definition clip_grown_unreadable : Event :=
  grown_with (with_thumb (ThumbUnreadable thumb_stat)).

Definition clip_grown_not_unlinked : Event :=
  grown_with (with_thumb (ThumbNotUnlinked thumb_stat "PNG")).

(** The clip rewritten while every tool answers. *)
Definition all_up : Externals :=
  {| ffprobe := ProbeOutput clip_json; idet := IdetOutput idet_tff;
     thumbnail := ThumbDone thumb_stat "PNG"; thumb_first := true |}.

Definition clip_grown_detected : Event := grown_with all_up.

(** A subtitle stream, and a cover picture as the probe reports it: a
    video stream without a frame rate. *)
Definition subtitle : Stream :=
  {| codec_type := Some "subtitle"; codec_time_base := Some "0/1";
     time_base := Some "1/1000"; avg_frame_rate := Some "0/0";
     r_frame_rate := Some "0/0"; stream_attr := no_attr |}.

Definition cover_art : Stream :=
  {| codec_type := Some "video"; codec_time_base := Some "1/90000";
     time_base := Some "1/90000"; avg_frame_rate := Some "0/0";
     r_frame_rate := Some "90000/1"; stream_attr := no_attr |}.

(** A new file that is probed before its thumbnail has been statted. *)
Definition fresh_added : Event :=
  {| ev_path := "/media/fresh.mov"; ev_stat := Some (file_stat 4000 90000000);
     ev_ext := idet_down;
     ev_now := 1700000600000 |}.

(** Another file than the clip is rewritten. *)
Definition other_grown : Event :=
  {| ev_path := "/media/other.mov"; ev_stat := Some (file_stat 9000 95000000);
     ev_ext := all_up;
     ev_now := 1700000660000 |}.

(** The new file is removed again. *)
Definition fresh_removed : Event :=
  {| ev_path := "/media/fresh.mov"; ev_stat := None; ev_ext := info_down;
     ev_now := 1700000720000 |}.

(** The summary line of an idet pass that counts as many top-field-first
    as bottom-field-first frames. *)
Definition idet_tie : string :=
  "[Parsed_idet_0 @ 0x55d0c8] Multi frame detection: TFF:    30 BFF:    30 Progressive:   500 Undetermined:     0".

(** The clip as catalogued by a scanner that had metadata switched on. *)
Definition clip_info : Mediainfo :=
  {| mi_name := "CLIP"; mi_path := "/media/clip.mov"; mi_size := 1000;
     mi_time := 86400000; field_order := "tff"; mi_streams := [];
     mi_format := [] |}.

Definition described_world : World :=
  {| catalog := [set_mediainfo clip_info clip_doc]; trace := [] |}.

(** An entry of a sibling folder whose name begins like the scan
    folder's. *)
Definition sibling_doc : MediaDocument :=
  {| _id := "SIBLING"; _rev := "0+"; mediaPath := "/mediaX/a.mov";
     mediaSize := 10; mediaTime := 5;
     thumbSize := None; thumbTime := None;
     cinf := None; tinf := None; mediainfo := None; _attachments := None |}.

Definition sibling_world : World := {| catalog := [sibling_doc]; trace := [] |}.

(** The clip rewritten while the probe exits normally and prints what
    its callback throws on. *)
Definition garbled : Externals :=
  {| ffprobe := ProbeUnparsable; idet := IdetFailed;
     thumbnail := ThumbDone thumb_stat "PNG"; thumb_first := false |}.

Definition clip_grown_garbled : Event := grown_with garbled.

End Samples.

(** ** Properties *)

Import JS Scanner.
Import Spec (after).

(** *** The CINF record *)

(** C1, as stated, fails: for id [CLIP], size 1000, thumbnail time 0, a
    probe output with frame-duration 50 and timebase 1/25, the generator
    does not return the quoted string: the type token carries its own
    padding and the join adds a space on either side of it. *)
Lemma cinf_quoted_record_differs :
  getId Samples.utc (paths_media Samples.media_cfg) (mediaPath Samples.clip_doc) = "CLIP"
  /\ mediaSize Samples.clip_doc = 1000
  /\ thumbTime Samples.clip_doc = Some 0
  /\ infer (streams Samples.clip_json) = (type_MOVIE, [VNum one; VNum (of_Z 25)])
  /\ frame_duration (probe_duration Samples.clip_json) [VNum one; VNum (of_Z 25)] = of_Z 50
  /\ generateCinf Samples.media_cfg Samples.utc Samples.clip_doc Samples.clip_json
     <> Spec.quoted_cinf.
Proof.
  repeat split; try reflexivity.
  intro H. vm_compute in H. discriminate H.
Qed.

(** C1 (amended): for id [CLIP], media size 1000, thumbnail time 0 in a
    zone at UTC, a probe output classified MOVIE with timebase 1/25 and
    frame-duration 50, [generateCinf] returns the quoted id, the padded
    type token, size, timestamp, frame-duration and timebase joined by
    single spaces and ended by CRLF; the 7-character token [" MOVIE "]
    therefore stands between two spaces on either side. *)
Theorem cinf_fixed_record (cfg : Config) (rt : Runtime) (d : MediaDocument)
    (json : ProbeJson) :
  getId rt (paths_media cfg) (mediaPath d) = "CLIP" ->
  mediaSize d = 1000 ->
  thumbTime d = Some 0 ->
  utcOffset rt 0 = 0 ->
  infer (streams json) = (type_MOVIE, [VNum one; VNum (of_Z 25)]) ->
  frame_duration (probe_duration json) [VNum one; VNum (of_Z 25)] = of_Z 50 ->
  generateCinf cfg rt d json
  = dquote ++ "CLIP" ++ dquote ++ "  MOVIE  1000 19700101000000 50 1/25" ++ crlf.
Proof.
  intros Hid Hsize Hthumb Hzone Hinfer Hframes.
  unfold generateCinf.
  rewrite Hinfer, Hid, Hsize, Hthumb, Hframes.
  unfold Moment.format, moment_of.
  rewrite Hzone.
  vm_compute. reflexivity.
Qed.

Lemma cinf_fixed_record_witness :
  generateCinf Samples.media_cfg Samples.utc Samples.clip_doc Samples.clip_json
  = dquote ++ "CLIP" ++ dquote ++ "  MOVIE  1000 19700101000000 50 1/25" ++ crlf.
Proof.
  apply (cinf_fixed_record Samples.media_cfg Samples.utc Samples.clip_doc Samples.clip_json);
    reflexivity.
Defined.

(** *** Type and timebase inference *)

Lemma chars_app (a b : string) : chars (a ++ b) = (chars a ++ chars b)%list.
Proof. induction a as [|c a IH]; simpl; [reflexivity | now rewrite IH]. Qed.

Lemma unchars_chars (a : string) : unchars (chars a) = a.
Proof. induction a as [|c a IH]; simpl; [reflexivity | now rewrite IH]. Qed.

Lemma chars_unchars (l : list ascii) : chars (unchars l) = l.
Proof. induction l as [|c l IH]; simpl; [reflexivity | now rewrite IH]. Qed.

Lemma append_empty (a : string) : a ++ "" = a.
Proof. induction a as [|c a IH]; simpl; [reflexivity | now rewrite IH]. Qed.

Lemma append_assoc (a b c : string) : (a ++ b) ++ c = a ++ b ++ c.
Proof. induction a as [|x a IH]; simpl; [reflexivity | now rewrite IH]. Qed.

Lemma split_on_free (sep : ascii) (l : list ascii) :
  forall cur,
    forallb (fun c => negb (Ascii.eqb c sep)) l = true ->
    split_on sep cur l = [cur ++ unchars l].
Proof.
  induction l as [|c l IH]; intros cur H; simpl in *.
  - now rewrite append_empty.
  - apply andb_prop in H. destruct H as [Hc Hl].
    apply negb_true_iff in Hc. rewrite Hc, (IH _ Hl), append_assoc. reflexivity.
Qed.

Lemma split_on_first (sep : ascii) (l1 l2 : list ascii) :
  forall cur,
    forallb (fun c => negb (Ascii.eqb c sep)) l1 = true ->
    split_on sep cur (l1 ++ sep :: l2) = (cur ++ unchars l1) :: split_on sep "" l2.
Proof.
  induction l1 as [|c l1 IH]; intros cur H; simpl in *.
  - now rewrite Ascii.eqb_refl, append_empty.
  - apply andb_prop in H. destruct H as [Hc Hl].
    apply negb_true_iff in Hc. rewrite Hc, (IH _ Hl), append_assoc. reflexivity.
Qed.

(** A rate written [a/b] splits into exactly its two parts. *)
Lemma split_rate (a b : string) :
  Spec.slash_free a = true -> Spec.slash_free b = true ->
  split "/" (a ++ "/" ++ b) = [a; b].
Proof.
  intros Ha Hb. unfold split. rewrite chars_app. simpl.
  rewrite (split_on_first _ _ _ _ Ha), (split_on_free _ _ _ Hb).
  simpl. now rewrite !unchars_chars.
Qed.

Lemma or_else_rate (a b d : string) : or_else (Some (a ++ "/" ++ b)) d = a ++ "/" ++ b.
Proof. destruct a; reflexivity. Qed.

(** What the loop leaves in its three variables, from any starting point:
    each keeps the first value it was given. *)
Lemma fold_visit (ss : list Stream) :
  forall acc,
    videoTb (fold_left visit ss acc)
    = match videoTb acc with
      | Some t => Some t
      | None => option_map motion_timebase (find Spec.is_motion ss)
      end
    /\ audioTb (fold_left visit ss acc)
       = match audioTb acc with
         | Some t => Some t
         | None => option_map Closed.own_timebase (find Spec.is_audio ss)
         end
    /\ stillTb (fold_left visit ss acc)
       = match stillTb acc with
         | Some t => Some t
         | None => if existsb Spec.is_still ss then Some Closed.still_timebase else None
         end.
Proof.
  induction ss as [|s ss IH]; intros acc; simpl.
  - destruct (videoTb acc), (audioTb acc), (stillTb acc); auto.
  - destruct (IH (visit acc s)) as (Hv & Ha & Hs).
    rewrite Hv, Ha, Hs. clear IH Hv Ha Hs.
    unfold visit, Spec.is_motion, Spec.is_still, Spec.is_audio, Spec.is_video.
    destruct acc as [ta tv ts]. simpl.
    destruct (is_str (codec_type s) "audio") eqn:Eaudio.
    + assert (Evideo : is_str (codec_type s) "video" = false).
      { unfold is_str in *. destruct (codec_type s) as [t|]; [|reflexivity].
        apply String.eqb_eq in Eaudio. subst t. reflexivity. }
      rewrite Evideo. simpl.
      destruct ta, tv, ts; simpl; auto.
    + destruct (is_str (codec_type s) "video"); simpl.
      * destruct (is_str (codec_time_base s) "0/1"); simpl;
          destruct ta, tv, ts; simpl; auto.
      * destruct ta, tv, ts; simpl; auto.
Qed.

Lemma at_slash_some (l a b : list ascii) :
  Spec.at_slash l = Some (a, b) ->
  l = (a ++ "/"%char :: b)%list
  /\ forallb (fun c => negb (Ascii.eqb c "/"%char)) a = true.
Proof.
  revert a. induction l as [|c l IH]; intros a H; simpl in H; [discriminate|].
  destruct (Ascii.eqb c "/"%char) eqn:Ec.
  - inversion H. subst a b. apply Ascii.eqb_eq in Ec. subst c. now split.
  - destruct (Spec.at_slash l) as [[a' b']|]; [|discriminate].
    inversion H. subst a b'. destruct (IH a' eq_refl) as [-> Ha].
    split; [reflexivity|]. simpl. now rewrite Ec.
Qed.

Lemma at_slash_none (l : list ascii) :
  Spec.at_slash l = None -> forallb (fun c => negb (Ascii.eqb c "/"%char)) l = true.
Proof.
  induction l as [|c l IH]; simpl; intros H; [reflexivity|].
  destruct (Ascii.eqb c "/"%char); [discriminate|].
  destruct (Spec.at_slash l) as [[a b]|]; [discriminate|]. now apply IH.
Qed.

Lemma split_on_one (sep : ascii) (l : list ascii) :
  forall cur, (1 <= List.length (split_on sep cur l))%nat.
Proof.
  induction l as [|c l IH]; intros cur; simpl; [lia|].
  destruct (Ascii.eqb c sep); simpl; [lia | apply IH].
Qed.

Lemma split_on_two (sep : ascii) (l : list ascii) :
  forall cur,
    forallb (fun c => negb (Ascii.eqb c sep)) l = false ->
    (2 <= List.length (split_on sep cur l))%nat.
Proof.
  induction l as [|c l IH]; intros cur H; simpl in *; [discriminate|].
  destruct (Ascii.eqb c sep); simpl in *.
  - pose proof (split_on_one sep l ""). lia.
  - exact (IH _ H).
Qed.

(** A rational splits at its slash into its two parts, and only a
    rational splits in two. *)
Lemma split_rational (s num den : string) :
  Spec.rational s = Some (num, den) -> split "/" s = [num; den].
Proof.
  unfold Spec.rational. intros H.
  destruct (Spec.at_slash (chars s)) as [[a b]|] eqn:E; [|discriminate].
  destruct (Spec.slash_free (unchars b)) eqn:Hb; [|discriminate].
  inversion H. subst num den.
  destruct (at_slash_some _ _ _ E) as [Hs Ha].
  assert (Hs' : s = unchars a ++ "/" ++ unchars b).
  { rewrite <- (unchars_chars s), Hs. clear.
    induction a as [|c a IH]; simpl; [reflexivity | now rewrite IH]. }
  rewrite Hs'. apply split_rate; [|exact Hb].
  unfold Spec.slash_free. now rewrite chars_unchars.
Qed.

Lemma split_not_rational (s : string) :
  Spec.rational s = None -> List.length (split "/" s) <> 2%nat.
Proof.
  unfold Spec.rational, split. intros H.
  destruct (Spec.at_slash (chars s)) as [[a b]|] eqn:E.
  - destruct (Spec.slash_free (unchars b)) eqn:Hb; [discriminate|].
    destruct (at_slash_some _ _ _ E) as [Hs Ha]. rewrite Hs.
    rewrite (split_on_first _ _ _ _ Ha). cbn [List.length].
    unfold Spec.slash_free in Hb. rewrite chars_unchars in Hb.
    pose proof (split_on_two "/"%char b "" Hb). lia.
  - rewrite (split_on_free _ _ _ (at_slash_none _ E)). simpl. lia.
Qed.

Lemma or_else_given (x : option string) (d : string) :
  or_else x d = match Spec.given x with Some s => s | None => d end.
Proof.
  unfold or_else, Spec.given. destruct x as [s|]; [|reflexivity].
  destruct (String.eqb s ""); reflexivity.
Qed.

(** The timebase the loop stores for a stream is the array of the one
    the specification names. *)
Lemma own_timebase_written (s : Stream) (tb : Spec.timebase) :
  Spec.stream_timebase s = Some tb -> Closed.own_timebase s = Spec.as_array tb.
Proof.
  unfold Spec.stream_timebase, Closed.own_timebase, split_tb.
  rewrite or_else_given.
  destruct (Spec.given (time_base s)) as [t|].
  - destruct (Spec.rational t) as [[num den]|] eqn:E; [|discriminate].
    intros H. inversion H. subst tb. now rewrite (split_rational _ _ _ E).
  - intros H. inversion H. subst tb. reflexivity.
Qed.

Lemma motion_timebase_named (s : Stream) (tb : Spec.timebase) :
  Spec.motion s = Some tb -> motion_timebase s = Spec.as_array tb.
Proof.
  unfold Spec.motion, Spec.frame_rate, motion_timebase.
  rewrite !or_else_given.
  assert (Hfall : Spec.stream_timebase s = Some tb ->
                  split_tb (match Spec.given (time_base s) with
                            | Some t => t
                            | None => "1/25"
                            end) = Spec.as_array tb).
  { intros H. pose proof (own_timebase_written s tb H) as Ho.
    unfold Closed.own_timebase in Ho. now rewrite or_else_given in Ho. }
  assert (Hrate : forall r,
             match Spec.rational r with
             | Some (num, den) => Some (Spec.Inverted num den)
             | None => Spec.stream_timebase s
             end = Some tb ->
             (if (List.length (split "/" r) =? 2)%nat
              then [VNum (string_to_number (nth 1 (split "/" r) ""));
                    VNum (string_to_number (nth 0 (split "/" r) ""))]
              else split_tb (match Spec.given (time_base s) with
                             | Some t => t
                             | None => "1/25"
                             end)) = Spec.as_array tb).
  { intros r H. destruct (Spec.rational r) as [[num den]|] eqn:E.
    - inversion H. subst tb. now rewrite (split_rational _ _ _ E).
    - apply split_not_rational, Nat.eqb_neq in E. rewrite E. exact (Hfall H). }
  destruct (Spec.given (avg_frame_rate s)) as [r|]; [exact (Hrate r)|].
  destruct (Spec.given (r_frame_rate s)) as [r|]; [exact (Hrate r)|].
  intros H. change (List.length (split "/" "") =? 2)%nat with false. cbv iota.
  exact (Hfall H).
Qed.

(** C3: the loop of [generateCinf] classifies a stream list as the
    specification words it: MOVIE with the timebase of the first video
    stream whose codec time-base is not [0/1] (its average frame rate,
    else its real frame rate, written [a/b] and inverted to [b/a]; else
    its own time-base, else 1/25); else STILL with [0,1] when a still was
    seen and there is no audio stream; else AUDIO with the first audio
    stream's time-base (1/25 without one), or [0,1] without an audio
    stream. This holds wherever the time-bases involved are rationals, in
    particular when every stream's is; a 25/1 video stream with an audio
    stream is a MOVIE at 1/25. *)
Theorem infer_classification (ss : list Stream) :
  (forall k tb,
      Spec.classification ss = Some (k, tb) ->
      infer ss = (Spec.token k, Spec.as_array tb))
  /\ (Spec.rational_timebases ss -> Spec.classification ss <> None)
  /\ Spec.classification [Samples.video_25; Samples.audio_48k]
     = Some (Spec.MOVIE, Spec.Inverted "25" "1")
  /\ infer [Samples.video_25; Samples.audio_48k]
     = (" MOVIE ", [VNum (of_Z 1); VNum (of_Z 25)]).
Proof.
  split; [|split; [|split; reflexivity]].
  - intros k tb. unfold infer, Spec.classification, choose.
    destruct (fold_visit ss no_timebases) as (Hv & Ha & Hs).
    rewrite Hv, Ha, Hs. cbn [videoTb audioTb stillTb no_timebases].
    destruct (find Spec.is_motion ss) as [v|]; cbn [option_map].
    + destruct (Spec.motion v) as [tb'|] eqn:E; [|discriminate].
      intros H. inversion H. subst k tb'. now rewrite (motion_timebase_named v tb E).
    + destruct (find Spec.is_audio ss) as [a|] eqn:Ea; cbn [option_map].
      * assert (Hex : existsb Spec.is_audio ss = true).
        { apply existsb_exists. exists a. apply find_some in Ea. exact Ea. }
        rewrite Hex, andb_false_r.
        destruct (Spec.stream_timebase a) as [tb'|] eqn:E; [|discriminate].
        intros H. inversion H. subst k tb'.
        rewrite (own_timebase_written a tb E).
        destruct (existsb Spec.is_still ss); reflexivity.
      * assert (Hex : existsb Spec.is_audio ss = false).
        { destruct (existsb Spec.is_audio ss) eqn:E; [|reflexivity].
          apply existsb_exists in E. destruct E as (x & Hin & Hx).
          pose proof (find_none _ _ Ea x Hin) as Hn. congruence. }
        rewrite Hex, andb_true_r.
        destruct (existsb Spec.is_still ss); intros H; inversion H; reflexivity.
  - intros Hrat. unfold Spec.classification.
    destruct (find Spec.is_motion ss) as [v|] eqn:Ev.
    + apply find_some in Ev. destruct Ev as [Hin _].
      pose proof (Hrat v Hin) as Hv. unfold Spec.motion.
      destruct (Spec.frame_rate v) as [r|].
      * destruct (Spec.rational r) as [[num den]|]; [discriminate|].
        destruct (Spec.stream_timebase v); [discriminate | contradiction].
      * destruct (Spec.stream_timebase v); [discriminate | contradiction].
    + destruct (existsb Spec.is_still ss && negb (existsb Spec.is_audio ss));
        [discriminate|].
      destruct (find Spec.is_audio ss) as [a|] eqn:Ea; [|discriminate].
      apply find_some in Ea. destruct Ea as [Hin _].
      pose proof (Hrat a Hin) as Hv.
      destruct (Spec.stream_timebase a); [discriminate | contradiction].
Qed.

Lemma infer_classification_witness :
  infer [Samples.still_image; Samples.audio_48k]
  = (" AUDIO ", [VStr "1"; VStr "48000"]).
Proof.
  apply (proj1 (infer_classification [Samples.still_image; Samples.audio_48k])
           Spec.AUDIO (Spec.Written "1" "48000")).
  reflexivity.
Defined.

(** *** Duration in frames *)




(** *** The field-order pattern *)























Lemma SFltb_asym (a b : spec_float) : SFltb a b = true -> SFltb b a = false.
Proof.
  unfold SFltb, SFcompare.
  destruct a as [sa|sa| |sa ma ea], b as [sb|sb| |sb mb eb];
    try destruct sa; try destruct sb; simpl; try discriminate; try reflexivity.
  all: rewrite (Z.compare_antisym ea eb); destruct (ea ?= eb); simpl;
    try discriminate; try reflexivity.
  all: change (Pos.compare_cont Eq mb ma) with (Pos.compare mb ma);
    change (Pos.compare_cont Eq ma mb) with (Pos.compare ma mb);
    rewrite (Pos.compare_antisym ma mb); destruct (ma ?= mb)%positive; simpl;
    try discriminate; reflexivity.
Qed.

(** [a < b] excludes [b < a] on numbers. *)
Lemma ltb_asym (a b : number) : (a <? b)%float = true -> (b <? a)%float = false.
Proof. rewrite !ltb_spec. apply SFltb_asym. Qed.



(** *** Scanning one file *)

Lemma after_nil (w : World) : after w [] = w.
Proof. destruct w. unfold after. simpl. now rewrite app_nil_r. Qed.

(** [scanFile] up to the point where the probes start. *)
Lemma scanFile_run (cfg : Config) (rt : Runtime) (ext : Externals)
    (path id : string) (st : Stats) (w : World) :
  id <> "" -> isDirectory st = false ->
  scanFile cfg rt ext path id st w
  = if Spec.collides (Spec.fetched id w) path
    then (inr tt, after w [DbGet id; LogInfo "Skipped"])
    else if Spec.unchanged st (Spec.fetched id w)
    then (inr tt, after w [DbGet id])
    else
      (d' <- with_doc (set_media path (size st) (mtime st) (Spec.fetched id w))
               (probes cfg rt ext) ;;
       db_put rt d' ;;
       emit (LogInfo "Scanned")) (after w [DbGet id]).
Proof.
  intros Hid Hdir. unfold scanFile.
  apply String.eqb_neq in Hid. rewrite Hid, Hdir.
  change (false || false) with false. cbv beta iota.
  unfold Spec.fetched, Spec.collides, Spec.unchanged, try_catch, db_get, emit, modify,
    bind, ret, after.
  cbn [catalog trace].
  destruct (lookup id (catalog w)) as [d|].
  - destruct (negb (String.eqb (mediaPath d) "") && negb (String.eqb (mediaPath d) path)).
    + cbn [catalog trace]. now rewrite <- app_assoc.
    + destruct ((mediaSize d =? size st) && (mediaTime d =? mtime st)); reflexivity.
  - destruct (negb (String.eqb (mediaPath (placeholder id)) "")
              && negb (String.eqb (mediaPath (placeholder id)) path)).
    + cbn [catalog trace]. now rewrite <- app_assoc.
    + destruct ((mediaSize (placeholder id) =? size st)
                && (mediaTime (placeholder id) =? mtime st)); reflexivity.
Qed.

(** Before the fetch: an empty id or a directory ends the scan. *)
Lemma scanFile_ignored (cfg : Config) (rt : Runtime) (ext : Externals)
    (path id : string) (st : Stats) (w : World) :
  id = "" \/ isDirectory st = true ->
  scanFile cfg rt ext path id st w = (inr tt, w).
Proof.
  intros [-> | Hdir]; unfold scanFile; [reflexivity|].
  rewrite Hdir, orb_true_r. reflexivity.
Qed.

Lemma id_cases (id : string) (st : Stats) :
  (id = "" \/ isDirectory st = true) \/ (id <> "" /\ isDirectory st = false).
Proof.
  destruct (String.eqb_spec id ""); [tauto|].
  destruct (isDirectory st); tauto.
Qed.

Lemma same_media_refl (d : MediaDocument) : Spec.same_media d d.
Proof. unfold Spec.same_media. tauto. Qed.

Lemma same_media_trans (a b c : MediaDocument) :
  Spec.same_media a b -> Spec.same_media b c -> Spec.same_media a c.
Proof. unfold Spec.same_media. intuition congruence. Qed.

Ltac fields :=
  cbn [_id _rev mediaPath mediaSize mediaTime thumbSize thumbTime cinf tinf mediainfo
       _attachments set_thumb set_attachments set_cinf set_mediainfo set_media set_rev
       doc issued catalog trace].

Ltac agree :=
  unfold Spec.same_media, Spec.same_info, Spec.same_thumb, Spec.thumb_updated;
  fields; repeat split; reflexivity.

(** [generateThumb] issues its one tool run and touches the thumbnail
    fields only; when the run goes through, all four are assigned. *)
Lemma generateThumb_frame (cfg : Config) (rt : Runtime) (ext : Externals) (s : Scan) :
  exists r d',
    generateThumb cfg rt ext s
    = (r, {| doc := d'; issued := issued s ++ [RunThumbnail (mediaPath (doc s))] |})
    /\ Spec.same_media (doc s) d' /\ Spec.same_info (doc s) d'
    /\ (forall st png, thumbnail ext = ThumbDone st png ->
        r = inr tt /\ Spec.thumb_updated cfg rt st png d')
    /\ (forall msg, r <> inl (Uncaught msg)).
Proof.
  unfold generateThumb, bind, the_doc, issue, update, modify, throw, ret.
  fields.
  destruct (thumbnail ext) as [|st|st png|st png]; fields;
    eexists; eexists; (split; [reflexivity|]);
    (split; [agree | split; [agree | split; [|discriminate]]]);
    intros st' png' H; try discriminate H.
  inversion H. subst st' png'. split; [reflexivity | agree].
Qed.

(** [generateInfo] issues the probe (and possibly the idet pass) and
    touches [cinf] and [mediainfo] only; a failed probe leaves the
    document as it was, a probe with streams assigns [cinf]. *)
Lemma generateInfo_frame (cfg : Config) (rt : Runtime) (ext : Externals) (s : Scan) :
  exists r d' rest,
    generateInfo cfg rt ext s
    = (r, {| doc := d'; issued := issued s ++ RunFfprobe (mediaPath (doc s)) :: rest |})
    /\ Spec.same_media (doc s) d' /\ Spec.same_thumb (doc s) d'
    /\ (Spec.info_fails ext -> d' = doc s)
    /\ (forall json, ffprobe ext = ProbeOutput json -> streams json <> [] ->
        cinf d' = Some (generateCinf cfg rt (doc s) json))
    /\ (ffprobe ext <> ProbeUnparsable -> forall msg, r <> inl (Uncaught msg)).
Proof.
  unfold generateInfo, generateMediainfo, detectFieldOrder, bind, the_doc, issue, update,
    modify, throw, ret.
  fields.
  destruct (ffprobe ext) as [|json|] eqn:Eprobe;
    [| | exists (inl (Uncaught "JSON.parse")), (doc s), []; split; [reflexivity|];
         split; [agree | split; [agree | split; [reflexivity | split; [discriminate|]]]];
         intros H; now contradiction H].
  - exists (inl (Error "ffprobe")), (doc s), []. split; [reflexivity|].
    split; [agree | split; [agree | split; [reflexivity | split; discriminate]]].
  - destruct (streams json) as [|x xs] eqn:Estreams.
    + exists (inl (Error "not media")), (doc s), []. split; [reflexivity|].
      split; [agree | split; [agree | split; [reflexivity | split; [|discriminate]]]].
      intros j Hj Hne. inversion Hj. subst j. now rewrite Estreams in Hne.
    + assert (Hfail : ~ Spec.info_fails ext).
      { intros [H | (j & Hj & Hs)]; [congruence|].
        rewrite Eprobe in Hj. inversion Hj. subst j. now rewrite Estreams in Hs. }
      assert (Hcinf : forall (c : string) (d' : MediaDocument),
                 cinf d' = Some c ->
                 c = generateCinf cfg rt (doc s) json ->
                 (Spec.info_fails ext -> d' = doc s)
                 /\ (forall j, ProbeOutput json = ProbeOutput j -> streams j <> [] ->
                     cinf d' = Some (generateCinf cfg rt (doc s) j))).
      { intros c d' Hc ->. split; [intros H; exfalso; exact (Hfail H)|].
        intros j Hj _. inversion Hj. subst j. exact Hc. }
      destruct (metadata cfg) as [md|]; fields.
      * destruct (fieldOrder md); cbn [negb]; fields.
        -- destruct (idet ext); fields;
             eexists; eexists; eexists;
             (split; [rewrite <- app_assoc; reflexivity|]);
             (split; [agree | split; [agree |]]);
             (apply and_assoc; split; [|discriminate]);
             eapply Hcinf; fields; reflexivity.
        -- eexists; eexists; exists []; (split; [reflexivity|]).
           split; [agree | split; [agree |]].
           apply and_assoc; split; [|discriminate].
           eapply Hcinf; fields; reflexivity.
      * eexists; eexists; exists []; (split; [reflexivity|]).
        split; [agree | split; [agree |]].
        apply and_assoc; split; [|discriminate].
        eapply Hcinf; fields; reflexivity.
Qed.

(** Either side of [Promise.all] with its [.catch]: it does not reject
    (the info side provided the probe's output is one its callback can
    read). *)
Lemma caught_thumb (cfg : Config) (rt : Runtime) (ext : Externals) (s : Scan) :
  exists d' es,
    try_catch (generateThumb cfg rt ext)
      (fun e => issue (LogError e "Thumbnail Failed")) s
    = (inr tt, {| doc := d'; issued := issued s ++ RunThumbnail (mediaPath (doc s)) :: es |})
    /\ Spec.same_media (doc s) d' /\ Spec.same_info (doc s) d'
    /\ (forall st png, thumbnail ext = ThumbDone st png ->
        Spec.thumb_updated cfg rt st png d').
Proof.
  destruct (generateThumb_frame cfg rt ext s) as (r & d' & Hrun & Hm & Hi & Hdone & Hdies).
  unfold try_catch. rewrite Hrun.
  destruct r as [[msg|msg]|[]]; [| exfalso; exact (Hdies msg eq_refl) |].
  - exists d', [LogError (Error msg) "Thumbnail Failed"].
    unfold issue, modify. fields. rewrite <- app_assoc.
    split; [reflexivity|]. split; [exact Hm|]. split; [exact Hi|].
    intros st png H. exact (proj2 (Hdone st png H)).
  - exists d', []. split; [reflexivity|]. split; [exact Hm|]. split; [exact Hi|].
    intros st png H. exact (proj2 (Hdone st png H)).
Qed.

Lemma caught_info (cfg : Config) (rt : Runtime) (ext : Externals) (s : Scan) :
  ffprobe ext <> ProbeUnparsable ->
  exists d' es,
    try_catch (generateInfo cfg rt ext)
      (fun e => issue (LogError e "Info Failed")) s
    = (inr tt, {| doc := d'; issued := issued s ++ RunFfprobe (mediaPath (doc s)) :: es |})
    /\ Spec.same_media (doc s) d' /\ Spec.same_thumb (doc s) d'
    /\ (Spec.info_fails ext -> d' = doc s)
    /\ (forall json, ffprobe ext = ProbeOutput json -> streams json <> [] ->
        cinf d' = Some (generateCinf cfg rt (doc s) json)).
Proof.
  intros Hparse.
  destruct (generateInfo_frame cfg rt ext s)
    as (r & d' & rest & Hrun & Hm & Ht & Hfail & Hok & Hdies).
  unfold try_catch. rewrite Hrun.
  destruct r as [[msg|msg]|[]]; [| exfalso; exact (Hdies Hparse msg eq_refl) |].
  - exists d', (rest ++ [LogError (Error msg) "Info Failed"])%list.
    unfold issue, modify. fields. rewrite <- app_assoc.
    split; [reflexivity | tauto].
  - exists d', rest. split; [reflexivity | tauto].
Qed.

(** The joined probes: both tools are run, the promise resolves, the stat
    fields and the store's keys are untouched; a failed info probe leaves
    [cinf] and [mediainfo] alone, a completed thumbnail run fills the four
    thumbnail fields, and a probe with streams fills [cinf]. *)
Lemma probes_run (cfg : Config) (rt : Runtime) (ext : Externals) (s : Scan) :
  ffprobe ext <> ProbeUnparsable ->
  exists d' es,
    probes cfg rt ext s = (inr tt, {| doc := d'; issued := issued s ++ es |})
    /\ In (RunFfprobe (mediaPath (doc s))) es
    /\ In (RunThumbnail (mediaPath (doc s))) es
    /\ Spec.same_media (doc s) d'
    /\ (Spec.info_fails ext -> Spec.same_info (doc s) d')
    /\ (forall st png, thumbnail ext = ThumbDone st png ->
        Spec.thumb_updated cfg rt st png d')
    /\ (forall json, ffprobe ext = ProbeOutput json -> streams json <> [] ->
        exists seen, Spec.same_media (doc s) seen
                     /\ cinf d' = Some (generateCinf cfg rt seen json)).
Proof.
  intros Hparse. unfold probes. destruct (thumb_first ext).
  - destruct (caught_thumb cfg rt ext s) as (d1 & es1 & Hrun1 & Hm1 & Hi1 & Hdone).
    unfold bind at 1. rewrite Hrun1.
    match goal with |- context [try_catch (generateInfo _ _ _) _ ?s1] =>
      destruct (caught_info cfg rt ext s1 Hparse)
        as (d2 & es2 & Hrun2 & Hm2 & Ht2 & Hfail & Hok)
    end.
    rewrite Hrun2. fields.
    assert (Hp : mediaPath d1 = mediaPath (doc s)) by apply Hm1.
    rewrite Hp. rewrite <- app_assoc.
    eexists; eexists; split; [reflexivity|].
    split; [apply in_or_app; right; now left|].
    split; [now left|].
    split; [exact (same_media_trans _ _ _ Hm1 Hm2)|].
    split; [intros H; rewrite (Hfail H); exact Hi1|].
    split.
    + intros st png H. specialize (Hdone st png H).
      unfold Spec.thumb_updated, Spec.same_thumb, Spec.same_media in *.
      cbn [doc issued] in *. intuition congruence.
    + intros json Hj Hs. exists d1. split; [exact Hm1 | exact (Hok json Hj Hs)].
  - destruct (caught_info cfg rt ext s Hparse)
      as (d1 & es1 & Hrun1 & Hm1 & Ht1 & Hfail & Hok).
    unfold bind at 1. rewrite Hrun1.
    match goal with |- context [try_catch (generateThumb _ _ _) _ ?s1] =>
      destruct (caught_thumb cfg rt ext s1) as (d2 & es2 & Hrun2 & Hm2 & Hi2 & Hdone)
    end.
    rewrite Hrun2. fields.
    assert (Hp : mediaPath d1 = mediaPath (doc s)) by apply Hm1.
    rewrite Hp. rewrite <- app_assoc.
    eexists; eexists; split; [reflexivity|].
    split; [now left|].
    split; [apply in_or_app; right; now left|].
    split; [exact (same_media_trans _ _ _ Hm1 Hm2)|].
    split; [intros H; rewrite <- (Hfail H); exact Hi2|].
    split; [exact Hdone|].
    intros json Hj Hs. exists (doc s). split; [apply same_media_refl|].
    destruct Hi2 as [Hc _]. rewrite Hc. exact (Hok json Hj Hs).
Qed.

(** The store. *)

Lemma lookup_id (id : string) (cat : list MediaDocument) (d : MediaDocument) :
  lookup id cat = Some d -> _id d = id.
Proof.
  unfold lookup. intros H. apply find_some in H.
  now apply String.eqb_eq.
Qed.

Lemma fetched_id (id : string) (w : World) : _id (Spec.fetched id w) = id.
Proof.
  unfold Spec.fetched. destruct (lookup id (catalog w)) eqn:E; [|reflexivity].
  exact (lookup_id _ _ _ E).
Qed.

Lemma lookup_replace (id : string) (cat : list MediaDocument) (old x : MediaDocument) :
  lookup id cat = Some old -> _id x = id ->
  lookup id (replace_doc x cat) = Some x.
Proof.
  intros Hold <-. unfold lookup, replace_doc in *.
  induction cat as [|y cat IH]; [discriminate|].
  simpl in *.
  destruct (String.eqb (_id y) (_id x)) eqn:E.
  - now rewrite String.eqb_refl.
  - rewrite E. exact (IH Hold).
Qed.

Lemma lookup_insert (id : string) (cat : list MediaDocument) (x : MediaDocument) :
  lookup id cat = None -> _id x = id ->
  lookup id (insert_doc x cat) = Some x.
Proof.
  intros Hnone <-. unfold lookup in *.
  induction cat as [|y cat IH]; simpl in *.
  - now rewrite String.eqb_refl.
  - destruct (String.eqb (_id y) (_id x)) eqn:E; [discriminate|].
    destruct (id_ltb (_id x) (_id y)); simpl.
    + now rewrite String.eqb_refl.
    + rewrite E. exact (IH Hnone).
Qed.

(** A write with the revision that was fetched goes through. *)
Lemma db_put_fetched (rt : Runtime) (id : string) (w : World) (es : list Effect)
    (d' : MediaDocument) :
  _id d' = id -> _rev d' = _rev (Spec.fetched id w) ->
  exists cat',
    db_put rt d' (after w es)
    = (inr tt, {| catalog := cat'; trace := trace w ++ es ++ [DbPut d'] |})
    /\ lookup id cat' = Some (set_rev (next_rev rt (_rev d')) d').
Proof.
  intros Hid Hrev.
  unfold db_put, bind, emit, modify, after. fields. rewrite Hid.
  unfold Spec.fetched in Hrev.
  destruct (lookup id (catalog w)) as [old|] eqn:E.
  - rewrite Hrev, String.eqb_refl. eexists. rewrite <- app_assoc.
    split; [reflexivity|].
    apply (lookup_replace id _ old); [exact E | exact Hid].
  - rewrite Hrev. cbn [placeholder _rev]. rewrite String.eqb_refl.
    eexists. rewrite <- app_assoc. split; [reflexivity|].
    apply lookup_insert; [exact E | exact Hid].
Qed.

(** A scan that gets past both guards: the probes run and the document
    is written and on file afterwards. *)
Lemma scanFile_full (cfg : Config) (rt : Runtime) (ext : Externals)
    (path id : string) (st : Stats) (w : World) :
  id <> "" -> isDirectory st = false ->
  Spec.collides (Spec.fetched id w) path = false ->
  Spec.unchanged st (Spec.fetched id w) = false ->
  ffprobe ext <> ProbeUnparsable ->
  exists d' es cat',
    scanFile cfg rt ext path id st w
    = (inr tt, {| catalog := cat';
                  trace := trace w ++ DbGet id :: es ++ [DbPut d'; LogInfo "Scanned"] |})
    /\ lookup id cat' = Some (set_rev (next_rev rt (_rev d')) d')
    /\ In (RunFfprobe path) es /\ In (RunThumbnail path) es
    /\ Spec.same_media (set_media path (size st) (mtime st) (Spec.fetched id w)) d'
    /\ (Spec.info_fails ext -> Spec.same_info (Spec.fetched id w) d')
    /\ (forall tst png, thumbnail ext = ThumbDone tst png ->
        Spec.thumb_updated cfg rt tst png d')
    /\ (forall json, ffprobe ext = ProbeOutput json -> streams json <> [] ->
        exists seen,
          Spec.same_media (set_media path (size st) (mtime st) (Spec.fetched id w)) seen
          /\ cinf d' = Some (generateCinf cfg rt seen json)).
Proof.
  intros Hid Hdir Hcol Hsame Hparse.
  rewrite (scanFile_run cfg rt ext path id st w Hid Hdir), Hcol, Hsame.
  set (d0 := set_media path (size st) (mtime st) (Spec.fetched id w)).
  destruct (probes_run cfg rt ext {| doc := d0; issued := [] |} Hparse)
    as (d' & es & Hrun & Hprobe & Hthumb & Hm & Hinfo & Hdone & Hok).
  cbn [doc issued app] in *.
  assert (Hid' : _id d' = id).
  { destruct Hm as (H & _). rewrite H. unfold d0. fields. apply fetched_id. }
  assert (Hrev' : _rev d' = _rev (Spec.fetched id w)).
  { destruct Hm as (_ & H & _). rewrite H. reflexivity. }
  destruct (db_put_fetched rt id w (DbGet id :: es) d' Hid' Hrev') as (cat' & Hput & Hlook).
  exists d', es, cat'.
  split.
  - unfold bind at 1. unfold with_doc. rewrite Hrun. fields.
    unfold bind at 1. unfold after in Hput. cbn [catalog trace] in Hput.
    unfold after. cbn [catalog trace].
    replace ((trace w ++ [DbGet id]) ++ es)%list with (trace w ++ DbGet id :: es)%list
      by (rewrite <- app_assoc; reflexivity).
    rewrite Hput. unfold emit, modify, bind. fields.
    repeat rewrite <- app_assoc. reflexivity.
  - split; [exact Hlook|]. split; [exact Hprobe|]. split; [exact Hthumb|].
    split; [exact Hm|]. split; [|split; [exact Hdone | exact Hok]].
    intros H. specialize (Hinfo H). unfold Spec.same_info in *. unfold d0 in Hinfo.
    cbn [cinf mediainfo set_media] in Hinfo. exact Hinfo.
Qed.

Lemma onEvent_scan (cfg : Config) (rt : Runtime) (ev : Event) (st : Stats) (w w' : World) :
  ev_stat ev = Some st ->
  scanFile cfg rt (ev_ext ev) (ev_path ev) (getId rt (paths_media cfg) (ev_path ev)) st w
  = (inr tt, w') ->
  onEvent cfg rt ev w = (inr tt, w').
Proof.
  intros Hst Hscan. unfold onEvent, try_catch, handle. now rewrite Hst, Hscan.
Qed.

(** C4: a scan whose fetched entry carries the event's size and mtime
    writes nothing to the catalog, invokes no probe and leaves the catalog
    as it was. Nothing else stands between a re-scan and the work: when
    either value differs (for a non-empty id, a non-directory and no id
    collision) both probes are run and, the probe's output being one its
    callback can read, the entry is written. *)
Theorem scan_unchanged_is_noop (cfg : Config) (rt : Runtime) (ext : Externals)
    (path id : string) (st : Stats) (w : World) :
  let d := Spec.fetched id w in
  (mediaSize d = size st -> mediaTime d = mtime st ->
   exists es, scanFile cfg rt ext path id st w = (inr tt, after w es)
              /\ Spec.quiet es = true)
  /\ (id <> "" -> isDirectory st = false -> Spec.collides d path = false ->
      mediaSize d <> size st \/ mediaTime d <> mtime st ->
      ffprobe ext <> ProbeUnparsable ->
      exists d' w', scanFile cfg rt ext path id st w = (inr tt, w')
                    /\ In (RunFfprobe path) (trace w')
                    /\ In (RunThumbnail path) (trace w')
                    /\ In (DbPut d') (trace w')).
Proof.
  cbv zeta. split.
  - intros Hsize Htime.
    destruct (id_cases id st) as [Hign | [Hid Hdir]].
    + exists []. rewrite (scanFile_ignored _ _ _ _ _ _ _ Hign), after_nil. now split.
    + rewrite (scanFile_run cfg rt ext path id st w Hid Hdir).
      destruct (Spec.collides (Spec.fetched id w) path).
      * eexists. split; reflexivity.
      * unfold Spec.unchanged. rewrite Hsize, Htime, !Z.eqb_refl.
        eexists. split; reflexivity.
  - intros Hid Hdir Hcol Hdiff Hparse.
    assert (Hsame : Spec.unchanged st (Spec.fetched id w) = false).
    { unfold Spec.unchanged. apply andb_false_iff.
      destruct Hdiff as [H | H]; [left | right]; now apply Z.eqb_neq. }
    destruct (scanFile_full cfg rt ext path id st w Hid Hdir Hcol Hsame Hparse)
      as (d' & es & cat' & Hrun & _ & Hprobe & Hthumb & _).
    exists d'. eexists. split; [exact Hrun|]. cbn [trace].
    split; [apply in_or_app; right; right; apply in_or_app; now left|].
    split; [apply in_or_app; right; right; apply in_or_app; now left|].
    apply in_or_app; right; right; apply in_or_app; right; now left.
Qed.

Lemma scan_unchanged_is_noop_witness :
  exists es,
    scanFile Samples.media_cfg Samples.utc Samples.info_down "/media/clip.mov" "CLIP"
      (Samples.file_stat 1000 86400000) Samples.clip_world
    = (inr tt, after Samples.clip_world es)
    /\ Spec.quiet es = true.
Proof.
  exact (proj1 (scan_unchanged_is_noop Samples.media_cfg Samples.utc Samples.info_down
                  "/media/clip.mov" "CLIP" (Samples.file_stat 1000 86400000)
                  Samples.clip_world) eq_refl eq_refl).
Defined.

(** C5: an added or changed file whose fetched entry stores another,
    non-empty path is skipped: the handler runs no probe, writes nothing
    and leaves the catalog, hence the entry and its [mediaPath], as they
    were; past the id and directory checks it logs the skip. *)
Theorem collision_skips_event (cfg : Config) (rt : Runtime) (ev : Event) (st : Stats)
    (w : World) :
  ev_stat ev = Some st ->
  let id := getId rt (paths_media cfg) (ev_path ev) in
  let d := Spec.fetched id w in
  mediaPath d <> "" -> mediaPath d <> ev_path ev ->
  exists es,
    onEvent cfg rt ev w = (inr tt, after w es)
    /\ Spec.quiet es = true
    /\ lookup id (catalog (after w es)) = lookup id (catalog w)
    /\ (id <> "" -> isDirectory st = false -> es = [DbGet id; LogInfo "Skipped"]).
Proof.
  cbv zeta. intros Hst Hne Hother.
  set (id := getId rt (paths_media cfg) (ev_path ev)) in *.
  assert (Hcol : Spec.collides (Spec.fetched id w) (ev_path ev) = true).
  { unfold Spec.collides. apply andb_true_iff.
    split; apply negb_true_iff; now apply String.eqb_neq. }
  destruct (id_cases id st) as [Hign | [Hid Hdir]].
  - exists []. split; [|split; [reflexivity | split; [reflexivity|]]].
    + apply (onEvent_scan cfg rt ev st w _ Hst). fold id.
      rewrite (scanFile_ignored _ _ _ _ _ _ _ Hign). now rewrite after_nil.
    + intros H1 H2. destruct Hign; congruence.
  - exists [DbGet id; LogInfo "Skipped"].
    split; [|split; [reflexivity | split; [reflexivity | reflexivity]]].
    apply (onEvent_scan cfg rt ev st w _ Hst). fold id.
    now rewrite (scanFile_run _ _ _ _ _ _ _ Hid Hdir), Hcol.
Qed.

Lemma collision_skips_event_witness :
  exists es,
    onEvent Samples.media_cfg Samples.utc Samples.clip_rival Samples.clip_world
    = (inr tt, after Samples.clip_world es)
    /\ Spec.quiet es = true
    /\ lookup "CLIP" (catalog (after Samples.clip_world es)) = Some Samples.clip_doc
    /\ ("CLIP" <> "" -> false = false -> es = [DbGet "CLIP"; LogInfo "Skipped"]).
Proof.
  apply (collision_skips_event Samples.media_cfg Samples.utc Samples.clip_rival
           (Samples.file_stat 7000 90000000) Samples.clip_world eq_refl);
    discriminate.
Defined.

(** *** The event pipeline *)








(** *** The sweep *)

Lemma id_ltb_lt (a b : string) : id_ltb a b = true <-> OrdersEx.String_as_OT.lt a b.
Proof.
  unfold id_ltb, OrdersEx.String_as_OT.lt.
  destruct (OrdersEx.String_as_OT.compare a b); split; congruence.
Qed.

Lemma id_ltb_irrefl (a : string) : id_ltb a a = false.
Proof.
  destruct (id_ltb a a) eqn:E; [|reflexivity].
  apply id_ltb_lt in E. exfalso.
  exact (RelationClasses.StrictOrder_Irreflexive a E).
Qed.

Lemma id_ltb_trans (a b c : string) :
  id_ltb a b = true -> id_ltb b c = true -> id_ltb a c = true.
Proof.
  rewrite !id_ltb_lt. apply RelationClasses.StrictOrder_Transitive.
Qed.

Lemma id_ltb_asym (a b : string) : id_ltb a b = true -> id_ltb b a = false.
Proof.
  intros H. destruct (id_ltb b a) eqn:E; [|reflexivity].
  pose proof (id_ltb_trans _ _ _ H E) as Haa. now rewrite id_ltb_irrefl in Haa.
Qed.

Lemma id_lt_neq (x y : MediaDocument) : Spec.id_lt x y -> String.eqb (_id x) (_id y) = false.
Proof.
  unfold Spec.id_lt. intros H. apply String.eqb_neq. intros E.
  rewrite E, id_ltb_irrefl in H. discriminate.
Qed.

Lemma ordered_app_inv (X Y : list MediaDocument) :
  Spec.ordered (X ++ Y) ->
  Spec.ordered X /\ Spec.ordered Y
  /\ (forall x y, In x X -> In y Y -> Spec.id_lt x y).
Proof.
  unfold Spec.ordered. induction X as [|a X IH]; simpl; intros H.
  - split; [constructor | split; [exact H | intros x y []]].
  - apply StronglySorted_inv in H. destruct H as [Hs Hall].
    destruct (IH Hs) as (HX & HY & Hlt).
    rewrite Forall_app in Hall. destruct Hall as [HaX HaY].
    split; [constructor; assumption | split; [exact HY|]].
    intros x y [<- | Hx] Hy.
    + rewrite Forall_forall in HaY. exact (HaY y Hy).
    + exact (Hlt x y Hx Hy).
Qed.

Lemma ordered_filter (p : MediaDocument -> bool) (l : list MediaDocument) :
  Spec.ordered l -> Spec.ordered (filter p l).
Proof.
  unfold Spec.ordered. induction l as [|a l IH]; simpl; intros H; [constructor|].
  apply StronglySorted_inv in H. destruct H as [Hs Hall].
  destruct (p a); [|exact (IH Hs)].
  constructor; [exact (IH Hs)|].
  rewrite Forall_forall in *. intros x Hx. apply Hall.
  apply filter_In in Hx. tauto.
Qed.

(** An ordered catalog holds an id once. *)
Lemma ordered_unique (l : list MediaDocument) (x y : MediaDocument) :
  Spec.ordered l -> In x l -> In y l -> _id x = _id y -> x = y.
Proof.
  unfold Spec.ordered. induction l as [|a l IH]; simpl; intros H Hx Hy Hid; [contradiction|].
  apply StronglySorted_inv in H. destruct H as [Hs Hall].
  rewrite Forall_forall in Hall.
  destruct Hx as [<- | Hx], Hy as [<- | Hy]; [reflexivity | | |exact (IH Hs Hx Hy Hid)].
  - pose proof (id_lt_neq _ _ (Hall y Hy)) as Hn. rewrite Hid, String.eqb_refl in Hn.
    discriminate.
  - pose proof (id_lt_neq _ _ (Hall x Hx)) as Hn. rewrite Hid, String.eqb_refl in Hn.
    discriminate.
Qed.

Lemma condemned_iff (cfg : Config) (rt : Runtime) (fs : FileSystem)
    (rows : list MediaDocument) (d : MediaDocument) :
  In d (condemned cfg rt fs rows) <-> In d rows /\ kept cfg rt fs d = false.
Proof.
  unfold condemned, kept. rewrite in_app_iff, !filter_In.
  destruct (in_folder cfg rt d), (regular fs d); simpl; intuition discriminate.
Qed.

(** On an ordered catalog a tombstone hits the row it was made from and
    no other entry. *)
Lemma listed_condemned (cfg : Config) (rt : Runtime) (fs : FileSystem)
    (cat rows : list MediaDocument) (d : MediaDocument) :
  Spec.ordered cat -> incl rows cat -> In d cat ->
  listed (map tombstone (condemned cfg rt fs rows)) d
  = existsb (fun x => String.eqb (_id x) (_id d)) rows && negb (kept cfg rt fs d).
Proof.
  intros Hord Hincl Hd. unfold listed.
  apply eq_true_iff_eq. rewrite andb_true_iff, negb_true_iff, !existsb_exists.
  split.
  - intros (t & Ht & Hsame). apply in_map_iff in Ht. destruct Ht as (x & <- & Hx).
    cbn [tombstone fst snd] in Hsame.
    apply andb_prop in Hsame. destruct Hsame as [Hid _].
    apply condemned_iff in Hx. destruct Hx as [Hrow Hkept].
    apply String.eqb_eq in Hid.
    assert (x = d) by (apply (ordered_unique cat); auto). subst x.
    split; [|exact Hkept]. exists d. split; [exact Hrow | apply String.eqb_refl].
  - intros [(x & Hrow & Hid) Hkept]. apply String.eqb_eq in Hid.
    assert (x = d) by (apply (ordered_unique cat); auto). subst x.
    exists (tombstone d). split; [apply in_map; apply condemned_iff; tauto|].
    cbn [tombstone fst snd]. now rewrite !String.eqb_refl.
Qed.

Lemma filter_none {A} (p : A -> bool) (l : list A) :
  (forall x, In x l -> p x = false) -> filter p l = [].
Proof.
  induction l as [|a l IH]; simpl; intros H; [reflexivity|].
  rewrite (H a (or_introl eq_refl)). apply IH. intros x Hx. apply H. now right.
Qed.

Lemma filter_all {A} (p : A -> bool) (l : list A) :
  (forall x, In x l -> p x = true) -> filter p l = l.
Proof.
  intros H. apply forallb_filter_id. now apply forallb_forall.
Qed.

(** Applying a page's tombstones to an ordered catalog removes the rows
    of the page that are not kept, and nothing else. *)
Lemma purge_page (cfg : Config) (rt : Runtime) (fs : FileSystem)
    (A page rest : list MediaDocument) :
  Spec.ordered (A ++ page ++ rest) ->
  Spec.purged cfg rt fs page (A ++ page ++ rest)
  = (A ++ filter (kept cfg rt fs) page ++ rest)%list.
Proof.
  intros Hord. unfold Spec.purged.
  assert (Hincl : incl page (A ++ page ++ rest)).
  { intros x Hx. apply in_or_app. right. apply in_or_app. now left. }
  rewrite (filter_ext_in _
             (fun d => negb (existsb (fun x => String.eqb (_id x) (_id d)) page
                             && negb (kept cfg rt fs d))));
    [|intros d Hd; now rewrite (listed_condemned cfg rt fs _ page d Hord Hincl Hd)].
  destruct (ordered_app_inv _ _ Hord) as (_ & Hpr & HA).
  destruct (ordered_app_inv _ _ Hpr) as (_ & _ & HR).
  rewrite !filter_app. f_equal; [|f_equal].
  - apply filter_all. intros x Hx.
    assert (E : existsb (fun y => String.eqb (_id y) (_id x)) page = false).
    { destruct (existsb _ page) eqn:E; [|reflexivity].
      apply existsb_exists in E. destruct E as (y & Hy & Hid).
      assert (Hlt : Spec.id_lt x y) by (apply HA; [exact Hx | apply in_or_app; now left]).
      apply id_lt_neq in Hlt. rewrite String.eqb_sym in Hlt. congruence. }
    now rewrite E.
  - apply filter_ext_in. intros x Hx.
    assert (E : existsb (fun y => String.eqb (_id y) (_id x)) page = true).
    { apply existsb_exists. exists x. split; [exact Hx | apply String.eqb_refl]. }
    rewrite E. simpl. apply negb_involutive.
  - apply filter_all. intros x Hx.
    assert (E : existsb (fun y => String.eqb (_id y) (_id x)) page = false).
    { destruct (existsb _ page) eqn:E; [|reflexivity].
      apply existsb_exists in E. destruct E as (y & Hy & Hid).
      pose proof (id_lt_neq _ _ (HR y x Hy Hx)). congruence. }
    now rewrite E.
Qed.

(** One turn of the loop. *)
Lemma sweep_turn (fuel : nat) (cfg : Config) (rt : Runtime) (fs : FileSystem)
    (lim : nat) (k : option string) (w : World) :
  sweep (S fuel) cfg rt fs lim k w
  = let rows := Spec.page_at k lim (catalog w) in
    if (List.length rows <? lim)%nat
    then (inr true, Spec.turned cfg rt fs k rows w)
    else sweep fuel cfg rt fs lim (Some (_id (last rows (placeholder ""))))
           (Spec.turned cfg rt fs k rows w).
Proof.
  cbv zeta. cbn [sweep].
  unfold bind at 1. unfold db_allDocs. fold (Spec.page_at k lim (catalog w)).
  unfold bind at 1. unfold sweep_page, db_bulkDocs, bind, emit, modify. fields.
  unfold Spec.turned, Spec.purged, ret.
  replace ((((trace w ++ [DbAllDocs k (Spec.page_at k lim (catalog w))])
             ++ stat_calls cfg rt (Spec.page_at k lim (catalog w)))
            ++ [DbBulkDocs (map tombstone
                              (condemned cfg rt fs (Spec.page_at k lim (catalog w))))])%list)
    with (trace w ++ DbAllDocs k (Spec.page_at k lim (catalog w))
            :: stat_calls cfg rt (Spec.page_at k lim (catalog w))
            ++ [DbBulkDocs (map tombstone
                              (condemned cfg rt fs (Spec.page_at k lim (catalog w))))])%list
    by (rewrite <- !app_assoc; reflexivity).
  destruct (List.length (Spec.page_at k lim (catalog w)) <? lim)%nat; reflexivity.
Qed.

(** The listing of an ordered catalog split at the start key. *)
Lemma page_at_split (k : option string) (lim : nat) (A B : list MediaDocument) :
  (forall x, In x A -> at_or_after k x = false) ->
  (forall x, In x B -> at_or_after k x = true) ->
  Spec.page_at k lim (A ++ B) = firstn lim B.
Proof.
  intros HA HB. unfold Spec.page_at.
  now rewrite filter_app, (filter_none _ _ HA), (filter_all _ _ HB).
Qed.

Lemma filter_filter_one {A} (p : A -> bool) (a : A) :
  filter p (filter p [a]) = filter p [a].
Proof. simpl. destruct (p a) eqn:E; simpl; [now rewrite E | reflexivity]. Qed.

(** The loop from a start key that splits the ordered catalog into the
    part below it and the part still to visit: it leaves through [break]
    and what remains of the part to visit is what the rows' callbacks
    keep. *)
Lemma sweep_from (cfg : Config) (rt : Runtime) (fs : FileSystem) (lim : nat) :
  (2 <= lim)%nat ->
  forall fuel A B k w,
    catalog w = (A ++ B)%list -> Spec.ordered (A ++ B) ->
    (forall x, In x A -> at_or_after k x = false) ->
    (forall x, In x B -> at_or_after k x = true) ->
    (List.length B < fuel)%nat ->
    exists tr,
      sweep fuel cfg rt fs lim k w
      = (inr true, {| catalog := A ++ filter (kept cfg rt fs) B; trace := tr |}).
Proof.
  intros Hlim. induction fuel as [|fuel IH]; intros A B k w Hcat Hord HA HB Hfuel; [lia|].
  rewrite sweep_turn. cbv zeta. rewrite Hcat, (page_at_split k lim A B HA HB).
  pose proof (firstn_skipn lim B) as Hsplit.
  pose proof (length_firstn lim B) as Hlen.
  destruct (List.length (firstn lim B) <? lim)%nat eqn:Elen.
  - apply Nat.ltb_lt in Elen.
    assert (Hall : firstn lim B = B) by (apply firstn_all2; lia).
    rewrite Hall. unfold Spec.turned. rewrite Hcat.
    pose proof (purge_page cfg rt fs A B []) as Hp.
    rewrite !app_nil_r in Hp. rewrite (Hp Hord). eexists. reflexivity.
  - apply Nat.ltb_ge in Elen.
    set (page := firstn lim B) in *. set (rest := skipn lim B) in *.
    assert (Hne : page <> []).
    { intros E. rewrite E in Elen. simpl in Elen. lia. }
    pose proof (app_removelast_last (placeholder "") Hne) as Hlast.
    set (l := last page (placeholder "")) in *.
    set (page' := removelast page) in *.
    assert (HB' : B = (page' ++ [l] ++ rest)%list).
    { rewrite <- Hsplit, Hlast, <- app_assoc. reflexivity. }
    assert (Hord' : Spec.ordered ((A ++ page') ++ l :: rest)).
    { rewrite <- app_assoc. rewrite HB' in Hord. exact Hord. }
    destruct (ordered_app_inv _ _ Hord') as (_ & Hlrest & Hbelow).
    assert (Habove : forall x, In x rest -> Spec.id_lt l x).
    { destruct (ordered_app_inv [l] rest Hlrest) as (_ & _ & H).
      intros x Hx. apply H; [now left | exact Hx]. }
    assert (Hturn : catalog (Spec.turned cfg rt fs k page w)
                    = ((A ++ filter (kept cfg rt fs) page')
                       ++ filter (kept cfg rt fs) [l] ++ rest)%list).
    { unfold Spec.turned. cbn [catalog]. rewrite Hcat.
      rewrite <- Hsplit in Hord |- *. fold page rest in Hord |- *.
      rewrite (purge_page cfg rt fs A page rest Hord).
      rewrite Hlast at 1. rewrite filter_app, <- !app_assoc. reflexivity. }
    destruct (IH (A ++ filter (kept cfg rt fs) page')%list
                (filter (kept cfg rt fs) [l] ++ rest)%list
                (Some (_id l)) (Spec.turned cfg rt fs k page w) Hturn)
      as (tr & Hrun).
    + rewrite <- Hturn. unfold Spec.turned, Spec.purged. cbn [catalog].
      apply ordered_filter. rewrite Hcat. exact Hord.
    + intros x Hx. cbn [at_or_after]. apply negb_false_iff.
      apply (Hbelow x l); [|now left].
      apply in_app_or in Hx. apply in_or_app.
      destruct Hx as [Hx | Hx]; [now left | right].
      apply filter_In in Hx. tauto.
    + intros x Hx. cbn [at_or_after]. apply negb_true_iff.
      apply in_app_or in Hx. destruct Hx as [Hx | Hx].
      * apply filter_In in Hx. destruct Hx as [[<- | []] _]. apply id_ltb_irrefl.
      * apply id_ltb_asym. exact (Habove x Hx).
    + rewrite length_app.
      assert (List.length (filter (kept cfg rt fs) [l]) <= 1)%nat
        by (simpl; destruct (kept cfg rt fs l); simpl; lia).
      assert (List.length rest = (List.length B - lim)%nat) by (unfold rest; apply length_skipn).
      lia.
    + exists tr. rewrite Hrun. f_equal. f_equal.
      rewrite HB', !filter_app, filter_filter_one, <- !app_assoc. reflexivity.
Qed.

Lemma ascending_ordered (cat : list MediaDocument) :
  Spec.ascending cat = true -> Spec.ordered cat.
Proof.
  intros H. apply Sorted_StronglySorted.
  - intros x y z. unfold Spec.id_lt. apply id_ltb_trans.
  - induction cat as [|a [|b rest] IH]; [constructor | repeat constructor |].
    cbn [Spec.ascending] in H. apply andb_prop in H. destruct H as [Hab Hrest].
    constructor; [exact (IH Hrest) | constructor; exact Hab].
Qed.


(** An ordered catalog splits at any start key. *)
Lemma ordered_split (k : option string) (cat : list MediaDocument) :
  Spec.ordered cat ->
  exists A B,
    cat = (A ++ B)%list
    /\ (forall x, In x A -> at_or_after k x = false)
    /\ (forall x, In x B -> at_or_after k x = true).
Proof.
  unfold Spec.ordered. induction cat as [|a cat IH]; intros Hord.
  - exists [], []. repeat split; intros x [].
  - apply StronglySorted_inv in Hord. destruct Hord as [Hs Hall].
    rewrite Forall_forall in Hall.
    destruct (at_or_after k a) eqn:Ea.
    + exists [], (a :: cat). split; [reflexivity | split; [intros x [] |]].
      intros x [<- | Hx]; [exact Ea|].
      destruct k as [key|]; [|reflexivity]. cbn [at_or_after] in *.
      apply negb_true_iff in Ea. apply negb_true_iff.
      destruct (id_ltb (_id x) key) eqn:Ex; [|reflexivity].
      rewrite (id_ltb_trans _ _ _ (Hall x Hx) Ex) in Ea. discriminate.
    + destruct (IH Hs) as (A & B & -> & HA & HB).
      exists (a :: A), B. split; [reflexivity | split; [|exact HB]].
      intros x [<- | Hx]; [exact Ea | exact (HA x Hx)].
Qed.

(** After a full page the next listing starts at the page's last row if
    that row was kept, and right behind it otherwise. *)
Lemma next_page (cfg : Config) (rt : Runtime) (fs : FileSystem) (lim : nat)
    (k : option string) (w : World) :
  (1 <= lim)%nat -> Spec.ordered (catalog w) ->
  List.length (Spec.page_at k lim (catalog w)) = lim ->
  exists rest,
    Forall (Spec.id_lt (last (Spec.page_at k lim (catalog w)) (placeholder ""))) rest
    /\ Spec.page_at
         (Some (_id (last (Spec.page_at k lim (catalog w)) (placeholder "")))) lim
         (catalog (Spec.turned cfg rt fs k (Spec.page_at k lim (catalog w)) w))
       = firstn lim
           (filter (kept cfg rt fs)
              [last (Spec.page_at k lim (catalog w)) (placeholder "")] ++ rest).
Proof.
  intros Hlim Hord Hfull.
  destruct (ordered_split k (catalog w) Hord) as (A & B & Hcat & HA & HB).
  rewrite Hcat in *. rewrite (page_at_split k lim A B HA HB) in *.
  pose proof (firstn_skipn lim B) as Hsplit.
  set (page := firstn lim B) in *. set (rest := skipn lim B) in *.
  assert (Hne : page <> []).
  { intros E. rewrite E in Hfull. simpl in Hfull. lia. }
  pose proof (app_removelast_last (placeholder "") Hne) as Hlast.
  set (l := last page (placeholder "")) in *.
  set (page' := removelast page) in *.
  assert (Hord' : Spec.ordered ((A ++ page') ++ l :: rest)).
  { rewrite <- app_assoc. rewrite <- Hsplit, Hlast, <- app_assoc in Hord. exact Hord. }
  destruct (ordered_app_inv _ _ Hord') as (_ & Hlrest & Hbelow).
  destruct (ordered_app_inv [l] rest Hlrest) as (_ & _ & Habove).
  exists rest. split.
  { apply Forall_forall. intros x Hx. apply Habove; [now left | exact Hx]. }
  unfold Spec.turned. cbn [catalog]. rewrite Hcat.
  rewrite <- Hsplit in Hord |- *. fold page rest in Hord |- *.
  rewrite (purge_page cfg rt fs A page rest Hord).
  rewrite Hlast at 1. rewrite filter_app, <- app_assoc.
  replace (A ++ filter (kept cfg rt fs) page' ++ filter (kept cfg rt fs) [l] ++ rest)%list
    with ((A ++ filter (kept cfg rt fs) page') ++ filter (kept cfg rt fs) [l] ++ rest)%list
    by (rewrite <- app_assoc; reflexivity).
  apply page_at_split.
  - intros x Hx. cbn [at_or_after]. apply negb_false_iff.
    apply (Hbelow x l); [|now left].
    apply in_app_or in Hx. apply in_or_app.
    destruct Hx as [Hx | Hx]; [now left | right].
    apply filter_In in Hx. tauto.
  - intros x Hx. cbn [at_or_after]. apply negb_true_iff.
    apply in_app_or in Hx. destruct Hx as [Hx | Hx].
    + apply filter_In in Hx. destruct Hx as [[<- | []] _]. apply id_ltb_irrefl.
    + apply id_ltb_asym. apply (Habove l x); [now left | exact Hx].
Qed.

Lemma firstn_subset {A} (n : nat) (l : list A) (x : A) :
  In x (firstn n l) -> In x l.
Proof.
  revert l. induction n as [|n IH]; intros [|a l] H; simpl in *; try contradiction.
  destruct H as [-> | H]; [now left | right; exact (IH l H)].
Qed.

(** C10, as stated, fails: in a catalog of 257 entries whose 256th file
    is gone, the first page is full and ends with that entry, the batch
    deletes it, and the second page starts behind it: the entry is
    fetched and statted once. *)
Lemma deleted_last_row_is_not_fetched_again :
  List.length (catalog Samples.big_world) = 257%nat
  /\ map (@List.length MediaDocument)
       (Spec.pages_of
          (trace (snd (cleanDeleted Samples.media_cfg Samples.utc Samples.one_missing
                         Samples.big_world))))
     = [256%nat; 1%nat]
  /\ _id (last (hd [] (Spec.pages_of
                         (trace (snd (cleanDeleted Samples.media_cfg Samples.utc
                                        Samples.one_missing Samples.big_world)))))
            (placeholder ""))
     = "E255"
  /\ Spec.fetches "E255"
       (trace (snd (cleanDeleted Samples.media_cfg Samples.utc Samples.one_missing
                      Samples.big_world)))
     = 1%nat
  /\ Spec.stats "/media/e255.mov"
       (trace (snd (cleanDeleted Samples.media_cfg Samples.utc Samples.one_missing
                      Samples.big_world)))
     = 1%nat.
Proof. repeat split; vm_compute; reflexivity. Qed.

(** C10 (amended): when a page of the sweep is full, the cursor becomes
    the id of its last row and the next listing starts at that key
    inclusively. A last row that survived the page's batched delete is
    therefore the first row of the following page and is statted again
    there; a last row the batch deleted is not listed again. *)
Theorem sweep_cursor_is_inclusive (cfg : Config) (rt : Runtime) (fs : FileSystem)
    (fuel : nat) (k : option string) (w : World) :
  Spec.ordered (catalog w) ->
  let rows := Spec.page_at k limit (catalog w) in
  let l := last rows (placeholder "") in
  let w1 := Spec.turned cfg rt fs k rows w in
  let next := Spec.page_at (Some (_id l)) limit (catalog w1) in
  List.length rows = limit ->
  sweep (S fuel) cfg rt fs limit k w = sweep fuel cfg rt fs limit (Some (_id l)) w1
  /\ (kept cfg rt fs l = true ->
      hd_error next = Some l /\ In (StatFile (mediaPath l)) (stat_calls cfg rt next))
  /\ (kept cfg rt fs l = false -> Spec.has_id (_id l) next = false).
Proof.
  cbv zeta. intros Hord Hfull.
  destruct (next_page cfg rt fs limit k w ltac:(unfold limit; lia) Hord Hfull)
    as (rest & Hrest & Hnext).
  rewrite Hnext. clear Hnext.
  set (l := last (Spec.page_at k limit (catalog w)) (placeholder "")) in *.
  split; [|split].
  - rewrite sweep_turn. cbv zeta. rewrite Hfull, Nat.ltb_irrefl. reflexivity.
  - intros Hkept. cbn [filter]. rewrite Hkept.
    change (firstn limit ([l] ++ rest)) with (l :: firstn 255 rest).
    split; [reflexivity|].
    unfold stat_calls. cbn [filter]. unfold kept in Hkept.
    apply andb_prop in Hkept. destruct Hkept as [Hin _]. rewrite Hin. now left.
  - intros Hkept. cbn [filter]. rewrite Hkept. cbn [app].
    unfold Spec.has_id. destruct (existsb _ (firstn limit rest)) eqn:E; [|reflexivity].
    apply existsb_exists in E. destruct E as (x & Hx & Hid).
    apply firstn_subset in Hx. rewrite Forall_forall in Hrest.
    pose proof (id_lt_neq _ _ (Hrest x Hx)) as Hn.
    rewrite String.eqb_sym in Hn. congruence.
Qed.

Lemma sweep_cursor_is_inclusive_witness :
  hd_error
    (Spec.page_at (Some (_id Samples.last_row)) limit
       (catalog (Spec.turned Samples.media_cfg Samples.utc Samples.all_present None
                   Samples.first_page Samples.big_world)))
  = Some Samples.last_row.
Proof.
  assert (Hord : Spec.ordered (catalog Samples.big_world))
    by (apply ascending_ordered; vm_compute; reflexivity).
  assert (Hfull : List.length (Spec.page_at None limit (catalog Samples.big_world)) = limit)
    by (vm_compute; reflexivity).
  assert (Hkept : kept Samples.media_cfg Samples.utc Samples.all_present Samples.last_row
                  = true)
    by (vm_compute; reflexivity).
  exact (proj1 (proj1 (proj2 (sweep_cursor_is_inclusive Samples.media_cfg Samples.utc
                                Samples.all_present 1 None Samples.big_world Hord Hfull))
                  Hkept)).
Defined.

(** *** The catalog stays ordered

    The order by id that the sweep relies on is an invariant of the
    store: every write, removal and batched delete keeps it. *)

Lemma id_ltb_total (a b : string) : id_ltb a b = false -> a <> b -> id_ltb b a = true.
Proof.
  intros Hab Hne. apply id_ltb_lt.
  destruct (OrdersEx.String_as_OT.compare_spec a b) as [E | L | G].
  - contradiction.
  - apply id_ltb_lt in L. congruence.
  - exact G.
Qed.

Lemma ordered_map_same_id (f : MediaDocument -> MediaDocument) (l : list MediaDocument) :
  (forall y, _id (f y) = _id y) -> Spec.ordered l -> Spec.ordered (map f l).
Proof.
  intros Hf. unfold Spec.ordered. induction l as [|a l IH]; simpl; intros H; [constructor|].
  apply StronglySorted_inv in H. destruct H as [Hs Hall].
  constructor; [exact (IH Hs)|].
  rewrite Forall_forall in *. intros y Hy. apply in_map_iff in Hy.
  destruct Hy as (z & <- & Hz). unfold Spec.id_lt. rewrite !Hf. exact (Hall z Hz).
Qed.

Lemma replace_ordered (x : MediaDocument) (cat : list MediaDocument) :
  Spec.ordered cat -> Spec.ordered (replace_doc x cat).
Proof.
  apply ordered_map_same_id. intros y.
  destruct (String.eqb_spec (_id y) (_id x)); [now symmetry | reflexivity].
Qed.

Lemma insert_members (x z : MediaDocument) (cat : list MediaDocument) :
  In z (insert_doc x cat) -> z = x \/ In z cat.
Proof.
  induction cat as [|y cat IH]; simpl.
  - intros [<- | []]. now left.
  - destruct (id_ltb (_id x) (_id y)); simpl.
    + intros [<- | H]; [now left | now right].
    + intros [<- | H]; [right; now left|].
      destruct (IH H); [now left | right; now right].
Qed.

Lemma insert_ordered (x : MediaDocument) (cat : list MediaDocument) :
  lookup (_id x) cat = None -> Spec.ordered cat -> Spec.ordered (insert_doc x cat).
Proof.
  unfold Spec.ordered, lookup.
  induction cat as [|y cat IH]; simpl; intros Hnone H.
  - repeat constructor.
  - apply StronglySorted_inv in H. destruct H as [Hs Hall].
    destruct (String.eqb (_id y) (_id x)) eqn:Eid; [discriminate|].
    destruct (id_ltb (_id x) (_id y)) eqn:Elt.
    + constructor; [constructor; assumption|].
      constructor; [exact Elt|].
      rewrite Forall_forall in *. intros z Hz.
      exact (id_ltb_trans _ _ _ Elt (Hall z Hz)).
    + constructor; [exact (IH Hnone Hs)|].
      rewrite Forall_forall in *. intros z Hz.
      destruct (insert_members _ _ _ Hz) as [-> | Hin]; [|exact (Hall z Hin)].
      apply id_ltb_total; [exact Elt|].
      intros E. rewrite E, String.eqb_refl in Eid. discriminate.
Qed.

(** Whatever an event does to the catalog, the catalog stays ordered. *)
Lemma db_put_ordered (rt : Runtime) (d : MediaDocument) (w : World) :
  Spec.ordered (catalog w) -> Spec.ordered (catalog (snd (db_put rt d w))).
Proof.
  intros Hord. unfold db_put, bind, emit, modify. fields.
  destruct (lookup (_id d) (catalog w)) as [old|] eqn:E.
  - destruct (String.eqb (_rev old) (_rev d)); cbn [snd catalog]; [|exact Hord].
    now apply replace_ordered.
  - destruct (String.eqb (_rev d) rev_new); cbn [snd catalog]; [|exact Hord].
    apply insert_ordered; [exact E | exact Hord].
Qed.

Lemma db_remove_ordered (d : MediaDocument) (w : World) :
  Spec.ordered (catalog w) -> Spec.ordered (catalog (snd (db_remove d w))).
Proof.
  intros Hord. unfold db_remove, bind, emit, modify. fields.
  destruct (lookup (_id d) (catalog w)) as [old|]; [|exact Hord].
  destruct (String.eqb (_rev old) (_rev d)); cbn [snd catalog]; [|exact Hord].
  now apply ordered_filter.
Qed.

Lemma with_doc_catalog (d : MediaDocument) (p : Prog Scan unit) (w : World) :
  catalog (snd (with_doc d p w)) = catalog w.
Proof.
  unfold with_doc. destruct (p _) as [[e|[]] s]; reflexivity.
Qed.

Lemma scanFile_ordered (cfg : Config) (rt : Runtime) (ext : Externals)
    (path id : string) (st : Stats) (w : World) :
  Spec.ordered (catalog w) ->
  Spec.ordered (catalog (snd (scanFile cfg rt ext path id st w))).
Proof.
  intros Hord.
  destruct (id_cases id st) as [Hign | [Hid Hdir]].
  - now rewrite (scanFile_ignored _ _ _ _ _ _ _ Hign).
  - rewrite (scanFile_run cfg rt ext path id st w Hid Hdir).
    destruct (Spec.collides _ _); [exact Hord|].
    destruct (Spec.unchanged _ _); [exact Hord|].
    unfold bind at 1.
    pose proof (with_doc_catalog
                  (set_media path (size st) (mtime st) (Spec.fetched id w))
                  (probes cfg rt ext) (after w [DbGet id])) as Hcat.
    destruct (with_doc _ _ _) as [[e|d'] w1]; cbn [snd] in *.
    + rewrite Hcat. exact Hord.
    + unfold bind.
      assert (Hord1 : Spec.ordered (catalog w1)) by (rewrite Hcat; exact Hord).
      pose proof (db_put_ordered rt d' w1 Hord1) as Hput.
      destruct (db_put rt d' w1) as [[e|[]] w2]; cbn [snd] in *; [exact Hput|].
      unfold emit, modify. exact Hput.
Qed.

Lemma onEvent_ordered (cfg : Config) (rt : Runtime) (ev : Event) (w : World) :
  Spec.ordered (catalog w) -> Spec.ordered (catalog (snd (onEvent cfg rt ev w))).
Proof.
  intros Hord. unfold onEvent, try_catch, handle.
  destruct (ev_stat ev) as [st|].
  - pose proof (scanFile_ordered cfg rt (ev_ext ev) (ev_path ev)
                  (getId rt (paths_media cfg) (ev_path ev)) st w Hord) as H.
    destruct (scanFile _ _ _ _ _ _ _) as [[[msg|msg]|[]] w1]; exact H.
  - unfold bind at 1. unfold db_get, bind, emit, modify. fields.
    destruct (lookup _ (catalog w)) as [d|]; cbn [snd catalog]; [|exact Hord].
    match goal with |- context [db_remove d ?w0] =>
      pose proof (db_remove_ordered d w0 Hord) as H;
      destruct (db_remove d w0) as [[[msg|msg]|[]] w1]; exact H
    end.
Qed.

Lemma pipeline_ordered (cfg : Config) (rt : Runtime) (events : list Event) (w : World) :
  Spec.ordered (catalog w) ->
  Spec.ordered (catalog (snd (pipeline cfg rt events w))).
Proof.
  unfold pipeline. revert w.
  induction events as [|ev rest IH]; intros w Hord; [exact Hord|].
  simpl. unfold bind, callback.
  pose proof (onEvent_ordered cfg (at_time (ev_now ev) rt) ev w Hord) as H.
  destruct (onEvent _ _ ev w) as [[e|[]] w1]; cbn [snd] in *; [exact H|].
  now apply IH.
Qed.

(** *** Worked examples *)

(** The classifications quoted in §8: a still alone is a STILL, sound
    alone is AUDIO at its own time-base, a still with sound is AUDIO. *)
Example infer_still_and_audio :
  infer [Samples.still_image] = (type_STILL, [VNum zero; VNum one])
  /\ infer [Samples.audio_48k] = (type_AUDIO, [VStr "1"; VStr "48000"])
  /\ infer [Samples.still_image; Samples.audio_48k]
     = (type_AUDIO, [VStr "1"; VStr "48000"]).
Proof. repeat split; reflexivity. Qed.

(** A time-base taken from a [time_base] attribute is an array of
    strings: the comparison [tb[0] === 0] does not recognise the string
    ["0"], and the division by it gives [Infinity]. *)
Example frames_of_string_numerator :
  infer [Samples.audio_zero] = (type_AUDIO, [VStr "0"; VStr "1"])
  /\ frame_duration (of_Z 2) [VStr "0"; VStr "1"] = infinity
  /\ frame_duration (of_Z 2) [VNum zero; VNum one] = zero
  /\ frame_duration (of_Z 2) [VStr "1"; VStr "48000"] = of_Z 96000.
Proof. repeat split; reflexivity. Qed.

(** The event after a failing one is handled all the same: the removal
    of an uncatalogued file is logged, then the grown clip is scanned and
    written. *)
Example pipeline_after_failure :
  let w' := snd (pipeline Samples.media_cfg Samples.utc
                   [Samples.ghost_removed; Samples.clip_grown] Samples.clip_world) in
  map Spec.is_write (trace w') = [false; false; false; false; false; false; true; false]
  /\ option_map mediaSize (lookup "CLIP" (catalog w')) = Some 4000.
Proof. cbv zeta. split; vm_compute; reflexivity. Qed.

(** ** Further properties of the scanner *)

(** *** The probes in closed form *)

Lemma caught_thumb_exact (cfg : Config) (rt : Runtime) (ext : Externals) (s : Scan) :
  try_catch (generateThumb cfg rt ext)
    (fun e => issue (LogError e "Thumbnail Failed")) s
  = (inr tt,
     {| doc := Closed.after_thumb cfg rt ext (doc s);
        issued := issued s ++ Closed.thumb_effects ext (mediaPath (doc s)) |}).
Proof.
  unfold try_catch, generateThumb, bind, the_doc, issue, update, modify, throw, ret,
    Closed.after_thumb, Closed.thumb_effects, Closed.thumb_error, Closed.logged.
  fields.
  destruct (thumbnail ext); fields; rewrite <- ?app_assoc; reflexivity.
Qed.

Lemma caught_info_exact (cfg : Config) (rt : Runtime) (ext : Externals) (s : Scan) :
  ffprobe ext <> ProbeUnparsable ->
  try_catch (generateInfo cfg rt ext)
    (fun e => issue (LogError e "Info Failed")) s
  = (inr tt,
     {| doc := Closed.after_info cfg rt ext (doc s);
        issued := issued s ++ Closed.info_effects cfg ext (mediaPath (doc s)) |}).
Proof.
  unfold try_catch, generateInfo, generateMediainfo, detectFieldOrder, bind, the_doc,
    issue, update, modify, throw, ret,
    Closed.after_info, Closed.info_effects, Closed.info_error, Closed.runs_idet,
    Closed.resolved_order, Closed.mediainfo_of, Closed.logged.
  intros Hparse. fields.
  destruct (ffprobe ext) as [|json|]; fields;
    [rewrite <- ?app_assoc; reflexivity | | now contradiction Hparse].
  destruct (streams json) as [|x xs]; fields; [rewrite <- ?app_assoc; reflexivity|].
  destruct (metadata cfg) as [md|]; fields; [|rewrite <- ?app_assoc; reflexivity].
  destruct (fieldOrder md); cbn [negb]; fields.
  - destruct (idet ext); fields; rewrite <- ?app_assoc; reflexivity.
  - rewrite <- ?app_assoc. reflexivity.
Qed.

Lemma after_thumb_media (cfg : Config) (rt : Runtime) (ext : Externals)
    (d : MediaDocument) :
  Spec.same_media d (Closed.after_thumb cfg rt ext d)
  /\ Spec.same_info d (Closed.after_thumb cfg rt ext d).
Proof.
  unfold Closed.after_thumb. destruct (thumbnail ext); split; agree.
Qed.

Lemma after_info_media (cfg : Config) (rt : Runtime) (ext : Externals)
    (d : MediaDocument) :
  Spec.same_media d (Closed.after_info cfg rt ext d)
  /\ Spec.same_thumb d (Closed.after_info cfg rt ext d).
Proof.
  unfold Closed.after_info.
  destruct (ffprobe ext) as [|json|]; [split; agree | | split; agree].
  destruct (streams json); [split; agree|].
  destruct (metadata cfg) as [md|]; [|split; agree].
  destruct (Closed.resolved_order md ext); split; agree.
Qed.

Lemma after_probes_media (cfg : Config) (rt : Runtime) (ext : Externals)
    (d : MediaDocument) :
  Spec.same_media d (Closed.after_probes cfg rt ext d).
Proof.
  unfold Closed.after_probes. destruct (thumb_first ext).
  - exact (same_media_trans _ _ _ (proj1 (after_thumb_media cfg rt ext d))
             (proj1 (after_info_media cfg rt ext _))).
  - exact (same_media_trans _ _ _ (proj1 (after_info_media cfg rt ext d))
             (proj1 (after_thumb_media cfg rt ext _))).
Qed.

(** The joined probes compute the closed form. *)
Lemma probes_exact (cfg : Config) (rt : Runtime) (ext : Externals) (s : Scan) :
  ffprobe ext <> ProbeUnparsable ->
  probes cfg rt ext s
  = (inr tt,
     {| doc := Closed.after_probes cfg rt ext (doc s);
        issued := issued s ++ Closed.probe_effects cfg ext (mediaPath (doc s)) |}).
Proof.
  intros Hparse. unfold probes, Closed.after_probes, Closed.probe_effects.
  destruct (thumb_first ext); unfold bind.
  - rewrite caught_thumb_exact, (caught_info_exact cfg rt ext _ Hparse). fields.
    destruct (after_thumb_media cfg rt ext (doc s)) as [(_ & _ & Hp & _) _].
    now rewrite Hp, <- app_assoc.
  - rewrite (caught_info_exact cfg rt ext _ Hparse), caught_thumb_exact. fields.
    destruct (after_info_media cfg rt ext (doc s)) as [(_ & _ & Hp & _) _].
    now rewrite Hp, <- app_assoc.
Qed.

Lemma lookup_replace_other (id : string) (x : MediaDocument) (cat : list MediaDocument) :
  _id x <> id -> lookup id (replace_doc x cat) = lookup id cat.
Proof.
  intros Hne. unfold lookup, replace_doc.
  induction cat as [|y cat IH]; [reflexivity|]. simpl.
  destruct (String.eqb_spec (_id y) (_id x)) as [E | E].
  - apply String.eqb_neq in Hne. rewrite Hne.
    rewrite E. rewrite Hne. exact IH.
  - destruct (String.eqb (_id y) id); [reflexivity | exact IH].
Qed.

Lemma lookup_insert_other (id : string) (x : MediaDocument) (cat : list MediaDocument) :
  _id x <> id -> lookup id (insert_doc x cat) = lookup id cat.
Proof.
  intros Hne. apply String.eqb_neq in Hne. unfold lookup.
  induction cat as [|y cat IH]; simpl; [now rewrite Hne|].
  destruct (id_ltb (_id x) (_id y)); simpl; [now rewrite Hne|].
  destruct (String.eqb (_id y) id); [reflexivity | exact IH].
Qed.

Lemma lookup_remove_same (id : string) (cat : list MediaDocument) :
  lookup id (remove_doc id cat) = None.
Proof.
  unfold lookup, remove_doc. induction cat as [|y cat IH]; [reflexivity|]. simpl.
  destruct (String.eqb (_id y) id) eqn:E; simpl; [exact IH | now rewrite E].
Qed.

Lemma lookup_remove_other (id id' : string) (cat : list MediaDocument) :
  id' <> id -> lookup id' (remove_doc id cat) = lookup id' cat.
Proof.
  intros Hne. unfold lookup, remove_doc.
  induction cat as [|y cat IH]; [reflexivity|]. simpl.
  destruct (String.eqb_spec (_id y) id) as [E | E]; simpl.
  - rewrite E. apply not_eq_sym in Hne. apply String.eqb_neq in Hne. now rewrite Hne.
  - destruct (String.eqb (_id y) id'); [reflexivity | exact IH].
Qed.

(** The write of a scan: it goes through, the document is on file under
    its id with the next revision, and no other id is affected. *)
Lemma db_put_scanned (rt : Runtime) (id : string) (w : World) (es : list Effect)
    (d' : MediaDocument) :
  _id d' = id -> _rev d' = _rev (Spec.fetched id w) ->
  exists cat',
    db_put rt d' (after w es)
    = (inr tt, {| catalog := cat'; trace := trace w ++ es ++ [DbPut d'] |})
    /\ lookup id cat' = Some (set_rev (next_rev rt (_rev d')) d')
    /\ (forall id', id' <> id -> lookup id' cat' = lookup id' (catalog w)).
Proof.
  intros Hid Hrev.
  unfold db_put, bind, emit, modify, after. fields. rewrite Hid.
  unfold Spec.fetched in Hrev.
  destruct (lookup id (catalog w)) as [old|] eqn:E.
  - rewrite Hrev, String.eqb_refl. eexists. rewrite <- app_assoc.
    split; [reflexivity|]. split.
    + apply (lookup_replace id _ old); [exact E | exact Hid].
    + intros id' Hne. apply lookup_replace_other. fields. congruence.
  - rewrite Hrev. cbn [placeholder _rev]. rewrite String.eqb_refl.
    eexists. rewrite <- app_assoc. split; [reflexivity|]. split.
    + apply lookup_insert; [exact E | exact Hid].
    + intros id' Hne. apply lookup_insert_other. fields. congruence.
Qed.

(** A scan past both guards, in closed form. *)
Lemma scanFile_exact (cfg : Config) (rt : Runtime) (ext : Externals)
    (path id : string) (st : Stats) (w : World) :
  id <> "" -> isDirectory st = false ->
  Spec.collides (Spec.fetched id w) path = false ->
  Spec.unchanged st (Spec.fetched id w) = false ->
  ffprobe ext <> ProbeUnparsable ->
  exists cat',
    scanFile cfg rt ext path id st w
    = (inr tt,
       {| catalog := cat';
          trace := trace w ++ DbGet id :: Closed.probe_effects cfg ext path
                   ++ [DbPut (Closed.scanned cfg rt ext path id st w);
                       LogInfo "Scanned"] |})
    /\ lookup id cat'
       = Some (set_rev (next_rev rt (_rev (Spec.fetched id w)))
                 (Closed.scanned cfg rt ext path id st w))
    /\ (forall id', id' <> id -> lookup id' cat' = lookup id' (catalog w)).
Proof.
  intros Hid Hdir Hcol Hsame Hparse.
  rewrite (scanFile_run cfg rt ext path id st w Hid Hdir), Hcol, Hsame.
  set (d' := Closed.scanned cfg rt ext path id st w).
  pose proof (after_probes_media cfg rt ext
                (set_media path (size st) (mtime st) (Spec.fetched id w))) as Hm.
  fold d' in Hm. unfold Spec.same_media in Hm.
  cbn [_id _rev set_media] in Hm.
  destruct Hm as (Hid' & Hrev' & _).
  rewrite fetched_id in Hid'.
  destruct (db_put_scanned rt id w (DbGet id :: Closed.probe_effects cfg ext path) d'
              Hid' Hrev') as (cat' & Hput & Hlook & Hothers).
  exists cat'. split; [|split; [now rewrite <- Hrev' | exact Hothers]].
  unfold bind at 1. unfold with_doc. rewrite (probes_exact cfg rt ext _ Hparse). fields.
  fold d'. unfold bind at 1.
  unfold after in Hput |- *. cbn [catalog trace app] in Hput |- *.
  replace ((trace w ++ [DbGet id]) ++ Closed.probe_effects cfg ext path)%list
    with (trace w ++ DbGet id :: Closed.probe_effects cfg ext path)%list
    by (rewrite <- app_assoc; reflexivity).
  subst d'. unfold Closed.scanned in *.
  rewrite Hput. unfold emit, modify, bind. fields.
  rewrite <- app_assoc. cbn [app]. rewrite <- app_assoc. reflexivity.
Qed.

(** A scan past both guards whose probe prints what its callback throws
    on: the exception is in no promise, the scan never gets to the write
    and the process ends. *)
Lemma scanFile_dies (cfg : Config) (rt : Runtime) (ext : Externals)
    (path id : string) (st : Stats) (w : World) :
  id <> "" -> isDirectory st = false ->
  Spec.collides (Spec.fetched id w) path = false ->
  Spec.unchanged st (Spec.fetched id w) = false ->
  ffprobe ext = ProbeUnparsable ->
  scanFile cfg rt ext path id st w
  = (inl (Uncaught "JSON.parse"),
     after w (DbGet id
              :: (if thumb_first ext then Closed.thumb_effects ext path else [])
              ++ [RunFfprobe path])).
Proof.
  intros Hid Hdir Hcol Hsame Hdies.
  rewrite (scanFile_run cfg rt ext path id st w Hid Hdir), Hcol, Hsame.
  unfold bind at 1. unfold with_doc, probes.
  destruct (thumb_first ext).
  - unfold bind at 1. rewrite caught_thumb_exact. fields.
    unfold try_catch, generateInfo, bind, the_doc, issue, modify, throw. fields.
    rewrite Hdies. fields.
    destruct (after_thumb_media cfg rt ext
                (set_media path (size st) (mtime st) (Spec.fetched id w)))
      as [(_ & _ & Hp & _) _].
    rewrite Hp. cbn [mediaPath set_media app].
    unfold after. cbn [catalog trace]. rewrite <- !app_assoc. reflexivity.
  - unfold bind at 1.
    unfold try_catch at 1. unfold generateInfo, bind, the_doc, issue, modify, throw. fields.
    rewrite Hdies. fields. cbn [mediaPath set_media app].
    unfold after. cbn [catalog trace]. rewrite <- !app_assoc. reflexivity.
Qed.

Lemma onEvent_dies (cfg : Config) (rt : Runtime) (ev : Event) (st : Stats) (w w' : World)
    (msg : string) :
  ev_stat ev = Some st ->
  scanFile cfg rt (ev_ext ev) (ev_path ev) (getId rt (paths_media cfg) (ev_path ev)) st w
  = (inl (Uncaught msg), w') ->
  onEvent cfg rt ev w = (inl (Uncaught msg), w').
Proof.
  intros Hst Hscan. unfold onEvent, try_catch, handle. now rewrite Hst, Hscan.
Qed.

(** *** Removal events *)

(** The handler on an [unlink] event, by what the lookup finds. *)
Lemma unlink_run (cfg : Config) (rt : Runtime) (ev : Event) (w : World) :
  ev_stat ev = None ->
  onEvent cfg rt ev w
  = match lookup (getId rt (paths_media cfg) (ev_path ev)) (catalog w) with
    | Some d =>
        (inr tt,
         {| catalog := remove_doc (getId rt (paths_media cfg) (ev_path ev)) (catalog w);
            trace := trace w ++ [DbGet (getId rt (paths_media cfg) (ev_path ev));
                                 DbRemove d] |})
    | None =>
        (inr tt,
         after w [DbGet (getId rt (paths_media cfg) (ev_path ev));
                  LogError (Error "missing") ""])
    end.
Proof.
  intros Hst. unfold onEvent, try_catch, handle. rewrite Hst.
  unfold bind at 1. unfold db_get, bind at 1, emit at 1, modify. fields.
  destruct (lookup _ (catalog w)) as [d|] eqn:E.
  - unfold db_remove, bind, emit, modify. fields.
    rewrite (lookup_id _ _ _ E), E, String.eqb_refl. fields.
    now rewrite <- app_assoc.
  - unfold emit, modify, after. fields. now rewrite <- app_assoc.
Qed.

(** X1: an [unlink] event for an id that is on file looks the entry up and
    removes it: afterwards the id is not on file, every other id is as it
    was, and nothing was probed or logged. *)
Theorem unlink_removes_entry (cfg : Config) (rt : Runtime) (ev : Event) (w : World)
    (d : MediaDocument) :
  ev_stat ev = None ->
  lookup (getId rt (paths_media cfg) (ev_path ev)) (catalog w) = Some d ->
  exists cat',
    onEvent cfg rt ev w
    = (inr tt,
       {| catalog := cat';
          trace := trace w ++ [DbGet (getId rt (paths_media cfg) (ev_path ev));
                               DbRemove d] |})
    /\ lookup (getId rt (paths_media cfg) (ev_path ev)) cat' = None
    /\ (forall id', id' <> getId rt (paths_media cfg) (ev_path ev) ->
        lookup id' cat' = lookup id' (catalog w)).
Proof.
  intros Hst Hd. rewrite (unlink_run cfg rt ev w Hst), Hd.
  eexists. split; [reflexivity|]. split.
  - apply lookup_remove_same.
  - intros id' Hne. now apply lookup_remove_other.
Qed.

Lemma unlink_removes_entry_witness :
  exists cat',
    onEvent Samples.media_cfg Samples.utc Samples.clip_removed Samples.clip_world
    = (inr tt, {| catalog := cat'; trace := [DbGet "CLIP"; DbRemove Samples.clip_doc] |})
    /\ lookup "CLIP" cat' = None
    /\ (forall id', id' <> "CLIP" ->
        lookup id' cat' = lookup id' (catalog Samples.clip_world)).
Proof.
  exact (unlink_removes_entry Samples.media_cfg Samples.utc Samples.clip_removed
           Samples.clip_world Samples.clip_doc eq_refl eq_refl).
Defined.

(** X2: an [unlink] event for an id that is not on file changes nothing:
    the failed lookup is caught and logged, [db.remove] is not called and
    the catalog is as it was. *)
Theorem unlink_of_unknown_is_logged (cfg : Config) (rt : Runtime) (ev : Event)
    (w : World) :
  ev_stat ev = None ->
  lookup (getId rt (paths_media cfg) (ev_path ev)) (catalog w) = None ->
  onEvent cfg rt ev w
  = (inr tt,
     after w [DbGet (getId rt (paths_media cfg) (ev_path ev));
              LogError (Error "missing") ""]).
Proof.
  intros Hst Hnone. now rewrite (unlink_run cfg rt ev w Hst), Hnone.
Qed.

Lemma unlink_of_unknown_is_logged_witness :
  onEvent Samples.media_cfg Samples.utc Samples.ghost_removed Samples.clip_world
  = (inr tt, after Samples.clip_world [DbGet "GHOST"; LogError (Error "missing") ""]).
Proof.
  exact (unlink_of_unknown_is_logged Samples.media_cfg Samples.utc Samples.ghost_removed
           Samples.clip_world eq_refl eq_refl).
Defined.

(** *** What an event leaves alone *)

Lemma parses_dec (ext : Externals) :
  ffprobe ext = ProbeUnparsable \/ ffprobe ext <> ProbeUnparsable.
Proof. destruct (ffprobe ext); [right | right | left]; congruence. Qed.

Lemma output_parses (ext : Externals) (json : ProbeJson) :
  ffprobe ext = ProbeOutput json -> ffprobe ext <> ProbeUnparsable.
Proof. congruence. Qed.

Lemma failure_parses (ext : Externals) :
  Spec.info_fails ext -> ffprobe ext <> ProbeUnparsable.
Proof. intros [H | (json & H & _)]; congruence. Qed.

(** The outcome of an added or changed file, by the guard that decides. *)
Lemma scan_cases (cfg : Config) (rt : Runtime) (ev : Event) (st : Stats) (w : World) :
  ev_stat ev = Some st ->
  (exists es, onEvent cfg rt ev w = (inr tt, after w es) /\ Spec.quiet es = true)
  \/ (getId rt (paths_media cfg) (ev_path ev) <> ""
      /\ isDirectory st = false
      /\ Spec.collides (Spec.fetched (getId rt (paths_media cfg) (ev_path ev)) w)
           (ev_path ev) = false
      /\ Spec.unchanged st (Spec.fetched (getId rt (paths_media cfg) (ev_path ev)) w)
         = false).
Proof.
  intros Hst. set (id := getId rt (paths_media cfg) (ev_path ev)).
  destruct (id_cases id st) as [Hign | [Hid Hdir]].
  - left. exists []. split; [|reflexivity].
    apply (onEvent_scan cfg rt ev st w _ Hst). fold id.
    now rewrite (scanFile_ignored _ _ _ _ _ _ _ Hign), after_nil.
  - destruct (Spec.collides (Spec.fetched id w) (ev_path ev)) eqn:Hcol.
    + left. eexists. split.
      { apply (onEvent_scan cfg rt ev st w _ Hst). fold id.
        rewrite (scanFile_run _ _ _ _ _ _ _ Hid Hdir), Hcol. reflexivity. }
      reflexivity.
    + destruct (Spec.unchanged st (Spec.fetched id w)) eqn:Hsame.
      * left. eexists. split.
        { apply (onEvent_scan cfg rt ev st w _ Hst). fold id.
          rewrite (scanFile_run _ _ _ _ _ _ _ Hid Hdir), Hcol, Hsame. reflexivity. }
        reflexivity.
      * right. tauto.
Qed.

(** X3: whatever an event is and however its handling ends, the entries
    under every other id are left as they were. *)
Theorem event_touches_one_id (cfg : Config) (rt : Runtime) (ev : Event) (w : World)
    (id' : string) :
  id' <> getId rt (paths_media cfg) (ev_path ev) ->
  lookup id' (catalog (snd (onEvent cfg rt ev w))) = lookup id' (catalog w).
Proof.
  intros Hne. destruct (ev_stat ev) as [st|] eqn:Hst.
  - destruct (scan_cases cfg rt ev st w Hst)
      as [(es & Hrun & _) | (Hid & Hdir & Hcol & Hsame)].
    + now rewrite Hrun.
    + destruct (parses_dec (ev_ext ev)) as [Hdies | Hparse].
      * now rewrite (onEvent_dies cfg rt ev st w _ _ Hst
                       (scanFile_dies cfg rt (ev_ext ev) (ev_path ev) _ st w
                          Hid Hdir Hcol Hsame Hdies)).
      * destruct (scanFile_exact cfg rt (ev_ext ev) (ev_path ev) _ st w
                    Hid Hdir Hcol Hsame Hparse) as (cat' & Hrun & _ & Hothers).
        rewrite (onEvent_scan cfg rt ev st w _ Hst Hrun). cbn [snd catalog].
        now apply Hothers.
  - rewrite (unlink_run cfg rt ev w Hst).
    destruct (lookup _ (catalog w)); cbn [snd catalog after]; [|reflexivity].
    now apply lookup_remove_other.
Qed.

Lemma event_touches_one_id_witness :
  lookup "OLD"
    (catalog (snd (onEvent Samples.media_cfg Samples.utc Samples.clip_grown
                     Samples.mixed_world)))
  = lookup "OLD" (catalog Samples.mixed_world).
Proof.
  apply (event_touches_one_id Samples.media_cfg Samples.utc Samples.clip_grown
           Samples.mixed_world "OLD").
  discriminate.
Defined.

(** *** Scans that do nothing, and scans that are repeated *)

(** Any of the three guards of [scanFile] ends the handling without a
    probe or a write. *)
Lemma scan_guarded (cfg : Config) (rt : Runtime) (ev : Event) (st : Stats) (w : World) :
  ev_stat ev = Some st ->
  getId rt (paths_media cfg) (ev_path ev) = ""
  \/ isDirectory st = true
  \/ Spec.collides (Spec.fetched (getId rt (paths_media cfg) (ev_path ev)) w) (ev_path ev)
     = true
  \/ Spec.unchanged st (Spec.fetched (getId rt (paths_media cfg) (ev_path ev)) w) = true ->
  exists es, onEvent cfg rt ev w = (inr tt, after w es) /\ Spec.quiet es = true.
Proof.
  intros Hst Hguard. set (id := getId rt (paths_media cfg) (ev_path ev)) in *.
  destruct (id_cases id st) as [Hign | [Hid Hdir]].
  - exists []. split; [|reflexivity].
    apply (onEvent_scan cfg rt ev st w _ Hst). fold id.
    now rewrite (scanFile_ignored _ _ _ _ _ _ _ Hign), after_nil.
  - destruct (Spec.collides (Spec.fetched id w) (ev_path ev)) eqn:Hcol.
    + eexists. split.
      { apply (onEvent_scan cfg rt ev st w _ Hst). fold id.
        rewrite (scanFile_run _ _ _ _ _ _ _ Hid Hdir), Hcol. reflexivity. }
      reflexivity.
    + assert (Hsame : Spec.unchanged st (Spec.fetched id w) = true).
      { destruct Hguard as [H | [H | [H | H]]]; congruence. }
      eexists. split.
      { apply (onEvent_scan cfg rt ev st w _ Hst). fold id.
        rewrite (scanFile_run _ _ _ _ _ _ _ Hid Hdir), Hcol, Hsame. reflexivity. }
      reflexivity.
Qed.

Lemma guard_or_full (id path : string) (st : Stats) (w : World) :
  (id = ""
   \/ isDirectory st = true
   \/ Spec.collides (Spec.fetched id w) path = true
   \/ Spec.unchanged st (Spec.fetched id w) = true)
  \/ (id <> "" /\ isDirectory st = false
      /\ Spec.collides (Spec.fetched id w) path = false
      /\ Spec.unchanged st (Spec.fetched id w) = false).
Proof.
  destruct (String.eqb_spec id ""); [tauto|].
  destruct (isDirectory st); [tauto|].
  destruct (Spec.collides _ _); [tauto|].
  destruct (Spec.unchanged _ _); tauto.
Qed.

Lemma fetched_same_catalog (id : string) (w w' : World) :
  catalog w' = catalog w -> Spec.fetched id w' = Spec.fetched id w.
Proof. unfold Spec.fetched. now intros ->. Qed.

(** X4: handling the same added or changed file (same path, same stat) a
    second time, after a first handling that returned, runs no probe and
    writes nothing, whatever the first handling did, whatever the tools
    would answer now and whenever it happens: the entry the first scan
    wrote carries the event's size and mtime. *)
Theorem rescan_is_noop (cfg : Config) (rt : Runtime) (ev ev' : Event) (st : Stats)
    (w w1 : World) (t : Z) :
  ev_stat ev = Some st -> ev_stat ev' = Some st -> ev_path ev' = ev_path ev ->
  onEvent cfg rt ev w = (inr tt, w1) ->
  exists es,
    onEvent cfg (at_time t rt) ev' w1 = (inr tt, after w1 es)
    /\ Spec.quiet es = true.
Proof.
  intros Hst Hst' Hpath Hfirst.
  apply (scan_guarded cfg (at_time t rt) ev' st _ Hst'). rewrite Hpath.
  cbn [getId at_time].
  set (id := getId rt (paths_media cfg) (ev_path ev)).
  destruct (guard_or_full id (ev_path ev) st w) as [G | (Hid & Hdir & Hcol & Hsame)].
  - destruct (scan_guarded cfg rt ev st w Hst G) as (es & Hrun & _).
    rewrite Hrun in Hfirst. injection Hfirst as <-.
    now rewrite (fetched_same_catalog id w (after w es) eq_refl).
  - destruct (parses_dec (ev_ext ev)) as [Hdies | Hparse].
    { rewrite (onEvent_dies cfg rt ev st w _ _ Hst
                 (scanFile_dies cfg rt (ev_ext ev) (ev_path ev) id st w
                    Hid Hdir Hcol Hsame Hdies)) in Hfirst.
      discriminate. }
    destruct (scanFile_exact cfg rt (ev_ext ev) (ev_path ev) id st w
                Hid Hdir Hcol Hsame Hparse) as (cat' & Hfull & Hlook & _).
    rewrite (onEvent_scan cfg rt ev st w _ Hst Hfull) in Hfirst.
    injection Hfirst as <-.
    right. right. right.
    unfold Spec.fetched. cbn [catalog]. rewrite Hlook.
    pose proof (after_probes_media cfg rt (ev_ext ev)
                  (set_media (ev_path ev) (size st) (mtime st) (Spec.fetched id w)))
      as (_ & _ & _ & Hs & Ht).
    unfold Spec.unchanged, Closed.scanned. cbn [mediaSize mediaTime set_rev set_media] in *.
    now rewrite Hs, Ht, !Z.eqb_refl.
Qed.

Lemma rescan_is_noop_witness :
  exists es,
    onEvent Samples.media_cfg (at_time 1700000000000 Samples.utc)
      Samples.clip_grown_no_thumb
      (snd (onEvent Samples.media_cfg Samples.utc Samples.clip_grown Samples.clip_world))
    = (inr tt,
       after (snd (onEvent Samples.media_cfg Samples.utc Samples.clip_grown
                     Samples.clip_world)) es)
    /\ Spec.quiet es = true.
Proof.
  exact (rescan_is_noop Samples.media_cfg Samples.utc Samples.clip_grown
           Samples.clip_grown_no_thumb (Samples.file_stat 4000 90000000)
           Samples.clip_world _ 1700000000000 eq_refl eq_refl eq_refl eq_refl).
Defined.

(** X5: a file whose id is not on file and whose stat reports size 0 and
    mtime 0 matches the placeholder's fingerprint: it is taken for
    unchanged, nothing is probed or written, and the id stays off the
    catalog. *)
Theorem empty_epoch_file_is_not_catalogued (cfg : Config) (rt : Runtime) (ev : Event)
    (st : Stats) (w : World) :
  ev_stat ev = Some st ->
  lookup (getId rt (paths_media cfg) (ev_path ev)) (catalog w) = None ->
  size st = 0 -> mtime st = 0 ->
  exists es,
    onEvent cfg rt ev w = (inr tt, after w es)
    /\ Spec.quiet es = true
    /\ lookup (getId rt (paths_media cfg) (ev_path ev)) (catalog (after w es)) = None.
Proof.
  intros Hst Hnone Hsize Htime.
  destruct (scan_guarded cfg rt ev st w Hst) as (es & Hrun & Hq).
  - right. right. right. unfold Spec.fetched, Spec.unchanged. rewrite Hnone.
    cbn [placeholder mediaSize mediaTime]. now rewrite Hsize, Htime.
  - exists es. split; [exact Hrun | split; [exact Hq | exact Hnone]].
Qed.

Lemma empty_epoch_file_is_not_catalogued_witness :
  exists es,
    onEvent Samples.media_cfg Samples.utc Samples.empty_added Samples.clip_world
    = (inr tt, after Samples.clip_world es)
    /\ Spec.quiet es = true
    /\ lookup "EMPTY" (catalog (after Samples.clip_world es)) = None.
Proof.
  exact (empty_epoch_file_is_not_catalogued Samples.media_cfg Samples.utc
           Samples.empty_added (Samples.file_stat 0 0) Samples.clip_world
           eq_refl eq_refl eq_refl eq_refl).
Defined.

(** *** What a scan writes when a tool fails *)

(** A scan past the guards, as the handler ends it. *)
Lemma scan_stored (cfg : Config) (rt : Runtime) (ev : Event) (st : Stats) (w : World) :
  ev_stat ev = Some st ->
  getId rt (paths_media cfg) (ev_path ev) <> "" -> isDirectory st = false ->
  Spec.collides (Spec.fetched (getId rt (paths_media cfg) (ev_path ev)) w) (ev_path ev)
  = false ->
  Spec.unchanged st (Spec.fetched (getId rt (paths_media cfg) (ev_path ev)) w) = false ->
  ffprobe (ev_ext ev) <> ProbeUnparsable ->
  exists w',
    onEvent cfg rt ev w = (inr tt, w')
    /\ trace w'
       = (trace w ++ DbGet (getId rt (paths_media cfg) (ev_path ev))
            :: Closed.probe_effects cfg (ev_ext ev) (ev_path ev)
            ++ [DbPut (Closed.scanned cfg rt (ev_ext ev) (ev_path ev)
                         (getId rt (paths_media cfg) (ev_path ev)) st w);
                LogInfo "Scanned"])%list
    /\ lookup (getId rt (paths_media cfg) (ev_path ev)) (catalog w')
       = Some (set_rev
                 (next_rev rt
                    (_rev (Spec.fetched (getId rt (paths_media cfg) (ev_path ev)) w)))
                 (Closed.scanned cfg rt (ev_ext ev) (ev_path ev)
                    (getId rt (paths_media cfg) (ev_path ev)) st w)).
Proof.
  intros Hst Hid Hdir Hcol Hsame Hparse.
  destruct (scanFile_exact cfg rt (ev_ext ev) (ev_path ev) _ st w Hid Hdir Hcol Hsame
              Hparse) as (cat' & Hrun & Hlook & _).
  eexists. split; [exact (onEvent_scan cfg rt ev st w _ Hst Hrun)|].
  split; [reflexivity | exact Hlook].
Qed.

Lemma after_info_fails (cfg : Config) (rt : Runtime) (ext : Externals)
    (d : MediaDocument) :
  Spec.info_fails ext -> Closed.after_info cfg rt ext d = d.
Proof.
  unfold Closed.after_info. intros [H | (json & H & Hs)]; rewrite H; [reflexivity|].
  now rewrite Hs.
Qed.

(** The thumbnail fields after the probes are those the thumbnail side
    gives on its own, in either order of completion. *)
Lemma after_probes_thumb (cfg : Config) (rt : Runtime) (ext : Externals)
    (d : MediaDocument) :
  Spec.same_thumb (Closed.after_thumb cfg rt ext d) (Closed.after_probes cfg rt ext d).
Proof.
  unfold Closed.after_probes. destruct (thumb_first ext).
  - exact (proj2 (after_info_media cfg rt ext _)).
  - destruct (after_info_media cfg rt ext d) as [(_ & _ & Hp & _) (H1 & H2 & H3 & H4)].
    unfold Closed.after_thumb, Spec.same_thumb.
    destruct (thumbnail ext); fields; rewrite ?Hp; repeat split; auto.
Qed.

(** The info fields after the probes are those the info side gives on the
    document it sees: the fetched one, or the one with the new thumbnail
    fields when the thumbnail was statted first. *)
Lemma after_probes_info (cfg : Config) (rt : Runtime) (ext : Externals)
    (d : MediaDocument) :
  Spec.same_info
    (Closed.after_info cfg rt ext
       (if thumb_first ext then Closed.after_thumb cfg rt ext d else d))
    (Closed.after_probes cfg rt ext d).
Proof.
  unfold Closed.after_probes. destruct (thumb_first ext).
  - unfold Spec.same_info. tauto.
  - exact (proj2 (after_thumb_media cfg rt ext _)).
Qed.

Lemma thumb_error_logged (cfg : Config) (ext : Externals) (path : string) (e : Exn) :
  Closed.thumb_error ext = Some e ->
  In (LogError e "Thumbnail Failed") (Closed.probe_effects cfg ext path).
Proof.
  intros H. unfold Closed.probe_effects, Closed.thumb_effects.
  rewrite H. cbn [Closed.logged].
  destruct (thumb_first ext); apply in_or_app; [left | right]; right; now left.
Qed.

Lemma info_error_logged (cfg : Config) (ext : Externals) (path : string) (e : Exn) :
  Closed.info_error cfg ext = Some e ->
  In (LogError e "Info Failed") (Closed.probe_effects cfg ext path).
Proof.
  intros H. unfold Closed.probe_effects, Closed.info_effects.
  rewrite H. cbn [Closed.logged].
  destruct (thumb_first ext); apply in_or_app; [right | left];
    right; apply in_or_app; right; now left.
Qed.

Lemma in_scan_trace (w : World) (id : string) (pe : list Effect) (d : MediaDocument)
    (e : Effect) :
  In e pe -> In e (trace w ++ DbGet id :: pe ++ [DbPut d; LogInfo "Scanned"]).
Proof.
  intros H. apply in_or_app. right. right. apply in_or_app. now left.
Qed.

(** X6: when neither tool gets anywhere (the probe fails or finds no
    streams, the thumbnail run produces no file) the entry is written
    all the same, with the event's path, size and mtime and with every
    other field as it was fetched; both failures are logged. *)
Theorem unprobed_file_is_catalogued (cfg : Config) (rt : Runtime) (ev : Event)
    (st : Stats) (w : World) :
  ev_stat ev = Some st ->
  let id := getId rt (paths_media cfg) (ev_path ev) in
  let f := Spec.fetched id w in
  id <> "" -> isDirectory st = false ->
  Spec.collides f (ev_path ev) = false -> Spec.unchanged st f = false ->
  Spec.info_fails (ev_ext ev) -> thumbnail (ev_ext ev) = ThumbNoFile ->
  exists w' e,
    onEvent cfg rt ev w = (inr tt, w')
    /\ lookup id (catalog w')
       = Some (set_rev (next_rev rt (_rev f))
                 (set_media (ev_path ev) (size st) (mtime st) f))
    /\ In (LogError e "Info Failed") (trace w')
    /\ In (LogError (Error "thumbnail") "Thumbnail Failed") (trace w').
Proof.
  cbv zeta. intros Hst Hid Hdir Hcol Hsame Hinfo Hthumb.
  destruct (scan_stored cfg rt ev st w Hst Hid Hdir Hcol Hsame
              (failure_parses _ Hinfo)) as (w' & Hrun & Htr & Hlook).
  assert (Hdoc : Closed.scanned cfg rt (ev_ext ev) (ev_path ev)
                   (getId rt (paths_media cfg) (ev_path ev)) st w
                 = set_media (ev_path ev) (size st) (mtime st)
                     (Spec.fetched (getId rt (paths_media cfg) (ev_path ev)) w)).
  { unfold Closed.scanned, Closed.after_probes.
    assert (Ht : forall d, Closed.after_thumb cfg rt (ev_ext ev) d = d)
      by (intros d; unfold Closed.after_thumb; now rewrite Hthumb).
    destruct (thumb_first (ev_ext ev)); now rewrite ?Ht, (after_info_fails _ _ _ _ Hinfo). }
  assert (Herr : exists e, Closed.info_error cfg (ev_ext ev) = Some e).
  { unfold Closed.info_error. destruct Hinfo as [H | (json & H & Hs)]; rewrite H; eauto.
    rewrite Hs. eauto. }
  destruct Herr as (e & Herr).
  exists w', e. split; [exact Hrun|]. rewrite Hlook, Hdoc, Htr.
  split; [reflexivity|]. split; apply in_scan_trace.
  - now apply info_error_logged.
  - apply thumb_error_logged. unfold Closed.thumb_error. now rewrite Hthumb.
Qed.

Lemma unprobed_file_is_catalogued_witness :
  exists w' e,
    onEvent Samples.media_cfg Samples.utc Samples.clip_grown_unprobed Samples.clip_world
    = (inr tt, w')
    /\ lookup "CLIP" (catalog w')
       = Some (set_rev "0++" (set_media "/media/clip.mov" 4000 90000000 Samples.clip_doc))
    /\ In (LogError e "Info Failed") (trace w')
    /\ In (LogError (Error "thumbnail") "Thumbnail Failed") (trace w').
Proof.
  apply (unprobed_file_is_catalogued Samples.media_cfg Samples.utc
           Samples.clip_grown_unprobed (Samples.file_stat 4000 90000000)
           Samples.clip_world eq_refl ltac:(discriminate) eq_refl eq_refl eq_refl).
  - left. reflexivity.
  - reflexivity.
Defined.

(** X7: when the thumbnail was made and statted but cannot be read back
    (and the probe's output is one its callback can read), the entry is
    written with the new [thumbSize], [thumbTime] and [tinf] next to the
    attachment that was fetched: the record describes a thumbnail the
    entry does not hold. The failure is logged. *)
Theorem unreadable_thumbnail_leaves_old_attachment (cfg : Config) (rt : Runtime)
    (ev : Event) (st tst : Stats) (w : World) :
  ev_stat ev = Some st ->
  let id := getId rt (paths_media cfg) (ev_path ev) in
  let f := Spec.fetched id w in
  id <> "" -> isDirectory st = false ->
  Spec.collides f (ev_path ev) = false -> Spec.unchanged st f = false ->
  ffprobe (ev_ext ev) <> ProbeUnparsable ->
  thumbnail (ev_ext ev) = ThumbUnreadable tst ->
  exists w' d',
    onEvent cfg rt ev w = (inr tt, w')
    /\ lookup id (catalog w') = Some d'
    /\ thumbSize d' = Some (size tst) /\ thumbTime d' = Some (mtime tst)
    /\ tinf d' = Some (generateTinf cfg rt (ev_path ev) (size tst) (mtime tst))
    /\ _attachments d' = _attachments f
    /\ In (LogError (Error "readFile") "Thumbnail Failed") (trace w').
Proof.
  cbv zeta. intros Hst Hid Hdir Hcol Hsame Hparse Hthumb.
  destruct (scan_stored cfg rt ev st w Hst Hid Hdir Hcol Hsame Hparse)
    as (w' & Hrun & Htr & Hlook).
  eexists w', _. split; [exact Hrun|]. split; [exact Hlook|].
  pose proof (after_probes_thumb cfg rt (ev_ext ev)
                (set_media (ev_path ev) (size st) (mtime st)
                   (Spec.fetched (getId rt (paths_media cfg) (ev_path ev)) w)))
    as (H1 & H2 & H3 & H4).
  unfold Closed.after_thumb in H1, H2, H3, H4. rewrite Hthumb in H1, H2, H3, H4.
  cbn [thumbSize thumbTime tinf _attachments set_thumb set_media mediaPath] in *.
  unfold Closed.scanned. fields.
  rewrite H1, H2, H3, H4, Htr. repeat split.
  apply in_scan_trace, thumb_error_logged.
  unfold Closed.thumb_error. now rewrite Hthumb.
Qed.

Lemma unreadable_thumbnail_leaves_old_attachment_witness :
  exists w' d',
    onEvent Samples.media_cfg Samples.utc Samples.clip_grown_unreadable
      Samples.clip_world = (inr tt, w')
    /\ lookup "CLIP" (catalog w') = Some d'
    /\ thumbSize d' = Some 2048 /\ thumbTime d' = Some 172800000
    /\ tinf d' = Some (generateTinf Samples.media_cfg Samples.utc "/media/clip.mov"
                         2048 172800000)
    /\ _attachments d' = None
    /\ In (LogError (Error "readFile") "Thumbnail Failed") (trace w').
Proof.
  exact (unreadable_thumbnail_leaves_old_attachment Samples.media_cfg Samples.utc
           Samples.clip_grown_unreadable (Samples.file_stat 4000 90000000)
           Samples.thumb_stat Samples.clip_world eq_refl ltac:(discriminate)
           eq_refl eq_refl eq_refl ltac:(discriminate) eq_refl).
Defined.

(** X8: when only the removal of the temporary file fails (and the
    probe's output is one its callback can read), the entry is written
    with all four thumbnail fields renewed, and the run is logged as a
    thumbnail failure all the same. *)
Theorem failed_unlink_still_updates_thumbnail (cfg : Config) (rt : Runtime)
    (ev : Event) (st tst : Stats) (png : string) (w : World) :
  ev_stat ev = Some st ->
  let id := getId rt (paths_media cfg) (ev_path ev) in
  let f := Spec.fetched id w in
  id <> "" -> isDirectory st = false ->
  Spec.collides f (ev_path ev) = false -> Spec.unchanged st f = false ->
  ffprobe (ev_ext ev) <> ProbeUnparsable ->
  thumbnail (ev_ext ev) = ThumbNotUnlinked tst png ->
  exists w' d',
    onEvent cfg rt ev w = (inr tt, w')
    /\ lookup id (catalog w') = Some d'
    /\ Spec.thumb_updated cfg rt tst png d'
    /\ In (LogError (Error "unlink") "Thumbnail Failed") (trace w').
Proof.
  cbv zeta. intros Hst Hid Hdir Hcol Hsame Hparse Hthumb.
  destruct (scan_stored cfg rt ev st w Hst Hid Hdir Hcol Hsame Hparse)
    as (w' & Hrun & Htr & Hlook).
  eexists w', _. split; [exact Hrun|]. split; [exact Hlook|].
  pose proof (after_probes_thumb cfg rt (ev_ext ev)
                (set_media (ev_path ev) (size st) (mtime st)
                   (Spec.fetched (getId rt (paths_media cfg) (ev_path ev)) w)))
    as (H1 & H2 & H3 & H4).
  pose proof (after_probes_media cfg rt (ev_ext ev)
                (set_media (ev_path ev) (size st) (mtime st)
                   (Spec.fetched (getId rt (paths_media cfg) (ev_path ev)) w)))
    as (_ & _ & Hp & _).
  unfold Closed.after_thumb in H1, H2, H3, H4. rewrite Hthumb in H1, H2, H3, H4.
  cbn [thumbSize thumbTime tinf _attachments set_thumb set_attachments set_media
       mediaPath] in *.
  unfold Spec.thumb_updated, Closed.scanned. fields.
  rewrite H1, H2, H3, H4, Hp, Htr. repeat split.
  apply in_scan_trace, thumb_error_logged.
  unfold Closed.thumb_error. now rewrite Hthumb.
Qed.

Lemma failed_unlink_still_updates_thumbnail_witness :
  exists w' d',
    onEvent Samples.media_cfg Samples.utc Samples.clip_grown_not_unlinked
      Samples.clip_world = (inr tt, w')
    /\ lookup "CLIP" (catalog w') = Some d'
    /\ Spec.thumb_updated Samples.media_cfg Samples.utc Samples.thumb_stat "PNG" d'
    /\ In (LogError (Error "unlink") "Thumbnail Failed") (trace w').
Proof.
  exact (failed_unlink_still_updates_thumbnail Samples.media_cfg Samples.utc
           Samples.clip_grown_not_unlinked (Samples.file_stat 4000 90000000)
           Samples.thumb_stat "PNG" Samples.clip_world eq_refl ltac:(discriminate)
           eq_refl eq_refl eq_refl ltac:(discriminate) eq_refl).
Defined.

(** *** When the tools are run *)

Lemma probe_effects_probes (cfg : Config) (ext : Externals) (path : string) (e : Effect) :
  In e (Closed.probe_effects cfg ext path) -> Spec.is_probe e = true ->
  e = RunFfprobe path \/ e = RunThumbnail path
  \/ (e = RunIdet path /\ Closed.runs_idet cfg ext = true).
Proof.
  unfold Closed.probe_effects, Closed.info_effects, Closed.thumb_effects, Closed.logged.
  intros Hin Hprobe.
  assert (Hcases : In e ([RunThumbnail path]
                         ++ (RunFfprobe path
                             :: if Closed.runs_idet cfg ext then [RunIdet path] else []))
                   \/ (exists x m, e = LogError x m)).
  { destruct (thumb_first ext), (Closed.thumb_error ext), (Closed.info_error cfg ext),
      (Closed.runs_idet cfg ext); simpl in Hin |- *;
      intuition (subst; eauto). }
  destruct Hcases as [H | (x & m & ->)]; [|discriminate].
  destruct (Closed.runs_idet cfg ext); simpl in H; intuition (subst; auto).
Qed.

Lemma runs_idet_enabled (cfg : Config) (ext : Externals) :
  Closed.runs_idet cfg ext = true ->
  exists md json,
    metadata cfg = Some md /\ fieldOrder md = true
    /\ ffprobe ext = ProbeOutput json /\ streams json <> [].
Proof.
  unfold Closed.runs_idet. intros H.
  destruct (ffprobe ext) as [|json|]; [discriminate | | discriminate].
  destruct (streams json) eqn:Es; [discriminate|].
  destruct (metadata cfg) as [md|]; [|discriminate].
  exists md, json. rewrite Es. repeat split; auto. discriminate.
Qed.

Lemma quiet_no_probe (es : list Effect) (e : Effect) :
  Spec.quiet es = true -> In e es -> Spec.is_probe e = false.
Proof.
  unfold Spec.quiet. intros Hq Hin.
  rewrite forallb_forall in Hq. specialize (Hq e Hin).
  apply negb_true_iff, orb_false_iff in Hq. tauto.
Qed.

(** X9: a tool is run only for an added or changed file that gets past
    all three guards of the scan (a non-empty id and no directory, no id
    collision, a size or mtime that differs from the fetched entry), and
    only on the event's path; the idet pass is run only if, besides,
    metadata is configured with field-order detection on and the probe
    has answered with at least one stream. An [unlink] event never runs a
    tool. *)
Theorem tools_run_only_for_changed_files (cfg : Config) (rt : Runtime) (ev : Event)
    (w : World) (e : Effect) :
  In e (trace (snd (onEvent cfg rt ev w))) -> Spec.is_probe e = true ->
  In e (trace w)
  \/ (exists st,
        ev_stat ev = Some st
        /\ getId rt (paths_media cfg) (ev_path ev) <> "" /\ isDirectory st = false
        /\ Spec.collides (Spec.fetched (getId rt (paths_media cfg) (ev_path ev)) w)
             (ev_path ev) = false
        /\ Spec.unchanged st (Spec.fetched (getId rt (paths_media cfg) (ev_path ev)) w)
           = false
        /\ (e = RunFfprobe (ev_path ev) \/ e = RunThumbnail (ev_path ev)
            \/ (e = RunIdet (ev_path ev)
                /\ exists md json,
                    metadata cfg = Some md /\ fieldOrder md = true
                    /\ ffprobe (ev_ext ev) = ProbeOutput json /\ streams json <> []))).
Proof.
  intros Hin Hprobe. destruct (ev_stat ev) as [st|] eqn:Hst.
  - destruct (guard_or_full (getId rt (paths_media cfg) (ev_path ev)) (ev_path ev) st w)
      as [G | (Hid & Hdir & Hcol & Hsame)].
    + destruct (scan_guarded cfg rt ev st w Hst G) as (es & Hrun & Hq).
      rewrite Hrun in Hin. cbn [snd after trace] in Hin.
      apply in_app_or in Hin. destruct Hin as [Hin | Hin]; [now left|].
      rewrite (quiet_no_probe es e Hq Hin) in Hprobe. discriminate.
    + destruct (parses_dec (ev_ext ev)) as [Hdies | Hparse].
      { rewrite (onEvent_dies cfg rt ev st w _ _ Hst
                   (scanFile_dies cfg rt (ev_ext ev) (ev_path ev) _ st w
                      Hid Hdir Hcol Hsame Hdies)) in Hin.
        cbn [snd after trace] in Hin.
        apply in_app_or in Hin. destruct Hin as [Hin | [<- | Hin]];
          [now left | discriminate |].
        right. exists st. split; [reflexivity|]. repeat (split; [assumption|]).
        apply in_app_or in Hin. destruct Hin as [Hin | [<- | []]]; [|now left].
        destruct (thumb_first (ev_ext ev)); [|contradiction].
        unfold Closed.thumb_effects, Closed.logged in Hin.
        destruct Hin as [<- | Hin]; [right; now left|].
        destruct (Closed.thumb_error (ev_ext ev)); [|contradiction].
        destruct Hin as [<- | []]. discriminate. }
      destruct (scan_stored cfg rt ev st w Hst Hid Hdir Hcol Hsame Hparse)
        as (w' & Hrun & Htr & _).
      rewrite Hrun in Hin. cbn [snd] in Hin. rewrite Htr in Hin.
      apply in_app_or in Hin. destruct Hin as [Hin | [<- | Hin]];
        [now left | discriminate |].
      apply in_app_or in Hin. destruct Hin as [Hin | [<- | [<- | []]]]; try discriminate.
      right. exists st. split; [reflexivity|]. repeat (split; [assumption|]).
      destruct (probe_effects_probes cfg (ev_ext ev) (ev_path ev) e Hin Hprobe)
        as [H | [H | [H Hidet]]]; [now left | right; now left | right; right].
      split; [exact H | exact (runs_idet_enabled cfg (ev_ext ev) Hidet)].
  - rewrite (unlink_run cfg rt ev w Hst) in Hin.
    destruct (lookup _ (catalog w)); cbn [snd after trace] in Hin;
      apply in_app_or in Hin; destruct Hin as [Hin | [<- | [<- | []]]];
      try discriminate; now left.
Qed.

Lemma tools_run_only_for_changed_files_witness :
  In (RunThumbnail "/media/clip.mov") (trace Samples.clip_world)
  \/ (exists st,
        ev_stat Samples.clip_grown = Some st
        /\ getId Samples.utc (paths_media Samples.media_cfg) (ev_path Samples.clip_grown)
           <> ""
        /\ isDirectory st = false
        /\ Spec.collides
             (Spec.fetched
                (getId Samples.utc (paths_media Samples.media_cfg)
                   (ev_path Samples.clip_grown)) Samples.clip_world)
             (ev_path Samples.clip_grown) = false
        /\ Spec.unchanged st
             (Spec.fetched
                (getId Samples.utc (paths_media Samples.media_cfg)
                   (ev_path Samples.clip_grown)) Samples.clip_world) = false
        /\ (RunThumbnail "/media/clip.mov" = RunFfprobe (ev_path Samples.clip_grown)
            \/ RunThumbnail "/media/clip.mov" = RunThumbnail (ev_path Samples.clip_grown)
            \/ (RunThumbnail "/media/clip.mov" = RunIdet (ev_path Samples.clip_grown)
                /\ exists md json,
                    metadata Samples.media_cfg = Some md /\ fieldOrder md = true
                    /\ ffprobe (ev_ext Samples.clip_grown) = ProbeOutput json
                    /\ streams json <> []))).
Proof.
  apply (tools_run_only_for_changed_files Samples.media_cfg Samples.utc
           Samples.clip_grown Samples.clip_world (RunThumbnail "/media/clip.mov")).
  - vm_compute. do 3 right. left. reflexivity.
  - reflexivity.
Defined.

(** *** The structured metadata *)

(** X10: when the probe has answered with streams but the idet pass then
    fails, the entry is written with the regenerated [cinf] and with the
    [mediainfo] that was fetched: the record is new, the structured
    metadata is not. The failure is logged as an info failure. *)
Theorem failed_idet_pass_keeps_new_cinf (cfg : Config) (rt : Runtime) (ev : Event)
    (st : Stats) (w : World) (md : Metadata) (json : ProbeJson) :
  ev_stat ev = Some st ->
  let id := getId rt (paths_media cfg) (ev_path ev) in
  let f := Spec.fetched id w in
  id <> "" -> isDirectory st = false ->
  Spec.collides f (ev_path ev) = false -> Spec.unchanged st f = false ->
  metadata cfg = Some md -> fieldOrder md = true ->
  ffprobe (ev_ext ev) = ProbeOutput json -> streams json <> [] ->
  idet (ev_ext ev) = IdetFailed ->
  exists w' d' seen,
    onEvent cfg rt ev w = (inr tt, w')
    /\ lookup id (catalog w') = Some d'
    /\ cinf d' = Some (generateCinf cfg rt seen json)
    /\ mediaPath seen = ev_path ev /\ mediaSize seen = size st
    /\ mediainfo d' = mediainfo f
    /\ In (LogError (Error "idet") "Info Failed") (trace w').
Proof.
  cbv zeta. intros Hst Hid Hdir Hcol Hsame Hmd Hfo Hprobe Hstreams Hidet.
  destruct (scan_stored cfg rt ev st w Hst Hid Hdir Hcol Hsame
              (output_parses _ _ Hprobe)) as (w' & Hrun & Htr & Hlook).
  set (d0 := set_media (ev_path ev) (size st) (mtime st)
               (Spec.fetched (getId rt (paths_media cfg) (ev_path ev)) w)) in *.
  set (seen := if thumb_first (ev_ext ev)
               then Closed.after_thumb cfg rt (ev_ext ev) d0 else d0).
  eexists w', _, seen. split; [exact Hrun|]. split; [exact Hlook|].
  pose proof (after_probes_info cfg rt (ev_ext ev) d0) as [Hc Hm]. fold seen in Hc, Hm.
  assert (Hinfo : Closed.after_info cfg rt (ev_ext ev) seen
                  = set_cinf (generateCinf cfg rt seen json) seen).
  { unfold Closed.after_info, Closed.resolved_order.
    rewrite Hprobe, Hmd, Hfo, Hidet.
    destruct (streams json); [contradiction | reflexivity]. }
  rewrite Hinfo in Hc, Hm. cbn [cinf mediainfo set_cinf] in Hc, Hm.
  assert (Hseen : Spec.same_media d0 seen /\ mediainfo seen = mediainfo d0).
  { unfold seen. destruct (thumb_first (ev_ext ev)).
    - destruct (after_thumb_media cfg rt (ev_ext ev) d0) as [H1 [_ H2]]. tauto.
    - split; [apply same_media_refl | reflexivity]. }
  destruct Hseen as [(_ & _ & Hp & Hs & _) Hmi].
  unfold Closed.scanned. fold d0. fields. rewrite Hc, Hm, Hmi, Hp, Hs, Htr.
  unfold d0. fields. repeat split.
  apply in_scan_trace, info_error_logged.
  unfold Closed.info_error, Closed.resolved_order. rewrite Hprobe, Hmd, Hfo, Hidet.
  destruct (streams json); [contradiction | reflexivity].
Qed.

Lemma failed_idet_pass_keeps_new_cinf_witness :
  exists w' d' seen,
    onEvent Samples.detect_cfg Samples.utc Samples.clip_grown_idet_down
      Samples.clip_world = (inr tt, w')
    /\ lookup "CLIP" (catalog w') = Some d'
    /\ cinf d' = Some (generateCinf Samples.detect_cfg Samples.utc seen Samples.clip_json)
    /\ mediaPath seen = "/media/clip.mov" /\ mediaSize seen = 4000
    /\ mediainfo d' = None
    /\ In (LogError (Error "idet") "Info Failed") (trace w').
Proof.
  apply (failed_idet_pass_keeps_new_cinf Samples.detect_cfg Samples.utc
           Samples.clip_grown_idet_down (Samples.file_stat 4000 90000000)
           Samples.clip_world Samples.detect_on Samples.clip_json
           eq_refl ltac:(discriminate) eq_refl eq_refl eq_refl eq_refl eq_refl eq_refl
           ltac:(discriminate) eq_refl).
Defined.

(** X11: when metadata is configured, the probe has answered with streams
    and the field-order promise resolves (detection off, or the idet pass
    ran), the entry is written with structured metadata that names the
    entry by its id, path, size and mtime of this event, has one remapped
    stream per probed stream, carries the resolved field order, and takes
    the format's [size] from the probe's [time] attribute. *)
Theorem mediainfo_is_written (cfg : Config) (rt : Runtime) (ev : Event)
    (st : Stats) (w : World) (md : Metadata) (json : ProbeJson) :
  ev_stat ev = Some st ->
  let id := getId rt (paths_media cfg) (ev_path ev) in
  let f := Spec.fetched id w in
  id <> "" -> isDirectory st = false ->
  Spec.collides f (ev_path ev) = false -> Spec.unchanged st f = false ->
  metadata cfg = Some md ->
  ffprobe (ev_ext ev) = ProbeOutput json -> streams json <> [] ->
  fieldOrder md = false \/ (exists stderr, idet (ev_ext ev) = IdetOutput stderr) ->
  exists w' d' m,
    onEvent cfg rt ev w = (inr tt, w')
    /\ lookup id (catalog w') = Some d'
    /\ mediainfo d' = Some m
    /\ mi_name m = id /\ mi_path m = ev_path ev
    /\ mi_size m = size st /\ mi_time m = mtime st
    /\ List.length (mi_streams m) = List.length (streams json)
    /\ In ("size", format_attr (format json) "time") (mi_format m)
    /\ (fieldOrder md = false -> field_order m = "unknown")
    /\ (forall stderr, fieldOrder md = true -> idet (ev_ext ev) = IdetOutput stderr ->
        field_order m = classify_field_order stderr).
Proof.
  cbv zeta. intros Hst Hid Hdir Hcol Hsame Hmd Hprobe Hstreams Hres.
  destruct (scan_stored cfg rt ev st w Hst Hid Hdir Hcol Hsame
              (output_parses _ _ Hprobe)) as (w' & Hrun & Htr & Hlook).
  set (id := getId rt (paths_media cfg) (ev_path ev)) in *.
  set (d0 := set_media (ev_path ev) (size st) (mtime st) (Spec.fetched id w)) in *.
  set (seen := if thumb_first (ev_ext ev)
               then Closed.after_thumb cfg rt (ev_ext ev) d0 else d0).
  assert (Horder : exists order,
             Closed.resolved_order md (ev_ext ev) = Some order
             /\ (fieldOrder md = false -> order = "unknown")
             /\ (forall stderr, fieldOrder md = true ->
                 idet (ev_ext ev) = IdetOutput stderr ->
                 order = classify_field_order stderr)).
  { unfold Closed.resolved_order. destruct (fieldOrder md) eqn:Hfo.
    - destruct Hres as [H | (stderr & H)]; [discriminate|]. rewrite H.
      eexists. split; [reflexivity|]. split; [discriminate|].
      intros s' _ Hs'. now inversion Hs'.
    - eexists. split; [reflexivity|]. split; [reflexivity | discriminate]. }
  destruct Horder as (order & Horder & Hoff & Hon).
  pose proof (after_probes_info cfg rt (ev_ext ev) d0) as [_ Hm]. fold seen in Hm.
  assert (Hinfo : mediainfo (Closed.after_info cfg rt (ev_ext ev) seen)
                  = Some (Closed.mediainfo_of
                            (set_cinf (generateCinf cfg rt seen json) seen) order json)).
  { unfold Closed.after_info. rewrite Hprobe, Hmd, Horder.
    destruct (streams json); [contradiction | reflexivity]. }
  rewrite Hinfo in Hm.
  assert (Hseen : Spec.same_media d0 seen).
  { unfold seen. destruct (thumb_first (ev_ext ev)).
    - exact (proj1 (after_thumb_media cfg rt (ev_ext ev) d0)).
    - apply same_media_refl. }
  destruct Hseen as (Hi & _ & Hp & Hs & Ht).
  unfold d0 in Hi, Hp, Hs, Ht. cbn [_id mediaPath mediaSize mediaTime set_media] in *.
  rewrite fetched_id in Hi.
  eexists w', _, _. split; [exact Hrun|]. split; [exact Hlook|].
  unfold Closed.scanned. fold id d0. fields. split; [exact Hm|].
  unfold Closed.mediainfo_of. fields.
  cbn [mi_name mi_path mi_size mi_time mi_streams mi_format field_order
       _id mediaPath mediaSize mediaTime set_cinf].
  repeat split; auto.
  - apply length_map.
  - unfold remap_format. right. right. now left.
Qed.

Lemma mediainfo_is_written_witness :
  exists w' d' m,
    onEvent Samples.detect_cfg Samples.utc Samples.clip_grown_detected
      Samples.clip_world = (inr tt, w')
    /\ lookup "CLIP" (catalog w') = Some d'
    /\ mediainfo d' = Some m
    /\ mi_name m = "CLIP" /\ mi_path m = "/media/clip.mov"
    /\ mi_size m = 4000 /\ mi_time m = 90000000
    /\ List.length (mi_streams m) = 2%nat
    /\ In ("size", format_attr (format Samples.clip_json) "time") (mi_format m)
    /\ (true = false -> field_order m = "unknown")
    /\ (forall stderr, true = true -> IdetOutput Samples.idet_tff = IdetOutput stderr ->
        field_order m = classify_field_order stderr).
Proof.
  apply (mediainfo_is_written Samples.detect_cfg Samples.utc
           Samples.clip_grown_detected (Samples.file_stat 4000 90000000)
           Samples.clip_world Samples.detect_on Samples.clip_json
           eq_refl ltac:(discriminate) eq_refl eq_refl eq_refl eq_refl eq_refl
           ltac:(discriminate)).
  right. exists Samples.idet_tff. reflexivity.
Defined.

(** *** The record's timestamp and what the loop passes over *)

(** The record the info side writes is generated from the document as it
    stands when the probe answers. *)
Lemma info_sees (cfg : Config) (rt : Runtime) (ext : Externals) (d : MediaDocument)
    (json : ProbeJson) :
  ffprobe ext = ProbeOutput json -> streams json <> [] ->
  cinf (Closed.after_probes cfg rt ext d)
  = Some (generateCinf cfg rt
            (if thumb_first ext then Closed.after_thumb cfg rt ext d else d) json).
Proof.
  intros Hprobe Hstreams.
  destruct (after_probes_info cfg rt ext d) as [Hc _]. rewrite Hc.
  unfold Closed.after_info. rewrite Hprobe.
  destruct (streams json); [contradiction|].
  destruct (metadata cfg) as [md|]; [|reflexivity].
  destruct (Closed.resolved_order md ext); reflexivity.
Qed.

(** X12: the timestamp of a regenerated [cinf] is taken from [thumbTime]
    as it stands when the probe answers, never from the media file: the
    new thumbnail's mtime when the thumbnail was statted first, else the
    [thumbTime] that was fetched; for a file not yet on file that is the
    clock's current time. *)
Theorem cinf_is_stamped_with_thumbnail_time (cfg : Config) (rt : Runtime) (ev : Event)
    (st : Stats) (w : World) (json : ProbeJson) :
  ev_stat ev = Some st ->
  let id := getId rt (paths_media cfg) (ev_path ev) in
  let f := Spec.fetched id w in
  id <> "" -> isDirectory st = false ->
  Spec.collides f (ev_path ev) = false -> Spec.unchanged st f = false ->
  ffprobe (ev_ext ev) = ProbeOutput json -> streams json <> [] ->
  exists w' d' seen,
    onEvent cfg rt ev w = (inr tt, w')
    /\ lookup id (catalog w') = Some d'
    /\ cinf d' = Some (generateCinf cfg rt seen json)
    /\ mediaPath seen = ev_path ev /\ mediaSize seen = size st
    /\ (forall tst, thumb_first (ev_ext ev) = true ->
        Closed.thumb_stat (ev_ext ev) = Some tst -> thumbTime seen = Some (mtime tst))
    /\ (thumb_first (ev_ext ev) = false \/ Closed.thumb_stat (ev_ext ev) = None ->
        thumbTime seen = thumbTime f)
    /\ (thumb_first (ev_ext ev) = false \/ Closed.thumb_stat (ev_ext ev) = None ->
        lookup id (catalog w) = None -> moment_of rt (thumbTime seen) = now rt).
Proof.
  cbv zeta. intros Hst Hid Hdir Hcol Hsame Hprobe Hstreams.
  destruct (scan_stored cfg rt ev st w Hst Hid Hdir Hcol Hsame
              (output_parses _ _ Hprobe)) as (w' & Hrun & _ & Hlook).
  set (id := getId rt (paths_media cfg) (ev_path ev)) in *.
  set (d0 := set_media (ev_path ev) (size st) (mtime st) (Spec.fetched id w)).
  set (seen := if thumb_first (ev_ext ev)
               then Closed.after_thumb cfg rt (ev_ext ev) d0 else d0).
  eexists w', _, seen. split; [exact Hrun|]. split; [exact Hlook|].
  assert (Hseen : Spec.same_media d0 seen).
  { unfold seen. destruct (thumb_first (ev_ext ev)).
    - exact (proj1 (after_thumb_media cfg rt (ev_ext ev) d0)).
    - apply same_media_refl. }
  destruct Hseen as (_ & _ & Hp & Hs & _).
  assert (Hold : thumb_first (ev_ext ev) = false \/ Closed.thumb_stat (ev_ext ev) = None ->
                 thumbTime seen = thumbTime (Spec.fetched id w)).
  { unfold seen, Closed.thumb_stat, Closed.after_thumb.
    intros [H | H]; [rewrite H; reflexivity|].
    destruct (thumb_first (ev_ext ev)); [|reflexivity].
    destruct (thumbnail (ev_ext ev)); try discriminate. reflexivity. }
  split; [|split; [exact Hp | split; [exact Hs | split; [|split; [exact Hold|]]]]].
  - unfold Closed.scanned. fold id d0. fields.
    exact (info_sees cfg rt (ev_ext ev) d0 json Hprobe Hstreams).
  - intros tst Hfirst Htst. unfold seen, Closed.after_thumb. rewrite Hfirst.
    unfold Closed.thumb_stat in Htst.
    destruct (thumbnail (ev_ext ev)); inversion Htst; subst; reflexivity.
  - intros H Hnew. rewrite (Hold H). unfold Spec.fetched. rewrite Hnew. reflexivity.
Qed.

Lemma cinf_is_stamped_with_thumbnail_time_witness :
  exists w' d' seen,
    onEvent Samples.media_cfg Samples.utc Samples.fresh_added Samples.clip_world
    = (inr tt, w')
    /\ lookup "FRESH" (catalog w') = Some d'
    /\ cinf d' = Some (generateCinf Samples.media_cfg Samples.utc seen Samples.clip_json)
    /\ mediaPath seen = "/media/fresh.mov" /\ mediaSize seen = 4000
    /\ (forall tst, false = true -> Some Samples.thumb_stat = Some tst ->
        thumbTime seen = Some (mtime tst))
    /\ (false = false \/ Some Samples.thumb_stat = None -> thumbTime seen = None)
    /\ (false = false \/ Some Samples.thumb_stat = None ->
        lookup "FRESH" (catalog Samples.clip_world) = None ->
        moment_of Samples.utc (thumbTime seen) = 0).
Proof.
  apply (cinf_is_stamped_with_thumbnail_time Samples.media_cfg Samples.utc
           Samples.fresh_added (Samples.file_stat 4000 90000000) Samples.clip_world
           Samples.clip_json eq_refl ltac:(discriminate) eq_refl eq_refl eq_refl eq_refl
           ltac:(discriminate)).
Defined.

Lemma visit_other (acc : Timebases) (s : Stream) :
  Closed.other_stream s = true -> visit acc s = acc.
Proof.
  unfold Closed.other_stream, Spec.is_audio, Spec.is_video, visit. intros H.
  apply andb_prop in H. destruct H as [Ha Hv].
  apply negb_true_iff in Ha, Hv. now rewrite Ha, Hv.
Qed.

Lemma fold_visit_other (ss : list Stream) :
  forall acc,
    fold_left visit (filter (fun s => negb (Closed.other_stream s)) ss) acc
    = fold_left visit ss acc.
Proof.
  induction ss as [|s ss IH]; intros acc; [reflexivity|]. simpl.
  destruct (Closed.other_stream s) eqn:E; simpl.
  - now rewrite (visit_other acc s E).
  - apply IH.
Qed.

(** X13: streams that are neither audio nor video (subtitles, data,
    attachments) have no part in the record, wherever they stand in the
    probe output: the record is the one generated from the audio and
    video streams alone. *)
Theorem other_streams_leave_no_mark (cfg : Config) (rt : Runtime) (d : MediaDocument)
    (json : ProbeJson) :
  generateCinf cfg rt d json = generateCinf cfg rt d (Closed.audio_video_only json).
Proof.
  unfold generateCinf, infer, Closed.audio_video_only.
  cbn [streams]. rewrite fold_visit_other. reflexivity.
Qed.

Lemma find_none_existsb {A} (p : A -> bool) (l : list A) :
  existsb p l = false -> find p l = None.
Proof.
  induction l as [|a l IH]; simpl; [reflexivity|].
  destruct (p a); simpl; [discriminate | exact IH].
Qed.

(** X14: a probe output with no audio stream and no video stream other
    than stills gives a record of zero frames at the timebase [0/1],
    whatever duration the probe reports: typed STILL when there is a
    still, and AUDIO when there is no stream of either kind at all. *)
Theorem record_without_motion_or_audio (cfg : Config) (rt : Runtime) (d : MediaDocument)
    (json : ProbeJson) :
  existsb Spec.is_motion (streams json) = false ->
  existsb Spec.is_audio (streams json) = false ->
  generateCinf cfg rt d json
  = join " "
      [ VStr (dquote ++ getId rt (paths_media cfg) (mediaPath d) ++ dquote);
        VStr (if existsb Spec.is_still (streams json) then type_STILL else type_AUDIO);
        VNum (of_Z (mediaSize d));
        VStr (Moment.format (utcOffset rt) Moment.fmt_cinf (moment_of rt (thumbTime d)));
        VStr "0"; VStr "0/1" ]
    ++ crlf.
Proof.
  intros Hm Ha. unfold generateCinf, infer, choose.
  destruct (fold_visit (streams json) no_timebases) as (Hv & Hau & Hs).
  rewrite Hv, Hau, Hs. cbn [videoTb audioTb stillTb no_timebases].
  rewrite (find_none_existsb _ _ Hm), (find_none_existsb _ _ Ha). cbn [option_map].
  assert (Hzero : frame_duration (probe_duration json) Closed.still_timebase = zero)
    by reflexivity.
  assert (Hnum : number_to_string zero = "0") by (vm_compute; reflexivity).
  assert (Htb : to_string (index Closed.still_timebase 0) ++ "/"
                ++ to_string (index Closed.still_timebase 1) = "0/1")
    by (vm_compute; reflexivity).
  destruct (existsb Spec.is_still (streams json));
    fold Closed.still_timebase; rewrite Hzero, Htb;
    cbn [join join_item to_string]; rewrite Hnum; reflexivity.
Qed.

Lemma record_without_motion_or_audio_witness :
  generateCinf Samples.media_cfg Samples.utc Samples.clip_doc
    (Samples.probe_of (Some "2.000000") [Samples.subtitle; Samples.still_image])
  = join " "
      [ VStr (dquote ++ "CLIP" ++ dquote); VStr type_STILL; VNum (of_Z 1000);
        VStr (Moment.format (fun _ => 0) Moment.fmt_cinf 0); VStr "0"; VStr "0/1" ]
    ++ crlf.
Proof.
  apply (record_without_motion_or_audio Samples.media_cfg Samples.utc Samples.clip_doc
           (Samples.probe_of (Some "2.000000") [Samples.subtitle; Samples.still_image])
           eq_refl eq_refl).
Defined.

(** X15: when the first motion-video stream reports an average frame
    rate with the denominator [0] (the probe writes [0/0] for a stream
    without a frame rate, a cover picture for one), the record is a MOVIE
    of zero frames at the timebase [0/a], whatever the duration, the real
    frame rate and the stream's time-base are. *)
Theorem rate_over_zero_gives_no_frames (cfg : Config) (rt : Runtime) (d : MediaDocument)
    (json : ProbeJson) (v : Stream) (a : string) :
  find Spec.is_motion (streams json) = Some v ->
  avg_frame_rate v = Some (a ++ "/" ++ "0") ->
  Spec.slash_free a = true ->
  generateCinf cfg rt d json
  = join " "
      [ VStr (dquote ++ getId rt (paths_media cfg) (mediaPath d) ++ dquote);
        VStr type_MOVIE;
        VNum (of_Z (mediaSize d));
        VStr (Moment.format (utcOffset rt) Moment.fmt_cinf (moment_of rt (thumbTime d)));
        VStr "0";
        VStr ("0/" ++ number_to_string (string_to_number a)) ]
    ++ crlf.
Proof.
  intros Hfind Hrate Ha. unfold generateCinf, infer, choose.
  destruct (fold_visit (streams json) no_timebases) as (Hv & _ & _).
  rewrite Hv, Hfind. cbn [videoTb no_timebases option_map].
  unfold motion_timebase. rewrite Hrate, or_else_rate, (split_rate a "0" Ha eq_refl).
  cbn [List.length Nat.eqb nth].
  assert (Hz : string_to_number "0" = zero) by (vm_compute; reflexivity).
  rewrite Hz.
  assert (Hzero : forall x dur, frame_duration dur [VNum zero; x] = zero)
    by reflexivity.
  rewrite Hzero.
  assert (Hnum : number_to_string zero = "0") by (vm_compute; reflexivity).
  cbn [join join_item to_string index nth]. rewrite Hnum. reflexivity.
Qed.

Lemma rate_over_zero_gives_no_frames_witness :
  generateCinf Samples.media_cfg Samples.utc Samples.clip_doc
    (Samples.probe_of (Some "180.000000") [Samples.audio_48k; Samples.cover_art])
  = join " "
      [ VStr (dquote ++ "CLIP" ++ dquote); VStr type_MOVIE; VNum (of_Z 1000);
        VStr (Moment.format (fun _ => 0) Moment.fmt_cinf 0); VStr "0";
        VStr ("0/" ++ number_to_string (string_to_number "0")) ]
    ++ crlf.
Proof.
  apply (rate_over_zero_gives_no_frames Samples.media_cfg Samples.utc Samples.clip_doc
           (Samples.probe_of (Some "180.000000") [Samples.audio_48k; Samples.cover_art])
           Samples.cover_art "0" eq_refl eq_refl eq_refl).
Defined.

(** *** The sweep's effects *)

Lemma after_after (w : World) (es es' : list Effect) :
  after (after w es) es' = after w (es ++ es').
Proof. unfold after. cbn [catalog trace]. now rewrite app_assoc. Qed.

(** The sweep is its loop between two log lines. *)
Lemma cleanDeleted_sweep (cfg : Config) (rt : Runtime) (fs : FileSystem) (w w1 : World)
    (r : bool) :
  sweep (S (List.length (catalog w))) cfg rt fs limit None
    (after w [LogInfo "Checking for dead media"]) = (inr r, w1) ->
  cleanDeleted cfg rt fs w
  = (inr r, after w1 [LogInfo "Finished check for dead media"]).
Proof.
  intros Hrun. unfold cleanDeleted. unfold bind at 1. unfold emit at 1, modify.
  unfold bind at 1. fold (after w [LogInfo "Checking for dead media"]).
  change (List.length (catalog (after w [LogInfo "Checking for dead media"])))
    with (List.length (catalog w)).
  rewrite Hrun. unfold bind, emit, modify, ret. reflexivity.
Qed.

(** On an ordered catalog the loop leaves through [break] with the kept
    entries. *)
Lemma sweep_run (cfg : Config) (rt : Runtime) (fs : FileSystem) (w : World) :
  Spec.ordered (catalog w) ->
  exists tr,
    cleanDeleted cfg rt fs w
    = (inr true, {| catalog := filter (kept cfg rt fs) (catalog w); trace := tr |}).
Proof.
  intros Hord.
  destruct (sweep_from cfg rt fs limit ltac:(unfold limit; lia)
              (S (List.length (catalog w))) [] (catalog w) None
              (after w [LogInfo "Checking for dead media"]))
    as (tr & Hrun); try reflexivity; try exact Hord; try (intros x []); try lia.
  rewrite (cleanDeleted_sweep cfg rt fs w _ true Hrun).
  eexists. reflexivity.
Qed.

Lemma page_at_incl (k : option string) (lim : nat) (cat : list MediaDocument)
    (d : MediaDocument) :
  In d (Spec.page_at k lim cat) -> In d cat.
Proof.
  unfold Spec.page_at. intros H. apply firstn_subset in H.
  apply filter_In in H. tauto.
Qed.

Lemma sweep_effect_mono (cfg : Config) (rt : Runtime) (cat cat' : list MediaDocument)
    (e : Effect) :
  (forall d, In d cat' -> In d cat) ->
  Closed.sweep_effect cfg rt cat' e -> Closed.sweep_effect cfg rt cat e.
Proof.
  intros Hincl. destruct e; cbn [Closed.sweep_effect]; auto.
  intros (d & Hd & H). exists d. split; [exact (Hincl d Hd) | exact H].
Qed.

Lemma stat_calls_effect (cfg : Config) (rt : Runtime) (cat rows : list MediaDocument) :
  (forall d, In d rows -> In d cat) ->
  Forall (Closed.sweep_effect cfg rt cat) (stat_calls cfg rt rows).
Proof.
  intros Hincl. apply Forall_forall. intros e He. unfold stat_calls in He.
  apply in_map_iff in He. destruct He as (d & <- & Hd).
  apply filter_In in Hd. destruct Hd as [Hd Hin].
  cbn [Closed.sweep_effect]. exists d. repeat split; auto.
Qed.

(** The loop from any key on any catalog: it does not throw, issues
    listings, stats and batched deletes only, and adds no entry. *)
Lemma sweep_effects (cfg : Config) (rt : Runtime) (fs : FileSystem) (lim : nat) :
  forall fuel k w,
    exists r es cat',
      sweep fuel cfg rt fs lim k w
      = (inr r, {| catalog := cat'; trace := trace w ++ es |})
      /\ Forall (Closed.sweep_effect cfg rt (catalog w)) es
      /\ (forall d, In d cat' -> In d (catalog w)).
Proof.
  induction fuel as [|fuel IH]; intros k w.
  - exists false, [], (catalog w). cbn [sweep]. unfold ret.
    rewrite app_nil_r. destruct w. repeat split; auto.
  - rewrite sweep_turn. cbv zeta.
    set (rows := Spec.page_at k lim (catalog w)).
    set (es1 := (DbAllDocs k rows :: stat_calls cfg rt rows
                 ++ [DbBulkDocs (map tombstone (condemned cfg rt fs rows))])%list).
    assert (Hes1 : Forall (Closed.sweep_effect cfg rt (catalog w)) es1).
    { unfold es1. constructor; [exact I|]. apply Forall_app. split.
      - apply stat_calls_effect. intros d. apply page_at_incl.
      - constructor; [exact I | constructor]. }
    assert (Hsub : forall d, In d (catalog (Spec.turned cfg rt fs k rows w)) ->
                             In d (catalog w)).
    { unfold Spec.turned, Spec.purged. cbn [catalog]. intros d Hd.
      apply filter_In in Hd. tauto. }
    destruct (List.length rows <? lim)%nat.
    + exists true, es1, (catalog (Spec.turned cfg rt fs k rows w)).
      repeat split; auto.
    + destruct (IH (Some (_id (last rows (placeholder ""))))
                  (Spec.turned cfg rt fs k rows w)) as (r & es & cat' & Hrun & Hes & Hin).
      exists r, (es1 ++ es)%list, cat'. rewrite Hrun. split; [|split].
      * unfold Spec.turned. cbn [trace]. fold es1. now rewrite app_assoc.
      * apply Forall_app. split; [exact Hes1|].
        apply Forall_forall. intros e He. rewrite Forall_forall in Hes.
        exact (sweep_effect_mono cfg rt _ _ e Hsub (Hes e He)).
      * intros d Hd. exact (Hsub d (Hin d Hd)).
Qed.

(** X16: whatever the catalog and the file system are, the sweep does not
    throw; between its two log lines it only lists pages, stats paths
    that are catalogued and lie under the scan folder, and issues batched
    deletes: it never puts or removes a single entry and never runs a
    probe. It adds no entry to the catalog. *)
Theorem sweep_only_lists_stats_and_deletes (cfg : Config) (rt : Runtime)
    (fs : FileSystem) (w : World) :
  exists r es cat',
    cleanDeleted cfg rt fs w = (inr r, {| catalog := cat'; trace := trace w ++ es |})
    /\ Forall (Closed.sweep_effect cfg rt (catalog w)) es
    /\ (forall d, In d cat' -> In d (catalog w)).
Proof.
  destruct (sweep_effects cfg rt fs limit (S (List.length (catalog w))) None
              (after w [LogInfo "Checking for dead media"]))
    as (r & es & cat' & Hrun & Hes & Hin).
  exists r, ([LogInfo "Checking for dead media"] ++ es
             ++ [LogInfo "Finished check for dead media"])%list, cat'.
  rewrite (cleanDeleted_sweep cfg rt fs w _ r Hrun). split; [|split].
  - unfold after. cbn [catalog trace]. now rewrite <- !app_assoc.
  - apply Forall_app. split; [constructor; [exact I | constructor]|].
    apply Forall_app. split; [exact Hes | constructor; [exact I | constructor]].
  - exact Hin.
Qed.

Lemma page_at_all (lim : nat) (cat : list MediaDocument) :
  (List.length cat < lim)%nat -> Spec.page_at None lim cat = cat.
Proof.
  intros H. unfold Spec.page_at.
  rewrite (filter_all (at_or_after None) cat) by reflexivity.
  apply firstn_all2. lia.
Qed.

Lemma condemned_none (cfg : Config) (rt : Runtime) (fs : FileSystem)
    (rows : list MediaDocument) :
  (forall d, In d rows -> kept cfg rt fs d = true) -> condemned cfg rt fs rows = [].
Proof.
  intros Hall. unfold condemned.
  rewrite !filter_none; [reflexivity | |].
  - intros d Hd. apply filter_In in Hd. destruct Hd as [Hd _].
    specialize (Hall d Hd). unfold kept in Hall.
    apply andb_prop in Hall. destruct Hall as [_ ->]. reflexivity.
  - intros d Hd. specialize (Hall d Hd). unfold kept in Hall.
    apply andb_prop in Hall. destruct Hall as [-> _]. reflexivity.
Qed.

(** X17: a catalog of fewer than 256 entries is swept in one turn of the
    loop: one listing from the start that returns every entry, one stat
    for each entry under the scan folder in catalog order, and one
    batched delete, which is issued even when nothing is to be deleted. *)
Theorem short_catalog_is_swept_in_one_page (cfg : Config) (rt : Runtime)
    (fs : FileSystem) (w : World) :
  (List.length (catalog w) < limit)%nat ->
  exists cat',
    cleanDeleted cfg rt fs w
    = (inr true,
       {| catalog := cat';
          trace := trace w
                   ++ [LogInfo "Checking for dead media"; DbAllDocs None (catalog w)]
                   ++ stat_calls cfg rt (catalog w)
                   ++ [DbBulkDocs (map tombstone (condemned cfg rt fs (catalog w)));
                       LogInfo "Finished check for dead media"] |})
    /\ ((forall d, In d (catalog w) -> kept cfg rt fs d = true) ->
        condemned cfg rt fs (catalog w) = []).
Proof.
  intros Hlen.
  assert (Hrun : sweep (S (List.length (catalog w))) cfg rt fs limit None
                   (after w [LogInfo "Checking for dead media"])
                 = (inr true,
                    Spec.turned cfg rt fs None (catalog w)
                      (after w [LogInfo "Checking for dead media"]))).
  { rewrite sweep_turn. cbv zeta. cbn [after catalog].
    rewrite (page_at_all limit (catalog w) Hlen).
    apply Nat.ltb_lt in Hlen. now rewrite Hlen. }
  rewrite (cleanDeleted_sweep cfg rt fs w _ true Hrun).
  eexists. split.
  - unfold Spec.turned, after. cbn [catalog trace].
    rewrite <- !app_assoc. cbn [app]. rewrite <- !app_assoc. reflexivity.
  - apply condemned_none.
Qed.

Lemma short_catalog_is_swept_in_one_page_witness :
  exists cat',
    cleanDeleted Samples.media_cfg Samples.utc Samples.all_present Samples.clip_world
    = (inr true,
       {| catalog := cat';
          trace := [] ++ [LogInfo "Checking for dead media"; DbAllDocs None [Samples.clip_doc]]
                   ++ stat_calls Samples.media_cfg Samples.utc [Samples.clip_doc]
                   ++ [DbBulkDocs (map tombstone
                                     (condemned Samples.media_cfg Samples.utc
                                        Samples.all_present [Samples.clip_doc]));
                       LogInfo "Finished check for dead media"] |})
    /\ ((forall d, In d [Samples.clip_doc] ->
         kept Samples.media_cfg Samples.utc Samples.all_present d = true) ->
        condemned Samples.media_cfg Samples.utc Samples.all_present [Samples.clip_doc] = []).
Proof.
  apply (short_catalog_is_swept_in_one_page Samples.media_cfg Samples.utc
           Samples.all_present Samples.clip_world).
  unfold limit. cbn [Samples.clip_world catalog List.length]. lia.
Defined.

(** The loop on a catalog whose rows are all kept: the catalog is left as
    it is and every batch is empty. *)
Lemma sweep_healthy (cfg : Config) (rt : Runtime) (fs : FileSystem) (lim : nat) :
  forall fuel k w,
    (forall d, In d (catalog w) -> kept cfg rt fs d = true) ->
    exists r es,
      sweep fuel cfg rt fs lim k w = (inr r, after w es)
      /\ forallb Closed.idle es = true.
Proof.
  induction fuel as [|fuel IH]; intros k w Hall.
  - exists false, []. cbn [sweep]. unfold ret. now rewrite after_nil.
  - rewrite sweep_turn. cbv zeta.
    set (rows := Spec.page_at k lim (catalog w)).
    assert (Hrows : condemned cfg rt fs rows = []).
    { apply condemned_none. intros d Hd. apply Hall. exact (page_at_incl _ _ _ _ Hd). }
    assert (Hturn : Spec.turned cfg rt fs k rows w
                    = after w (DbAllDocs k rows :: stat_calls cfg rt rows
                               ++ [DbBulkDocs []])).
    { unfold Spec.turned, Spec.purged, after. rewrite Hrows. cbn [map].
      f_equal. apply filter_all. reflexivity. }
    rewrite Hturn.
    assert (Hidle : forallb Closed.idle
                      (DbAllDocs k rows :: stat_calls cfg rt rows ++ [DbBulkDocs []])
                    = true).
    { cbn [forallb Closed.idle]. rewrite forallb_app. cbn [forallb Closed.idle].
      rewrite andb_true_r. apply forallb_forall. intros e He.
      unfold stat_calls in He. apply in_map_iff in He. now destruct He as (d & <- & _). }
    destruct (List.length rows <? lim)%nat.
    + eexists true, _. split; [reflexivity | exact Hidle].
    + destruct (IH (Some (_id (last rows (placeholder ""))))
                  (after w (DbAllDocs k rows :: stat_calls cfg rt rows
                            ++ [DbBulkDocs []])) Hall)
        as (r & es & Hrun & Hes).
      rewrite Hrun, after_after. eexists r, _. split; [reflexivity|].
      rewrite forallb_app. now rewrite Hidle, Hes.
Qed.

(** X18: when every catalogued path lies under the scan folder and is a
    regular file, the sweep of an ordered catalog ends and changes
    nothing: the catalog is the same afterwards, no entry is put or
    removed and every batched delete it issues is empty. *)
Theorem sweep_of_live_catalog_deletes_nothing (cfg : Config) (rt : Runtime)
    (fs : FileSystem) (w : World) :
  Spec.ordered (catalog w) ->
  (forall d, In d (catalog w) -> kept cfg rt fs d = true) ->
  exists es,
    cleanDeleted cfg rt fs w = (inr true, after w es)
    /\ forallb Closed.idle es = true.
Proof.
  intros Hord Hall.
  destruct (sweep_healthy cfg rt fs limit (S (List.length (catalog w))) None
              (after w [LogInfo "Checking for dead media"]) Hall)
    as (r & es & Hrun & Hes).
  pose proof (cleanDeleted_sweep cfg rt fs w _ r Hrun) as Hclean.
  destruct (sweep_run cfg rt fs w Hord) as (tr & Hrun').
  rewrite Hrun' in Hclean. injection Hclean as Hr _. subst r.
  rewrite (cleanDeleted_sweep cfg rt fs w _ true Hrun), !after_after.
  eexists. split; [reflexivity|].
  cbn [app forallb Closed.idle]. rewrite forallb_app, Hes. reflexivity.
Qed.

Lemma sweep_of_live_catalog_deletes_nothing_witness :
  exists es,
    cleanDeleted Samples.media_cfg Samples.utc Samples.all_present Samples.clip_world
    = (inr true, after Samples.clip_world es)
    /\ forallb Closed.idle es = true.
Proof.
  apply (sweep_of_live_catalog_deletes_nothing Samples.media_cfg Samples.utc
           Samples.all_present Samples.clip_world
           (ascending_ordered (catalog Samples.clip_world) eq_refl)).
  intros d [<- | []]. reflexivity.
Defined.

(** X19: sweeping twice over the same file system is sweeping once: on an
    ordered catalog the second sweep ends, leaves the catalog the first
    one left, and every batched delete it issues is empty. *)
Theorem second_sweep_deletes_nothing (cfg : Config) (rt : Runtime) (fs : FileSystem)
    (w : World) :
  Spec.ordered (catalog w) ->
  exists w1 es,
    cleanDeleted cfg rt fs w = (inr true, w1)
    /\ catalog w1 = filter (kept cfg rt fs) (catalog w)
    /\ cleanDeleted cfg rt fs w1 = (inr true, after w1 es)
    /\ forallb Closed.idle es = true.
Proof.
  intros Hord.
  destruct (sweep_run cfg rt fs w Hord) as (tr & Hrun).
  set (w1 := {| catalog := filter (kept cfg rt fs) (catalog w); trace := tr |}) in *.
  assert (Hord1 : Spec.ordered (catalog w1)) by (apply ordered_filter; exact Hord).
  assert (Hall : forall d, In d (catalog w1) -> kept cfg rt fs d = true).
  { intros d Hd. apply filter_In in Hd. tauto. }
  destruct (sweep_healthy cfg rt fs limit (S (List.length (catalog w1))) None
              (after w1 [LogInfo "Checking for dead media"]) Hall)
    as (r & es & Hrun1 & Hes).
  pose proof (cleanDeleted_sweep cfg rt fs w1 _ r Hrun1) as Hclean.
  destruct (sweep_run cfg rt fs w1 Hord1) as (tr1 & Hrun1').
  rewrite Hrun1' in Hclean. injection Hclean as Hr _. subst r.
  exists w1. eexists. split; [exact Hrun|]. split; [reflexivity|].
  rewrite (cleanDeleted_sweep cfg rt fs w1 _ true Hrun1), !after_after.
  split; [reflexivity|].
  cbn [app forallb Closed.idle]. rewrite forallb_app, Hes. reflexivity.
Qed.

Lemma second_sweep_deletes_nothing_witness :
  exists w1 es,
    cleanDeleted Samples.media_cfg Samples.utc Samples.all_present Samples.mixed_world
    = (inr true, w1)
    /\ catalog w1
       = filter (kept Samples.media_cfg Samples.utc Samples.all_present)
           (catalog Samples.mixed_world)
    /\ cleanDeleted Samples.media_cfg Samples.utc Samples.all_present w1
       = (inr true, after w1 es)
    /\ forallb Closed.idle es = true.
Proof.
  apply (second_sweep_deletes_nothing Samples.media_cfg Samples.utc Samples.all_present
           Samples.mixed_world (ascending_ordered (catalog Samples.mixed_world) eq_refl)).
Defined.

(** *** Events as operations on the catalog *)

(** An ordered catalog is determined by what its lookups give. *)
Lemma lookup_head (a : MediaDocument) (cat : list MediaDocument) :
  lookup (_id a) (a :: cat) = Some a.
Proof. unfold lookup. simpl. now rewrite String.eqb_refl. Qed.

Lemma lookup_in (id : string) (cat : list MediaDocument) (d : MediaDocument) :
  lookup id cat = Some d -> In d cat.
Proof. unfold lookup. intros H. now apply find_some in H. Qed.

Lemma lookup_tail (id : string) (a : MediaDocument) (cat : list MediaDocument) :
  Spec.ordered (a :: cat) ->
  lookup id cat = if String.eqb (_id a) id then None else lookup id (a :: cat).
Proof.
  intros Hord. apply StronglySorted_inv in Hord. destruct Hord as [_ Hall].
  rewrite Forall_forall in Hall. unfold lookup. simpl.
  destruct (String.eqb (_id a) id) eqn:E; [|reflexivity].
  apply String.eqb_eq in E. subst id.
  destruct (find _ cat) as [x|] eqn:F; [|reflexivity].
  apply find_some in F. destruct F as [Hx Hid].
  pose proof (id_lt_neq _ _ (Hall x Hx)) as Hn.
  rewrite String.eqb_sym in Hn. congruence.
Qed.

Lemma ordered_ext (c1 c2 : list MediaDocument) :
  Spec.ordered c1 -> Spec.ordered c2 ->
  (forall id, lookup id c1 = lookup id c2) -> c1 = c2.
Proof.
  revert c2. induction c1 as [|a c1 IH]; intros [|b c2] H1 H2 Hext.
  - reflexivity.
  - specialize (Hext (_id b)). rewrite lookup_head in Hext. discriminate.
  - specialize (Hext (_id a)). rewrite lookup_head in Hext. discriminate.
  - assert (Hab : a = b).
    { pose proof (Hext (_id a)) as Ha. rewrite lookup_head in Ha.
      pose proof (Hext (_id b)) as Hb. rewrite lookup_head in Hb.
      symmetry in Ha. apply lookup_in in Ha, Hb.
      destruct Ha as [Ha | Ha]; [now symmetry|].
      destruct Hb as [Hb | Hb]; [exact Hb|].
      pose proof H1 as H1'. pose proof H2 as H2'.
      apply StronglySorted_inv in H1', H2'.
      destruct H1' as [_ A1], H2' as [_ A2]. rewrite Forall_forall in A1, A2.
      pose proof (A1 b Hb) as L1. pose proof (A2 a Ha) as L2.
      unfold Spec.id_lt in L1, L2. apply id_ltb_asym in L1. congruence. }
    subst b. f_equal. apply IH.
    + apply StronglySorted_inv in H1. tauto.
    + apply StronglySorted_inv in H2. tauto.
    + intros id. rewrite (lookup_tail id a c1 H1), (lookup_tail id a c2 H2).
      now rewrite Hext.
Qed.






(** X21: adding a file and then unlinking it is a round trip on the
    catalog: when the id was not on file (the event is not taken for the
    placeholder's empty fingerprint, and the probe's output is one its
    callback can read) the file is on file under its path after the
    first event, and after the second, whenever it comes, the ordered
    catalog is the one before the first. *)
Theorem add_then_unlink_restores_catalog (cfg : Config) (rt : Runtime) (ev ev' : Event)
    (st : Stats) (w : World) (t : Z) :
  Spec.ordered (catalog w) ->
  ev_stat ev = Some st -> ev_stat ev' = None -> ev_path ev' = ev_path ev ->
  let id := getId rt (paths_media cfg) (ev_path ev) in
  id <> "" -> isDirectory st = false ->
  lookup id (catalog w) = None ->
  size st <> 0 \/ mtime st <> 0 ->
  ffprobe (ev_ext ev) <> ProbeUnparsable ->
  exists w1 w2 d,
    onEvent cfg rt ev w = (inr tt, w1)
    /\ lookup id (catalog w1) = Some d /\ mediaPath d = ev_path ev
    /\ onEvent cfg (at_time t rt) ev' w1 = (inr tt, w2)
    /\ catalog w2 = catalog w
    /\ In (DbRemove d) (trace w2).
Proof.
  cbv zeta. intros Hord Hst Hst' Hpath Hid Hdir Hnew Hsize Hparse.
  set (id := getId rt (paths_media cfg) (ev_path ev)) in *.
  assert (Hf : Spec.fetched id w = placeholder id)
    by (unfold Spec.fetched; now rewrite Hnew).
  assert (Hcol : Spec.collides (Spec.fetched id w) (ev_path ev) = false)
    by (rewrite Hf; reflexivity).
  assert (Hch : Spec.unchanged st (Spec.fetched id w) = false).
  { rewrite Hf. unfold Spec.unchanged. cbn [placeholder mediaSize mediaTime].
    apply andb_false_iff. destruct Hsize as [H | H]; [left | right];
      apply Z.eqb_neq; congruence. }
  destruct (scanFile_exact cfg rt (ev_ext ev) (ev_path ev) id st w Hid Hdir Hcol Hch
              Hparse) as (cat1 & Hrun & Hlook & Hothers).
  pose proof (onEvent_scan cfg rt ev st w _ Hst Hrun) as Hev.
  pose proof (onEvent_ordered cfg rt ev w Hord) as Hord1. rewrite Hev in Hord1.
  cbn [snd catalog] in Hord1.
  match type of Hev with
  | _ = (_, ?w1) => pose proof (unlink_run cfg (at_time t rt) ev' w1 Hst') as Hun
  end.
  rewrite Hpath in Hun. cbn [getId at_time] in Hun. fold id in Hun.
  cbn [catalog trace] in Hun. rewrite Hlook in Hun.
  eexists _, _, _. split; [exact Hev|]. cbn [catalog].
  split; [exact Hlook|]. split.
  { pose proof (after_probes_media cfg rt (ev_ext ev)
                  (set_media (ev_path ev) (size st) (mtime st) (Spec.fetched id w)))
      as (_ & _ & Hp & _).
    unfold Closed.scanned. cbn [mediaPath set_rev set_media] in *. exact Hp. }
  split; [exact Hun|].
  cbn [catalog trace]. split.
  - apply ordered_ext; [apply ordered_filter; exact Hord1 | exact Hord |].
    intros id'. destruct (String.eqb_spec id' id) as [-> | N].
    + now rewrite lookup_remove_same, Hnew.
    + rewrite (lookup_remove_other _ _ _ N). now apply Hothers.
  - apply in_or_app. right. right. now left.
Qed.

Lemma add_then_unlink_restores_catalog_witness :
  exists w1 w2 d,
    onEvent Samples.media_cfg Samples.utc Samples.fresh_added Samples.clip_world
    = (inr tt, w1)
    /\ lookup "FRESH" (catalog w1) = Some d /\ mediaPath d = "/media/fresh.mov"
    /\ onEvent Samples.media_cfg (at_time 1700000000000 Samples.utc)
         Samples.fresh_removed w1 = (inr tt, w2)
    /\ catalog w2 = [Samples.clip_doc]
    /\ In (DbRemove d) (trace w2).
Proof.
  apply (add_then_unlink_restores_catalog Samples.media_cfg Samples.utc
           Samples.fresh_added Samples.fresh_removed (Samples.file_stat 4000 90000000)
           Samples.clip_world 1700000000000
           (ascending_ordered (catalog Samples.clip_world) eq_refl)
           eq_refl eq_refl eq_refl ltac:(discriminate) eq_refl eq_refl).
  - left. discriminate.
  - discriminate.
Defined.

(** *** Field order and stale metadata *)

Lemma ltb_irrefl (a : number) : (a <? a)%float = false.
Proof.
  destruct (a <? a)%float eqn:E; [|reflexivity].
  pose proof (ltb_asym a a E). congruence.
Qed.

(** X23: the field order is decided by the TFF and the BFF count alone:
    the Progressive count the pattern captures has no influence, and a
    tie between the two above 10 is classified [bff]. *)
Theorem field_order_of_a_tie_is_bff (stderr : string) (r1 r2 r3 : string) :
  regex_exec (chars stderr) = Some (r1, r2, r3) ->
  (forall stderr' r3',
      regex_exec (chars stderr') = Some (r1, r2, r3') ->
      classify_field_order stderr' = classify_field_order stderr)
  /\ (r2 = r1 -> (parseInt r1 <=? of_Z 10)%float = false ->
      classify_field_order stderr = "bff").
Proof.
  intros E. unfold classify_field_order. rewrite E. split.
  - intros stderr' r3' E'. now rewrite E'.
  - intros -> Hbig. cbv zeta. now rewrite Hbig, ltb_irrefl.
Qed.

Lemma field_order_of_a_tie_is_bff_witness :
  classify_field_order Samples.idet_tie = "bff".
Proof.
  apply (proj2 (field_order_of_a_tie_is_bff Samples.idet_tie "30" "30" "500"
                  ltac:(vm_compute; reflexivity)));
    reflexivity.
Defined.

(** X24: with [config.metadata] set to [null] a scan regenerates [cinf]
    and leaves [mediainfo] as it was fetched, without running the idet
    pass and without logging an info failure: structured metadata written
    earlier stays on file, describing the file as it was. *)
Theorem disabled_metadata_leaves_mediainfo_stale (cfg : Config) (rt : Runtime)
    (ev : Event) (st : Stats) (w : World) (json : ProbeJson) :
  ev_stat ev = Some st ->
  let id := getId rt (paths_media cfg) (ev_path ev) in
  let f := Spec.fetched id w in
  id <> "" -> isDirectory st = false ->
  Spec.collides f (ev_path ev) = false -> Spec.unchanged st f = false ->
  metadata cfg = None ->
  ffprobe (ev_ext ev) = ProbeOutput json -> streams json <> [] ->
  exists w' d' seen es,
    onEvent cfg rt ev w = (inr tt, w')
    /\ lookup id (catalog w') = Some d'
    /\ cinf d' = Some (generateCinf cfg rt seen json)
    /\ mediaPath seen = ev_path ev /\ mediaSize seen = size st
    /\ mediaSize d' = size st /\ mediaTime d' = mtime st
    /\ mediainfo d' = mediainfo f
    /\ trace w' = (trace w ++ es)%list
    /\ (forall p, ~ In (RunIdet p) es)
    /\ (forall e, ~ In (LogError e "Info Failed") es).
Proof.
  cbv zeta. intros Hst Hid Hdir Hcol Hsame Hmd Hprobe Hstreams.
  destruct (scan_stored cfg rt ev st w Hst Hid Hdir Hcol Hsame
              (output_parses _ _ Hprobe)) as (w' & Hrun & Htr & Hlook).
  set (id := getId rt (paths_media cfg) (ev_path ev)) in *.
  set (d0 := set_media (ev_path ev) (size st) (mtime st) (Spec.fetched id w)) in *.
  set (seen := if thumb_first (ev_ext ev)
               then Closed.after_thumb cfg rt (ev_ext ev) d0 else d0).
  eexists w', _, seen, _. split; [exact Hrun|]. split; [exact Hlook|].
  assert (Hseen : Spec.same_media d0 seen /\ mediainfo seen = mediainfo d0).
  { unfold seen. destruct (thumb_first (ev_ext ev)).
    - destruct (after_thumb_media cfg rt (ev_ext ev) d0) as [H1 [_ H2]]. tauto.
    - split; [apply same_media_refl | reflexivity]. }
  destruct Hseen as [(_ & _ & Hp & Hs & _) Hmi].
  pose proof (after_probes_info cfg rt (ev_ext ev) d0) as [_ Hm]. fold seen in Hm.
  assert (Hinfo : Closed.after_info cfg rt (ev_ext ev) seen
                  = set_cinf (generateCinf cfg rt seen json) seen).
  { unfold Closed.after_info. rewrite Hprobe, Hmd.
    destruct (streams json); [contradiction | reflexivity]. }
  rewrite Hinfo in Hm. cbn [mediainfo set_cinf] in Hm.
  pose proof (after_probes_media cfg rt (ev_ext ev) d0) as (_ & _ & _ & Hsz & Htm).
  unfold Closed.scanned in *. fold id d0 in Htr |- *. fields.
  split; [exact (info_sees cfg rt (ev_ext ev) d0 json Hprobe Hstreams)|].
  split; [exact Hp|]. split; [exact Hs|]. split; [exact Hsz|]. split; [exact Htm|].
  split; [rewrite Hm, Hmi; reflexivity|]. split; [exact Htr|].
  assert (Hinfo_eff : Closed.info_effects cfg (ev_ext ev) (ev_path ev)
                      = [RunFfprobe (ev_path ev)]).
  { unfold Closed.info_effects, Closed.runs_idet, Closed.info_error.
    rewrite Hprobe, Hmd. destruct (streams json); [contradiction | reflexivity]. }
  assert (Hquiet : forall e,
             In e (Closed.probe_effects cfg (ev_ext ev) (ev_path ev)) ->
             e = RunFfprobe (ev_path ev) \/ e = RunThumbnail (ev_path ev)
             \/ exists x, e = LogError x "Thumbnail Failed").
  { intros e He. unfold Closed.probe_effects in He. rewrite Hinfo_eff in He.
    unfold Closed.thumb_effects, Closed.logged in He.
    destruct (thumb_first (ev_ext ev)), (Closed.thumb_error (ev_ext ev));
      cbn [app In] in He; intuition eauto. }
  split.
  - intros p [H | H]; [discriminate|].
    apply in_app_or in H. destruct H as [H | [H | [H | []]]]; try discriminate.
    destruct (Hquiet _ H) as [E | [E | (x & E)]]; discriminate.
  - intros e [H | H]; [discriminate|].
    apply in_app_or in H. destruct H as [H | [H | [H | []]]]; try discriminate.
    destruct (Hquiet _ H) as [E | [E | (x & E)]]; discriminate.
Qed.

Lemma disabled_metadata_leaves_mediainfo_stale_witness :
  exists w' d' seen es,
    onEvent Samples.media_cfg Samples.utc Samples.clip_grown_detected
      Samples.described_world = (inr tt, w')
    /\ lookup "CLIP" (catalog w') = Some d'
    /\ cinf d' = Some (generateCinf Samples.media_cfg Samples.utc seen Samples.clip_json)
    /\ mediaPath seen = "/media/clip.mov" /\ mediaSize seen = 4000
    /\ mediaSize d' = 4000 /\ mediaTime d' = 90000000
    /\ mediainfo d' = Some Samples.clip_info
    /\ trace w' = ([] ++ es)%list
    /\ (forall p, ~ In (RunIdet p) es)
    /\ (forall e, ~ In (LogError e "Info Failed") es).
Proof.
  apply (disabled_metadata_leaves_mediainfo_stale Samples.media_cfg Samples.utc
           Samples.clip_grown_detected (Samples.file_stat 4000 90000000)
           Samples.described_world Samples.clip_json
           eq_refl ltac:(discriminate) eq_refl eq_refl eq_refl eq_refl eq_refl
           ltac:(discriminate)).
Defined.

(** *** What the sweep deletes, and how *)







(** The folder test compares texts: an entry of a sibling folder whose
    name begins like the scan folder's passes it, is statted and is
    kept. *)
Example sweep_keeps_sibling_folder :
  in_folder Samples.media_cfg Samples.utc Samples.sibling_doc = true
  /\ cleanDeleted Samples.media_cfg Samples.utc Samples.all_present Samples.sibling_world
     = (inr true,
        {| catalog := [Samples.sibling_doc];
           trace := [LogInfo "Checking for dead media";
                     DbAllDocs None [Samples.sibling_doc];
                     StatFile "/mediaX/a.mov"; DbBulkDocs [];
                     LogInfo "Finished check for dead media"] |}).
Proof. split; reflexivity. Qed.

(** *** Partial failure *)

Lemma info_rejections (cfg : Config) (rt : Runtime) (ext : Externals) (s : Scan)
    (msg : string) :
  fst (generateInfo cfg rt ext s) = inl (Error msg) ->
  Spec.info_fails ext \/ exists json, Spec.idet_fails cfg ext json.
Proof.
  unfold generateInfo, generateMediainfo, detectFieldOrder, bind, the_doc, issue, update,
    modify, throw, ret, Spec.info_fails, Spec.idet_fails.
  fields.
  destruct (ffprobe ext) as [|json|]; [intros _; left; left; reflexivity | | discriminate].
  destruct (streams json) as [|x xs] eqn:Es;
    [intros _; left; right; exists json; split; [reflexivity | exact Es]|].
  destruct (metadata cfg) as [md|]; fields; [|discriminate].
  destruct (fieldOrder md) eqn:Efo; cbn [negb]; fields; [|discriminate].
  destruct (idet ext); fields; [|discriminate].
  intros _. right. exists json. rewrite Es.
  split; [reflexivity|]. split; [discriminate|]. split; [eauto | reflexivity].
Qed.

(** C6, as stated, fails: when the info side fails in its field-order
    pass while the thumbnail is made, the entry that is written carries a
    [cinf] that is not the one it had before the run. *)
Lemma info_failure_after_cinf_renews_cinf :
  fst (generateInfo Samples.detect_cfg Samples.utc Samples.idet_down
         {| doc := set_media "/media/clip.mov" 4000 90000000 Samples.clip_doc;
            issued := [] |})
  = inl (Error "idet")
  /\ thumbnail Samples.idet_down = ThumbDone Samples.thumb_stat "PNG"
  /\ fst (onEvent Samples.detect_cfg Samples.utc Samples.clip_grown_idet_down
            Samples.clip_world) = inr tt
  /\ In (LogError (Error "idet") "Info Failed")
       (trace (snd (onEvent Samples.detect_cfg Samples.utc Samples.clip_grown_idet_down
                      Samples.clip_world)))
  /\ option_map cinf (lookup "CLIP" (catalog Samples.clip_world)) = Some None
  /\ option_map cinf
       (lookup "CLIP"
          (catalog (snd (onEvent Samples.detect_cfg Samples.utc
                           Samples.clip_grown_idet_down Samples.clip_world))))
     = Some (Some (dquote ++ "CLIP" ++ dquote
                   ++ "  MOVIE  4000 19700101000000 50 1/25" ++ crlf)).
Proof.
  split; [reflexivity|]. split; [reflexivity|]. split; [reflexivity|].
  split; [vm_compute; do 3 right; left; reflexivity|].
  split; [reflexivity|]. vm_compute. reflexivity.
Qed.

(** C6 (amended): when the info side rejects and the thumbnail probe
    succeeds, the handler still writes the entry and no rejection leaves
    it: the written document carries the new thumbnail fields and the
    new stat fields, its [mediainfo] is the one that was fetched, and it
    is on file afterwards. Its [cinf] is the fetched one when the probe
    fails or finds no streams, and the regenerated one when the
    field-order pass fails, [cinf] being assigned before that pass; the
    info side rejects in no other way. Symmetrically, when the thumbnail
    probe fails and the info probe answers with streams, the probe has
    run, [cinf] is regenerated and the entry is written. *)
Theorem partial_failure_is_written (cfg : Config) (rt : Runtime) (ev : Event) (st : Stats)
    (w : World) :
  ev_stat ev = Some st ->
  let path := ev_path ev in
  let id := getId rt (paths_media cfg) path in
  let d := Spec.fetched id w in
  id <> "" -> isDirectory st = false ->
  Spec.collides d path = false -> Spec.unchanged st d = false ->
  (forall tst png,
      Spec.info_fails (ev_ext ev) -> thumbnail (ev_ext ev) = ThumbDone tst png ->
      exists d' w',
        onEvent cfg rt ev w = (inr tt, w')
        /\ In (DbPut d') (trace w')
        /\ lookup id (catalog w') = Some (set_rev (next_rev rt (_rev d')) d')
        /\ Spec.thumb_updated cfg rt tst png d'
        /\ mediaPath d' = path /\ mediaSize d' = size st /\ mediaTime d' = mtime st
        /\ cinf d' = cinf d /\ mediainfo d' = mediainfo d)
  /\ (forall tst png json,
        Spec.idet_fails cfg (ev_ext ev) json ->
        thumbnail (ev_ext ev) = ThumbDone tst png ->
        exists d' w' seen,
          onEvent cfg rt ev w = (inr tt, w')
          /\ In (DbPut d') (trace w')
          /\ In (LogError (Error "idet") "Info Failed") (trace w')
          /\ lookup id (catalog w') = Some (set_rev (next_rev rt (_rev d')) d')
          /\ Spec.thumb_updated cfg rt tst png d'
          /\ mediaPath d' = path /\ mediaSize d' = size st /\ mediaTime d' = mtime st
          /\ cinf d' = Some (generateCinf cfg rt seen json)
          /\ mediaPath seen = path /\ mediaSize seen = size st
          /\ mediainfo d' = mediainfo d)
  /\ (forall s msg,
        fst (generateInfo cfg rt (ev_ext ev) s) = inl (Error msg) ->
        Spec.info_fails (ev_ext ev) \/ exists json, Spec.idet_fails cfg (ev_ext ev) json)
  /\ (forall json,
        Spec.thumb_fails (ev_ext ev) ->
        ffprobe (ev_ext ev) = ProbeOutput json -> streams json <> [] ->
        exists d' w' seen,
          onEvent cfg rt ev w = (inr tt, w')
          /\ In (RunFfprobe path) (trace w')
          /\ In (DbPut d') (trace w')
          /\ lookup id (catalog w') = Some (set_rev (next_rev rt (_rev d')) d')
          /\ cinf d' = Some (generateCinf cfg rt seen json)
          /\ mediaPath seen = path /\ mediaSize seen = size st
          /\ mediaPath d' = path /\ mediaSize d' = size st /\ mediaTime d' = mtime st).
Proof.
  cbv zeta. intros Hst Hid Hdir Hcol Hsame.
  set (id := getId rt (paths_media cfg) (ev_path ev)) in *.
  pose proof (scanFile_full cfg rt (ev_ext ev) (ev_path ev) id st w Hid Hdir Hcol Hsame)
    as Hfull.
  assert (Hput : forall d' es,
             In (DbPut d') (trace w ++ DbGet id :: es ++ [DbPut d'; LogInfo "Scanned"])).
  { intros d' es. apply in_or_app; right; right; apply in_or_app; right; now left. }
  split; [|split; [|split; [intros s msg; apply info_rejections|]]].
  - intros tst png Hfail Hpng.
    destruct (Hfull (failure_parses _ Hfail))
      as (d' & es & cat' & Hrun & Hlook & Hprobe & Hthumb & Hm & Hinfo & Hdone & Hok).
    pose proof (onEvent_scan cfg rt ev st w _ Hst Hrun) as Hev.
    unfold Spec.same_media in Hm.
    destruct Hm as (_ & _ & Hp & Hs & Ht). cbn [mediaPath mediaSize mediaTime set_media] in *.
    exists d'. eexists.
    split; [exact Hev|]. cbn [trace catalog].
    split; [apply Hput|]. split; [exact Hlook|].
    split; [exact (Hdone tst png Hpng)|].
    destruct (Hinfo Hfail) as [Hc Hmi]. tauto.
  - intros tst png json (Hjson & Hstreams & (md & Hmd & Hfo) & Hidet) Hpng.
    destruct (Hfull (output_parses _ _ Hjson))
      as (d' & es & cat' & Hrun & Hlook & _ & _ & Hm & _ & Hdone & _).
    pose proof (onEvent_scan cfg rt ev st w _ Hst Hrun) as Hev.
    destruct (scan_stored cfg rt ev st w Hst Hid Hdir Hcol Hsame (output_parses _ _ Hjson))
      as (w2 & Hrun2 & Htr2 & Hlook2).
    fold id in Htr2, Hlook2.
    rewrite Hev in Hrun2. injection Hrun2 as <-. cbn [trace catalog] in Htr2, Hlook2.
    assert (Hd' : d' = Closed.scanned cfg rt (ev_ext ev) (ev_path ev) id st w).
    { pose proof Htr2 as Htr3.
      apply app_inv_head in Htr3. injection Htr3 as Htr2'.
      rename Htr2 into Htr0. rename Htr2' into Htr2.
      assert (Hl : last (es ++ [DbPut d'; LogInfo "Scanned"]) (LogInfo "")
                   = last (Closed.probe_effects cfg (ev_ext ev) (ev_path ev)
                           ++ [DbPut (Closed.scanned cfg rt (ev_ext ev) (ev_path ev) id st w);
                               LogInfo "Scanned"]) (LogInfo ""))
        by now rewrite Htr2.
      assert (Hr : removelast (es ++ [DbPut d'; LogInfo "Scanned"])
                   = removelast (Closed.probe_effects cfg (ev_ext ev) (ev_path ev)
                           ++ [DbPut (Closed.scanned cfg rt (ev_ext ev) (ev_path ev) id st w);
                               LogInfo "Scanned"]))
        by now rewrite Htr2.
      change [DbPut d'; LogInfo "Scanned"] with ([DbPut d'] ++ [LogInfo "Scanned"])%list in Hr.
      change [DbPut (Closed.scanned cfg rt (ev_ext ev) (ev_path ev) id st w);
              LogInfo "Scanned"]
        with ([DbPut (Closed.scanned cfg rt (ev_ext ev) (ev_path ev) id st w)]
              ++ [LogInfo "Scanned"])%list in Hr.
      rewrite !app_assoc, !removelast_last in Hr.
      apply (f_equal (fun l => last l (LogInfo ""))) in Hr.
      rewrite !last_last in Hr. now injection Hr. }
    set (d0 := set_media (ev_path ev) (size st) (mtime st) (Spec.fetched id w)) in *.
    set (seen := if thumb_first (ev_ext ev)
                 then Closed.after_thumb cfg rt (ev_ext ev) d0 else d0).
    assert (Hseen : Spec.same_media d0 seen /\ mediainfo seen = mediainfo d0).
    { unfold seen. destruct (thumb_first (ev_ext ev)).
      - destruct (after_thumb_media cfg rt (ev_ext ev) d0) as [H1 [_ H2]]. tauto.
      - split; [apply same_media_refl | reflexivity]. }
    destruct Hseen as [(_ & _ & Hps & Hss & _) Hmi].
    pose proof (after_probes_info cfg rt (ev_ext ev) d0) as [Hc Hmm].
    fold seen in Hc, Hmm.
    assert (Hinfo : Closed.after_info cfg rt (ev_ext ev) seen
                    = set_cinf (generateCinf cfg rt seen json) seen).
    { unfold Closed.after_info, Closed.resolved_order.
      rewrite Hjson, Hmd, Hfo, Hidet.
      destruct (streams json); [contradiction | reflexivity]. }
    rewrite Hinfo in Hc, Hmm. cbn [cinf mediainfo set_cinf] in Hc, Hmm.
    unfold Spec.same_media in Hm.
    destruct Hm as (_ & _ & Hp & Hs & Ht).
    exists d'. eexists. exists seen.
    split; [exact Hev|]. cbn [trace catalog].
    split; [apply Hput|].
    split.
    { rewrite Htr2.
      apply in_scan_trace, info_error_logged.
      unfold Closed.info_error, Closed.resolved_order. rewrite Hjson, Hmd, Hfo, Hidet.
      destruct (streams json); [contradiction | reflexivity]. }
    split; [exact Hlook|].
    split; [exact (Hdone tst png Hpng)|].
    unfold d0 in Hp, Hs, Ht, Hps, Hss, Hmi.
    cbn [mediaPath mediaSize mediaTime mediainfo set_media] in Hp, Hs, Ht, Hps, Hss, Hmi.
    split; [exact Hp|]. split; [exact Hs|]. split; [exact Ht|].
    rewrite Hd'. unfold Closed.scanned. fold d0.
    split; [exact Hc|]. split; [exact Hps|]. split; [exact Hss|].
    now rewrite Hmm, Hmi.
  - intros json _ Hjson Hstreams.
    destruct (Hfull (output_parses _ _ Hjson))
      as (d' & es & cat' & Hrun & Hlook & Hprobe & Hthumb & Hm & Hinfo & Hdone & Hok).
    pose proof (onEvent_scan cfg rt ev st w _ Hst Hrun) as Hev.
    unfold Spec.same_media in Hm.
    destruct Hm as (_ & _ & Hp & Hs & Ht). cbn [mediaPath mediaSize mediaTime set_media] in *.
    destruct (Hok json Hjson Hstreams) as (seen & Hseen & Hcinf).
    unfold Spec.same_media in Hseen.
    cbn [mediaPath mediaSize mediaTime set_media] in Hseen.
    exists d'. eexists. exists seen.
    split; [exact Hev|]. cbn [trace catalog].
    split; [apply in_or_app; right; right; apply in_or_app; now left|].
    split; [apply Hput|]. split; [exact Hlook|]. tauto.
Qed.

Lemma partial_failure_is_written_witness :
  exists d' w' seen,
    onEvent Samples.detect_cfg Samples.utc Samples.clip_grown_idet_down Samples.clip_world
    = (inr tt, w')
    /\ In (DbPut d') (trace w')
    /\ In (LogError (Error "idet") "Info Failed") (trace w')
    /\ lookup "CLIP" (catalog w') = Some (set_rev (next_rev Samples.utc (_rev d')) d')
    /\ Spec.thumb_updated Samples.detect_cfg Samples.utc Samples.thumb_stat "PNG" d'
    /\ mediaPath d' = "/media/clip.mov" /\ mediaSize d' = 4000 /\ mediaTime d' = 90000000
    /\ cinf d' = Some (generateCinf Samples.detect_cfg Samples.utc seen Samples.clip_json)
    /\ mediaPath seen = "/media/clip.mov" /\ mediaSize seen = 4000
    /\ mediainfo d' = None.
Proof.
  apply (proj1 (proj2 (partial_failure_is_written Samples.detect_cfg Samples.utc
                         Samples.clip_grown_idet_down (Samples.file_stat 4000 90000000)
                         Samples.clip_world eq_refl ltac:(discriminate)
                         eq_refl eq_refl eq_refl))
           Samples.thumb_stat "PNG" Samples.clip_json).
  - split; [reflexivity|]. split; [discriminate|].
    split; [exists Samples.detect_on; split; reflexivity | reflexivity].
  - reflexivity.
Defined.

(** *** The exception no handler sees *)

(** A probe that exits normally and prints what its callback throws on
    ends the process: the exception passes every handler, nothing is
    written or logged for the file, and the event behind it is never
    handled. *)
Example unparsable_probe_output_ends_the_pipeline :
  pipeline Samples.media_cfg Samples.utc
    [Samples.clip_grown_garbled; Samples.other_grown] Samples.clip_world
  = (inl (Uncaught "JSON.parse"),
     after Samples.clip_world [DbGet "CLIP"; RunFfprobe "/media/clip.mov"])
  /\ lookup "OTHER"
       (catalog (snd (pipeline Samples.media_cfg Samples.utc [Samples.other_grown]
                        Samples.clip_world)))
     <> None.
Proof. split; [reflexivity | vm_compute; discriminate]. Qed.
